(** * ccproxy: routing, health selection, forwarding and statistics

  A shallow embedding of the request path of the proxy
  (packages [proxy], [config] and [websocket]) together with the
  properties its specification states about it.

  Go strings are byte strings and are modelled by [string]; the functions
  of Go's [strings] package used by the code are given below.
  [TrimSpace] is the one of Go on every byte string, white space beyond
  ASCII included; [ToUpper] is the one of Go on ASCII strings and leaves
  the upper case of other strings, which follows the Unicode tables, to
  a parameter; [ToLower] is given on ASCII text.  [int], [int64] and
  [time.Duration] are 64-bit signed integers, modelled by [Z] with the
  wrap-around [Int64.wrap] applied where the code computes. *)

From Stdlib Require Import ZArith Lia Ascii String List Bool.
From stdpp Require Import base gmap strings list.

Local Open Scope Z_scope.

(** ** Go's [strings] package *)

Module GoStrings.

(** [len(s) >= len(prefix) && s[:len(prefix)] == prefix] *)
Definition HasPrefix (s prefix : string) : bool :=
  (String.length prefix <=? String.length s)%nat
  && String.eqb (String.substring 0 (String.length prefix) s) prefix.

(** [len(s) >= len(suffix) && s[len(s)-len(suffix):] == suffix] *)
Definition HasSuffix (s suffix : string) : bool :=
  (String.length suffix <=? String.length s)%nat
  && String.eqb
       (String.substring (String.length s - String.length suffix)
                         (String.length suffix) s)
       suffix.

(** [if HasSuffix(s, suffix) { return s[:len(s)-len(suffix)] }; return s] *)
Definition TrimSuffix (s suffix : string) : string :=
  if HasSuffix s suffix
  then String.substring 0 (String.length s - String.length suffix) s
  else s.

(** [Contains(s, substr)]: [substr] occurs at some offset of [s]. *)
Fixpoint Contains (s substr : string) : bool :=
  HasPrefix s substr ||
  match s with
  | EmptyString => false
  | String _ s' => Contains s' substr
  end.

Definition is_upper (c : ascii) : bool :=
  let n := nat_of_ascii c in (65 <=? n)%nat && (n <=? 90)%nat.

Definition is_lower (c : ascii) : bool :=
  let n := nat_of_ascii c in (97 <=? n)%nat && (n <=? 122)%nat.

Definition lower_ascii (c : ascii) : ascii :=
  if is_upper c then ascii_of_nat (nat_of_ascii c + 32) else c.

Definition upper_ascii (c : ascii) : ascii :=
  if is_lower c then ascii_of_nat (nat_of_ascii c - 32) else c.

Fixpoint map_string (f : ascii -> ascii) (s : string) : string :=
  match s with
  | EmptyString => EmptyString
  | String c s' => String (f c) (map_string f s')
  end.

Definition ToLower : string -> string := map_string lower_ascii.

(** A test on every byte of a string. *)
Fixpoint all_chars (f : ascii -> bool) (s : string) : bool :=
  match s with
  | EmptyString => true
  | String c s' => f c && all_chars f s'
  end.

(** No byte at or above [utf8.RuneSelf]. *)
Definition isASCII (s : string) : bool :=
  all_chars (fun c => (nat_of_ascii c <? 128)%nat) s.

(** [ToUpper]: an ASCII string is mapped byte by byte, [a] to [z]
    losing [a - A]; any other string is [Map(unicode.ToUpper, s)], which
    follows the Unicode tables of the Go release and is left as the
    parameter [upperUnicode]. *)
Definition ToUpper (upperUnicode : string -> string) (s : string) : string :=
  if isASCII s then map_string upper_ascii s else upperUnicode s.

(** White space in ASCII ([asciiSpace]): tab, line feed, vertical tab,
    form feed, carriage return, space. *)
Definition is_space (c : ascii) : bool :=
  let n := nat_of_ascii c in ((9 <=? n)%nat && (n <=? 13)%nat) || (n =? 32)%nat.

(** The white space of [unicode.IsSpace] beyond ASCII, in UTF-8:
    U+0085 and U+00A0 take two bytes ([C2 85], [C2 A0]); U+1680
    ([E1 9A 80]), U+2000 to U+200A ([E2 80 80] to [E2 80 8A]), U+2028,
    U+2029, U+202F ([E2 80 A8], [E2 80 A9], [E2 80 AF]), U+205F
    ([E2 81 9F]) and U+3000 ([E3 80 80]) take three. *)
Definition is_space2 (c1 c2 : ascii) : bool :=
  let a := nat_of_ascii c1 in
  let b := nat_of_ascii c2 in
  ((a =? 194) && ((b =? 133) || (b =? 160)))%nat.

Definition is_space3 (c1 c2 c3 : ascii) : bool :=
  let a := nat_of_ascii c1 in
  let b := nat_of_ascii c2 in
  let c := nat_of_ascii c3 in
  (((a =? 225) && (b =? 154) && (c =? 128))
   || ((a =? 226) && (b =? 128)
       && (((128 <=? c) && (c <=? 138)) || (c =? 168) || (c =? 169)
           || (c =? 175)))
   || ((a =? 226) && (b =? 129) && (c =? 159))
   || ((a =? 227) && (b =? 128) && (c =? 128)))%nat.

(** [TrimLeftFunc(s, unicode.IsSpace)]: the runes are decoded from the
    left, and a rune is white space exactly when the bytes at hand are
    one of the encodings above (a byte that starts no valid encoding
    decodes to [RuneError], which is not white space). *)
Fixpoint TrimLeftSpace (s : string) : string :=
  match s with
  | EmptyString => EmptyString
  | String c1 s1 =>
      if is_space c1 then TrimLeftSpace s1
      else
        match s1 with
        | EmptyString => s
        | String c2 s2 =>
            if is_space2 c1 c2 then TrimLeftSpace s2
            else
              match s2 with
              | EmptyString => s
              | String c3 s3 =>
                  if is_space3 c1 c2 c3 then TrimLeftSpace s3 else s
              end
        end
  end.

(** [TrimRightFunc(s, unicode.IsSpace)] on the bytes in reverse order:
    [DecodeLastRuneInString] gives a white space exactly when the string
    ends with one of the encodings above. *)
Fixpoint trimSpaceReversed (r : list ascii) : list ascii :=
  match r with
  | [] => []
  | c1 :: r1 =>
      if is_space c1 then trimSpaceReversed r1
      else
        match r1 with
        | [] => r
        | c2 :: r2 =>
            if is_space2 c2 c1 then trimSpaceReversed r2
            else
              match r2 with
              | [] => r
              | c3 :: r3 =>
                  if is_space3 c3 c2 c1 then trimSpaceReversed r3 else r
              end
        end
  end.

Definition TrimRightSpace (s : string) : string :=
  string_of_list_ascii
    (rev (trimSpaceReversed (rev (list_ascii_of_string s)))).

(** [TrimSpace]: its loops over the ASCII bytes at both ends are a short
    cut for [TrimFunc(s, unicode.IsSpace)], which is
    [TrimRightFunc(TrimLeftFunc(s, f), f)]. *)
Definition TrimSpace (s : string) : string := TrimRightSpace (TrimLeftSpace s).

(** [Split(s, sep)] for a one-byte separator: the pieces between
    successive separators, always at least one piece. *)
Fixpoint Split (s : string) (sep : ascii) : list string :=
  match s with
  | EmptyString => [EmptyString]
  | String c s' =>
      if Ascii.eqb c sep then EmptyString :: Split s' sep
      else match Split s' sep with
           | [] => [String c EmptyString]
           | p :: ps => String c p :: ps
           end
  end.

(** Every byte. *)
Definition all_bytes : list ascii := map ascii_of_nat (seq 0 256).

End GoStrings.

(** ** 64-bit signed arithmetic *)

Module Int64.

Definition max_int64 : Z := 2 ^ 63 - 1.
Definition min_int64 : Z := - 2 ^ 63.

(** The value a Go [int64] holds after an operation whose exact result
    is [z]. *)
Definition wrap (z : Z) : Z := (z + 2 ^ 63) mod 2 ^ 64 - 2 ^ 63.

Definition in_range (z : Z) : Prop := min_int64 <= z <= max_int64.

End Int64.

(** ** Common types *)

(** A Go function returning [(T, error)]. *)
Inductive result (A : Type) : Type :=
| Ok (a : A)
| Err (msg : string).
Arguments Ok {A} a.
Arguments Err {A} msg.

Module time.
Definition Nanosecond : Z := 1.
Definition Second : Z := 1000000000.
Definition Hour : Z := 3600 * Second.
End time.

(** The fields of [net/url.URL] the proxy reads and writes. *)
Module url.
Record URL : Type := {
  Scheme : string;
  Host : string;
  Path : string;
  RawQuery : string
}.
End url.

(** ** Package [config] *)

Module config.
Import GoStrings.

Record ProxyTarget : Type := {
  Path : string;
  TargetURL : string;
  TargetURLs : list string;
  HealthCheckPath : string;
  HealthCheckDelay : Z;
  Methods : list string;
  Headers : gmap string string;
  HTTPProxy : string
}.

(** The [Proxy] part of [Config]; the other parts are not read by the
    code below. *)
Record Config : Type := {
  Targets : list ProxyTarget;
  MaxRetries : Z;
  RetryDelay : Z
}.

Definition withTargetURL (t : ProxyTarget) (u : string) : ProxyTarget :=
  {| Path := Path t; TargetURL := u; TargetURLs := TargetURLs t;
     HealthCheckPath := HealthCheckPath t;
     HealthCheckDelay := HealthCheckDelay t; Methods := Methods t;
     Headers := Headers t; HTTPProxy := HTTPProxy t |}.

Definition withTargetURLs (t : ProxyTarget) (us : list string) : ProxyTarget :=
  {| Path := Path t; TargetURL := TargetURL t; TargetURLs := us;
     HealthCheckPath := HealthCheckPath t;
     HealthCheckDelay := HealthCheckDelay t; Methods := Methods t;
     Headers := Headers t; HTTPProxy := HTTPProxy t |}.

Definition withHealthCheckPath (t : ProxyTarget) (p : string) : ProxyTarget :=
  {| Path := Path t; TargetURL := TargetURL t; TargetURLs := TargetURLs t;
     HealthCheckPath := p;
     HealthCheckDelay := HealthCheckDelay t; Methods := Methods t;
     Headers := Headers t; HTTPProxy := HTTPProxy t |}.

Definition withHealthCheckDelay (t : ProxyTarget) (d : Z) : ProxyTarget :=
  {| Path := Path t; TargetURL := TargetURL t; TargetURLs := TargetURLs t;
     HealthCheckPath := HealthCheckPath t;
     HealthCheckDelay := d; Methods := Methods t;
     Headers := Headers t; HTTPProxy := HTTPProxy t |}.

(** The inner loop of [processTargetURLs]:
    [trimmed := strings.TrimSpace(url); if trimmed != "" { append }]. *)
Definition appendTrimmed (acc : list string) (u : string) : list string :=
  let trimmed := TrimSpace u in
  if String.eqb trimmed "" then acc else acc ++ [trimmed].

(** The first half of the body of the loop of [processTargetURLs]:
    parsing the [target_url] field. *)
Definition parseTargetURL (t : ProxyTarget) : ProxyTarget :=
  if String.eqb (TargetURL t) "" then t
  else if Contains (TargetURL t) "," then
    let urls := Split (TargetURL t) "," in
    let t1 := withTargetURLs t (fold_left appendTrimmed urls (TargetURLs t)) in
    match TargetURLs t1 with
    | first :: _ => withTargetURL t1 first
    | [] => t1
    end
  else withTargetURLs t [TargetURL t].

(** The second half: default health check path and delay. *)
Definition defaultHealthCheck (t : ProxyTarget) : ProxyTarget :=
  let t1 :=
    if String.eqb (HealthCheckPath t) "" then
      if Contains (TargetURL t) "api" then withHealthCheckPath t ""
      else withHealthCheckPath t "/"
    else t in
  if HealthCheckDelay t1 =? 0 then withHealthCheckDelay t1 30 else t1.

Definition processTarget (t : ProxyTarget) : ProxyTarget :=
  defaultHealthCheck (parseTargetURL t).

Definition processTargetURLs (c : Config) : Config :=
  {| Targets := map processTarget (Targets c);
     MaxRetries := MaxRetries c; RetryDelay := RetryDelay c |}.

End config.

(** ** Package [proxy]: the health checker ([health_check.go]) *)

Module proxy.
Import GoStrings.

Record URLHealth : Type := {
  URL : string;
  IsHealthy : bool;
  ResponseTime : Z;
  LastCheck : Z;
  ErrorCount : Z;
  TotalChecks : Z;
  SuccessChecks : Z;
  AverageTime : Z;
  MinTime : Z;
  MaxTime : Z
}.

(** [HealthChecker.urlHealthMap]; the mutex serialises the operations
    below, each of which is one critical section. *)
Abbreviation HealthMap := (gmap string URLHealth).

Definition NewHealthChecker : HealthMap := ∅.

(** [initializeURLHealth]: a record assumed healthy, unless one exists. *)
Definition initializeURLHealth (hm : HealthMap) (u : string) (now : Z) : HealthMap :=
  match hm !! u with
  | Some _ => hm
  | None =>
      <[u := {| URL := u; IsHealthy := true; ResponseTime := 0;
                LastCheck := now; ErrorCount := 0; TotalChecks := 0;
                SuccessChecks := 0; AverageTime := 0; MinTime := 0;
                MaxTime := 0 |}]> hm
  end.

(** The record [updateHealthStatus] works on: the stored one, or a new
    one with [MinTime: time.Hour]. *)
Definition healthOrNew (hm : HealthMap) (u : string) : URLHealth :=
  match hm !! u with
  | Some h => h
  | None =>
      {| URL := u; IsHealthy := false; ResponseTime := 0; LastCheck := 0;
         ErrorCount := 0; TotalChecks := 0; SuccessChecks := 0;
         AverageTime := 0; MinTime := time.Hour; MaxTime := 0 |}
  end.

(** The simple moving average of [updateHealthStatus], [n] being the
    count of successful checks after its increment:
    [(AverageTime*Duration(n-1) + responseTime) / Duration(n)].
    Go's [/] truncates; a zero divisor would panic, and [n] is zero only
    if the count was [-1] before. *)
Definition movingAverage (avg n responseTime : Z) : Z :=
  Int64.wrap
    (Z.quot (Int64.wrap (Int64.wrap (avg * Int64.wrap (n - 1)) + responseTime)) n).

(** The body of [updateHealthStatus] on the record (the log lines, which
    read [previousHealth] and the success rate, change no state). *)
Definition updateRecord (health : URLHealth) (isHealthy : bool)
    (responseTime now : Z) : URLHealth :=
  let total := Int64.wrap (TotalChecks health + 1) in
  let timed := 0 <? responseTime in
  let minT :=
    if timed && ((responseTime <? MinTime health) || (MinTime health =? 0))
    then responseTime else MinTime health in
  let maxT :=
    if timed && (MaxTime health <? responseTime)
    then responseTime else MaxTime health in
  let success :=
    if timed && isHealthy then Int64.wrap (SuccessChecks health + 1)
    else SuccessChecks health in
  let avg :=
    if timed && isHealthy then
      if success =? 1 then responseTime
      else movingAverage (AverageTime health) success responseTime
    else AverageTime health in
  let errors := if isHealthy then 0 else Int64.wrap (ErrorCount health + 1) in
  {| URL := URL health; IsHealthy := isHealthy; ResponseTime := responseTime;
     LastCheck := now; ErrorCount := errors; TotalChecks := total;
     SuccessChecks := success; AverageTime := avg; MinTime := minT;
     MaxTime := maxT |}.

Definition updateHealthStatus (hm : HealthMap) (u : string) (isHealthy : bool)
    (responseTime now : Z) : HealthMap :=
  <[u := updateRecord (healthOrNew hm u) isHealthy responseTime now]> hm.

(** *** Selection *)

(** The variables the loop of [GetFastestHealthyURL] carries
    ([healthyCount] is at most the length of the list: no overflow). *)
Record Fastest : Type := {
  fastestURL : string;
  fastestTime : Z;
  healthyCount : Z
}.

Definition fastestInit : Fastest :=
  {| fastestURL := ""; fastestTime := time.Hour; healthyCount := 0 |}.

(** [responseTimeToUse] for a healthy URL: the average when positive,
    otherwise the last response time. *)
Definition responseTimeToUse (health : URLHealth) : Z :=
  if 0 <? AverageTime health then AverageTime health else ResponseTime health.

(** One iteration of the loop for a URL that has a record. *)
Definition consider (u : string) (health : URLHealth) (st : Fastest) : Fastest :=
  if IsHealthy health then
    if responseTimeToUse health <? fastestTime st then
      {| fastestURL := u; fastestTime := responseTimeToUse health;
         healthyCount := healthyCount st + 1 |}
    else
      {| fastestURL := fastestURL st; fastestTime := fastestTime st;
         healthyCount := healthyCount st + 1 |}
  else st.

(** The loop; [inl u] is the early [return url] for a URL that has no
    health record yet. *)
Fixpoint selectLoop (hm : HealthMap) (urls : list string) (st : Fastest)
  : string + Fastest :=
  match urls with
  | [] => inr st
  | u :: rest =>
      match hm !! u with
      | None => inl u
      | Some health => selectLoop hm rest (consider u health st)
      end
  end.

Definition GetFastestHealthyURL (hm : HealthMap) (urls : list string) : string :=
  match selectLoop hm urls fastestInit with
  | inl u => u
  | inr st =>
      match urls with
      | first :: _ => if healthyCount st =? 0 then first else fastestURL st
      | [] => fastestURL st
      end
  end.

(** *** Probing *)

(** What the network answers to a GET: [None] when building or sending
    the request fails, otherwise the status code; and the time the
    attempt takes. The answer may depend on the requests made before. *)
Definition Server : Type := list string -> string -> option Z * Z.

(** The requests a probe has made, oldest first, and the clock. *)
Record Net : Type := {
  sent : list string;
  clock : Z
}.

Definition healthURL (baseURL path : string) : string :=
  if negb (String.eqb path "/") && negb (String.eqb path "") then
    TrimSuffix baseURL "/" +:+ (if HasPrefix path "/" then path else "/" +:+ path)
  else baseURL.

(** [tryHealthCheckURL]: healthy flag, time since [startTime], status
    code (0 when there is no response). *)
Definition tryHealthCheckURL (srv : Server) (baseURL path : string)
    (startTime : Z) (st : Net) : (bool * Z * Z) * Net :=
  let u := healthURL baseURL path in
  let '(answer, took) := srv (sent st) u in
  let st' := {| sent := sent st ++ [u]; clock := clock st + took |} in
  let responseTime := clock st' - startTime in
  match answer with
  | None => ((false, responseTime, 0), st')
  | Some code => (((200 <=? code) && (code <? 400), responseTime, code), st')
  end.

Definition commonPaths : list string :=
  ["/health"; "/ping"; "/status"; "/api/health"].

(** Strategy 3 of [performHealthCheck]: the loop over [commonPaths],
    [Some responseTime] being its early [return true]. *)
Fixpoint tryCommonPaths (srv : Server) (baseURL healthPath : string)
    (start : Z) (paths : list string) (st : Net) : option Z * Net :=
  match paths with
  | [] => (None, st)
  | path :: rest =>
      if negb (String.eqb path healthPath) then
        let '((healthy, responseTime, _), st') :=
          tryHealthCheckURL srv baseURL path start st in
        if healthy then (Some responseTime, st')
        else tryCommonPaths srv baseURL healthPath start rest st'
      else tryCommonPaths srv baseURL healthPath start rest st
  end.

(** Strategy 4 and the final verdict. *)
Definition strategy4 (srv : Server) (baseURL healthPath : string)
    (start : Z) (st : Net) : (bool * Z * string) * Net :=
  let '((_, responseTime, statusCode), st') :=
    tryHealthCheckURL srv baseURL healthPath start st in
  if statusCode =? 404 then ((true, responseTime, ""), st')
  else ((false, clock st' - start, "all health check strategies failed"), st').

Definition strategy3 (srv : Server) (baseURL healthPath : string)
    (start : Z) (st : Net) : (bool * Z * string) * Net :=
  match tryCommonPaths srv baseURL healthPath start commonPaths st with
  | (Some responseTime, st') => ((true, responseTime, ""), st')
  | (None, st') => strategy4 srv baseURL healthPath start st'
  end.

Definition strategy2 (srv : Server) (baseURL healthPath : string)
    (start : Z) (st : Net) : (bool * Z * string) * Net :=
  if negb (String.eqb healthPath "/") then
    let '((healthy, responseTime, _), st') :=
      tryHealthCheckURL srv baseURL "/" start st in
    if healthy then ((true, responseTime, ""), st')
    else strategy3 srv baseURL healthPath start st'
  else strategy3 srv baseURL healthPath start st.

Definition performHealthCheck (srv : Server) (baseURL healthPath : string)
    (st : Net) : (bool * Z * string) * Net :=
  let start := clock st in
  if negb (String.eqb healthPath "") && negb (String.eqb healthPath "/") then
    let '((healthy, responseTime, _), st') :=
      tryHealthCheckURL srv baseURL healthPath start st in
    if healthy then ((true, responseTime, ""), st')
    else strategy2 srv baseURL healthPath start st'
  else strategy2 srv baseURL healthPath start st.

Definition checkURLHealth (srv : Server) (hm : HealthMap)
    (baseURL healthPath : string) (st : Net) : HealthMap * Net :=
  let '((isHealthy, responseTime, _), st') :=
    performHealthCheck srv baseURL healthPath st in
  (updateHealthStatus hm baseURL isHealthy responseTime (clock st'), st').

(** ** Package [proxy]: the handler ([handler.go]) and the forwarder *)

Import config.

(** The request as the handler reads it: [r.Method] and [r.URL]. *)
Record Request : Type := {
  Method : string;
  RequestURL : url.URL
}.

Definition matchPath (requestPath targetPath : string) : bool :=
  if HasSuffix targetPath "*" then
    let prefix := TrimSuffix targetPath "*" in
    HasPrefix requestPath prefix
  else String.eqb requestPath targetPath.

Section Routes.

(** The upper case of a string that is not ASCII, as [strings.ToUpper]
    has it from the Unicode tables. *)
Variable upperUnicode : string -> string.

(** The loop of [matchMethod]:
    [strings.ToUpper(method) == strings.ToUpper(allowedMethod)]. *)
Fixpoint anyMethod (method : string) (allowedMethods : list string) : bool :=
  match allowedMethods with
  | [] => false
  | allowedMethod :: rest =>
      if String.eqb (ToUpper upperUnicode method)
           (ToUpper upperUnicode allowedMethod)
      then true
      else anyMethod method rest
  end.

Definition matchMethod (method : string) (allowedMethods : list string) : bool :=
  match allowedMethods with
  | [] => true
  | _ => anyMethod method allowedMethods
  end.

Fixpoint findTarget (targets : list ProxyTarget) (path method : string)
  : option ProxyTarget :=
  match targets with
  | [] => None
  | target :: rest =>
      if matchPath path (Path target) && matchMethod method (Methods target)
      then Some target
      else findTarget rest path method
  end.

End Routes.

Definition retryableErrors : list string :=
  ["unexpected EOF"; "connection reset by peer"; "no such host"; "timeout";
   "network is unreachable"; "connection refused"; "temporary failure"].

Fixpoint anyContained (lowered : string) (phrases : list string) : bool :=
  match phrases with
  | [] => false
  | retryableErr :: rest =>
      if Contains lowered retryableErr then true else anyContained lowered rest
  end.

(** [isRetryableError], on [err.Error()]. *)
Definition isRetryableError (errStr : string) : bool :=
  anyContained (ToLower errStr) retryableErrors.

Definition selectFastestURL (hm : HealthMap) (target : ProxyTarget) : string :=
  match TargetURLs target with
  | [] => TargetURL target
  | [only] => only
  | urls => GetFastestHealthyURL hm urls
  end.

Section Forwarding.

(** The standard library: the upper case of [strings.ToUpper] beyond
    ASCII, [url.Parse] and the [String] method of [url.URL]. *)
Variable upperUnicode : string -> string.
Variable url_Parse : string -> result url.URL.
Variable URL_String : url.URL -> string.

(** What one call of [forwardRequest] meets once the target URL is built
    (reading the body, the outbound client, the upstream call, copying
    the response): [None] for success, otherwise the error it returns.
    It may depend on the attempts made before. *)
Variable upstream : list string -> string -> option string.

(** The [finalURL] of [buildTargetURL]. *)
Definition finalURL (requestURL : url.URL) (target : ProxyTarget)
    (targetURL : url.URL) : url.URL :=
  let path :=
    if HasSuffix (Path target) "*" then
      let targetBasePath := TrimSuffix (url.Path targetURL) "/" in
      if String.eqb targetBasePath "" then url.Path requestURL
      else targetBasePath +:+ url.Path requestURL
    else url.Path targetURL in
  {| url.Scheme := url.Scheme targetURL; url.Host := url.Host targetURL;
     url.Path := path; url.RawQuery := url.RawQuery requestURL |}.

Definition buildTargetURL (requestURL : url.URL) (target : ProxyTarget)
  : result string :=
  match url_Parse (TargetURL target) with
  | Err e => Err e
  | Ok targetURL => Ok (URL_String (finalURL requestURL target targetURL))
  end.

(** [forwardRequest]: the URL is derived from the request and the target
    on every call; [attempts] lists the URLs derived so far. *)
Definition forwardRequest (r : Request) (target : ProxyTarget)
    (attempts : list string) : option string * list string :=
  match buildTargetURL (RequestURL r) target with
  | Err e => (Some ("build target URL error: " +:+ e), attempts)
  | Ok targetURL => (upstream attempts targetURL, attempts ++ [targetURL])
  end.

(** The errors of [forwardRequestWithRetry]. *)
Inductive ForwardError : Type :=
| BuildFailed (msg : string)
| RequestFailed (lastErr : option string).

(** The loop of [forwardRequestWithRetry], with the iterations left:
    [inl tt] is [return nil], [inr lastErr] leaving the loop. *)
Fixpoint retryLoop (left : nat) (r : Request) (target : ProxyTarget)
    (lastErr : option string) (attempts : list string)
  : (unit + option string) * list string :=
  match left with
  | O => (inr lastErr, attempts)
  | S left' =>
      match forwardRequest r target attempts with
      | (None, attempts') => (inl tt, attempts')
      | (Some err, attempts') =>
          if negb (isRetryableError err) then (inr (Some err), attempts')
          else retryLoop left' r target (Some err) attempts'
      end
  end.

(** [for attempt := 0; attempt <= maxRetries; attempt++] runs
    [maxRetries + 1] times (never, if [maxRetries] is negative), for
    [maxRetries] below the largest [int]. *)
Definition forwardRequestWithRetry (cfg : Config) (r : Request)
    (target : ProxyTarget) (attempts : list string)
  : option ForwardError * list string :=
  match buildTargetURL (RequestURL r) target with
  | Err e => (Some (BuildFailed e), attempts)
  | Ok _ =>
      match retryLoop (Z.to_nat (MaxRetries cfg + 1)) r target None attempts with
      | (inl _, attempts') => (None, attempts')
      | (inr lastErr, attempts') => (Some (RequestFailed lastErr), attempts')
      end
  end.

(** What [ServeHTTP] does to the client: [http.Error(w, msg, code)], or
    the upstream response relayed by [forwardRequest]. *)
Inductive Response : Type :=
| HttpError (msg : string) (code : Z)
| Relayed.

Record Served : Type := {
  response : Response;
  (** the argument of [SetTargetURL], when it is called *)
  loggedTarget : option string;
  (** the URL of each forwarding attempt, in order *)
  attempted : list string
}.

Definition ServeHTTP (cfg : Config) (hm : HealthMap) (r : Request) : Served :=
  match findTarget upperUnicode (Targets cfg) (url.Path (RequestURL r))
          (Method r) with
  | None =>
      {| response := HttpError "Not Found" 404;
         loggedTarget := None; attempted := [] |}
  | Some target =>
      let fastest := selectFastestURL hm target in
      if String.eqb fastest "" then
        {| response := HttpError "Service Unavailable" 503;
           loggedTarget := None; attempted := [] |}
      else
        let selectedTarget := withTargetURL target fastest in
        match buildTargetURL (RequestURL r) selectedTarget with
        | Err _ =>
            {| response := HttpError "Bad Gateway" 502;
               loggedTarget := None; attempted := [] |}
        | Ok targetURL =>
            match forwardRequestWithRetry cfg r selectedTarget [] with
            | (None, attempts) =>
                {| response := Relayed;
                   loggedTarget := Some targetURL; attempted := attempts |}
            | (Some _, attempts) =>
                {| response := HttpError "Bad Gateway" 502;
                   loggedTarget := Some targetURL; attempted := attempts |}
            end
        end
  end.

End Forwarding.

End proxy.

(** ** Package [types] and the hub of package [websocket] *)

Module types.

Record Statistics : Type := {
  TotalRequests : Z;
  SuccessRequests : Z;
  ErrorRequests : Z;
  StartTime : Z;
  LastRequestTime : Z;
  StatusCodeCounts : gmap Z Z;
  MethodCounts : gmap string Z
}.

(** The fields of [LogMessage] the hub reads or writes; the others are
    carried along unchanged. *)
Record LogMessage : Type := {
  Timestamp : string;
  Method : string;
  Path : string;
  StatusCode : Z;
  Stats : option Statistics
}.

End types.

Module websocket.
Import types.

(** The hub's statistics, in-memory history and broadcast channel (the
    clients and the journal on disk are left out). *)
Record Hub : Type := {
  stats : Statistics;
  history : list LogMessage;
  maxHistory : nat;
  broadcast : list LogMessage;
  broadcastSize : nat
}.

Definition NewHub (size : nat) (now : Z) : Hub :=
  {| stats := {| TotalRequests := 0; SuccessRequests := 0; ErrorRequests := 0;
                 StartTime := now; LastRequestTime := 0;
                 StatusCodeCounts := ∅; MethodCounts := ∅ |};
     history := []; maxHistory := 20; broadcast := []; broadcastSize := size |}.

(** [m[k]++] on a Go map: a missing key reads as zero. *)
Definition increment `{Countable K} (k : K) (m : gmap K Z) : gmap K Z :=
  <[k := Int64.wrap (default 0 (m !! k) + 1)]> m.

(** [updateStats], the critical section under [statsMu]. *)
Definition updateStats (s : Statistics) (message : LogMessage) (now : Z)
  : Statistics :=
  let ok := (200 <=? StatusCode message) && (StatusCode message <? 400) in
  {| TotalRequests := Int64.wrap (TotalRequests s + 1);
     SuccessRequests :=
       if ok then Int64.wrap (SuccessRequests s + 1) else SuccessRequests s;
     ErrorRequests :=
       if ok then ErrorRequests s else Int64.wrap (ErrorRequests s + 1);
     StartTime := StartTime s;
     LastRequestTime := now;
     StatusCodeCounts := increment (StatusCode message) (StatusCodeCounts s);
     MethodCounts := increment (Method message) (MethodCounts s) |}.

(** [GetStats]: a copy, field by field and entry by entry. *)
Definition GetStats (s : Statistics) : Statistics :=
  {| TotalRequests := TotalRequests s;
     SuccessRequests := SuccessRequests s;
     ErrorRequests := ErrorRequests s;
     StartTime := StartTime s;
     LastRequestTime := LastRequestTime s;
     StatusCodeCounts :=
       map_fold (fun k v acc => <[k := v]> acc) ∅ (StatusCodeCounts s);
     MethodCounts :=
       map_fold (fun k v acc => <[k := v]> acc) ∅ (MethodCounts s) |}.

Definition withStats (message : LogMessage) (s : Statistics) : LogMessage :=
  {| Timestamp := Timestamp message; Method := Method message;
     Path := Path message; StatusCode := StatusCode message;
     Stats := Some s |}.

(** [addToHistory]: append, then drop the oldest beyond [maxHistory]. *)
Definition addToHistory (h : list LogMessage) (maxHistory : nat)
    (message : LogMessage) : list LogMessage :=
  let h' := h ++ [message] in
  if (maxHistory <? length h')%nat then tail h' else h'.

(** The non-blocking send: dropped when the channel is full. *)
Definition trySend (queue : list LogMessage) (size : nat)
    (message : LogMessage) : list LogMessage :=
  if (length queue <? size)%nat then queue ++ [message] else queue.

(** [Broadcast]: count the message, attach the statistics, keep it in
    the history, offer it to the channel. Returns the hub and the message
    as sent. *)
Definition Broadcast (h : Hub) (message : LogMessage) (now : Z)
  : Hub * LogMessage :=
  let s := updateStats (stats h) message now in
  let message' := withStats message (GetStats s) in
  ({| stats := s;
      history := addToHistory (history h) (maxHistory h) message';
      maxHistory := maxHistory h;
      broadcast := trySend (broadcast h) (broadcastSize h) message';
      broadcastSize := broadcastSize h |},
   message').

(** A run of broadcasts, one after the other. *)
Definition broadcasts (h : Hub) (messages : list (LogMessage * Z)) : Hub :=
  fold_left (fun h m => fst (Broadcast h (fst m) (snd m))) messages h.

(** Calls of [updateStats], one after the other: whatever goroutines
    make them, [statsMu] puts them in an order. *)
Definition updates (s : Statistics) (messages : list (LogMessage * Z))
  : Statistics :=
  fold_left (fun s m => updateStats s (fst m) (snd m)) messages s.

(** The first two statements of [Broadcast] on statistics that other
    goroutines update too. [updateStats] and [GetStats] are two critical
    sections of [statsMu], and [between] lists the messages that other
    calls of [Broadcast] count after this call has counted its own and
    before it reads the statistics. Returns the statistics as read and
    the message with the copy attached. *)
Definition BroadcastAmong (s : Statistics) (message : LogMessage) (now : Z)
    (between : list (LogMessage * Z)) : Statistics * LogMessage :=
  let counted := updateStats s message now in
  let read := updates counted between in
  (read, withStats message (GetStats read)).

End websocket.

(** ** The specification's wording

    Definitions that follow the words of the specification, to be
    compared with the code above. *)

Module Spec.
Import GoStrings.

(** Two characters that are the same letter up to case. *)
Definition sameLetter (x y : ascii) : bool :=
  Ascii.eqb x y
  || (is_upper x && Ascii.eqb (lower_ascii x) y)
  || (is_lower x && Ascii.eqb (upper_ascii x) y).

(** Equality of strings up to the case of their letters. *)
Fixpoint eqFold (a b : string) : bool :=
  match a, b with
  | EmptyString, EmptyString => true
  | String x a', String y b' => sameLetter x y && eqFold a' b'
  | _, _ => false
  end.

(** "case-insensitive substring match": some substring of [s] equals
    [phrase] up to case. *)
Fixpoint containsFold (s phrase : string) : bool :=
  eqFold (String.substring 0 (String.length phrase) s) phrase
  || match s with
     | EmptyString => false
     | String _ s' => containsFold s' phrase
     end.

(** The seven phrases of section 4.1. *)
Definition retryablePhrases : list string :=
  ["unexpected EOF"; "connection reset by peer"; "no such host"; "timeout";
   "network is unreachable"; "connection refused"; "temporary failure"].

(** "retryable iff its error description contains any of" the phrases. *)
Definition retryable (message : string) : bool :=
  existsb (containsFold message) retryablePhrases.

(** "A match-path ending in [*] matches any request path with that
    prefix; otherwise equality." *)
Definition pathMatches (matchPath requestPath : string) : Prop :=
  (exists prefix, matchPath = prefix +:+ "*"
                  /\ exists rest, requestPath = prefix +:+ rest)
  \/ ((forall prefix, matchPath <> prefix +:+ "*") /\ requestPath = matchPath).

(** "case-insensitive": equal up to the case of the letters. Between
    ASCII strings that is [eqFold], letter by letter; a string with
    letters beyond ASCII is compared in upper case, which Unicode
    defines and [upperUnicode] stands for. *)
Definition equalIgnoringCase (upperUnicode : string -> string) (a b : string)
  : Prop :=
  if isASCII a && isASCII b then eqFold a b = true
  else ToUpper upperUnicode a = ToUpper upperUnicode b.

(** "An empty method list matches any method; otherwise
    case-insensitive membership." *)
Definition methodMatches (upperUnicode : string -> string) (method : string)
    (allowed : list string) : Prop :=
  allowed = []
  \/ exists a, In a allowed /\ equalIgnoringCase upperUnicode method a.

Definition routeMatches (upperUnicode : string -> string)
    (path method : string) (t : config.ProxyTarget) : Prop :=
  pathMatches (config.Path t) path
  /\ methodMatches upperUnicode method (config.Methods t).

(** "rolling average if at least one successful probe, else last
    response time" *)
Definition preferredMetric (h : proxy.URLHealth) : Z :=
  if 1 <=? proxy.SuccessChecks h then proxy.AverageTime h
  else proxy.ResponseTime h.

(** The healthy URLs of a list with their preferred metric, in order. *)
Fixpoint healthyWithMetric (hm : gmap string proxy.URLHealth)
    (urls : list string) : list (string * Z) :=
  match urls with
  | [] => []
  | u :: rest =>
      match hm !! u with
      | Some h =>
          if proxy.IsHealthy h
          then (u, preferredMetric h) :: healthyWithMetric hm rest
          else healthyWithMetric hm rest
      | None => healthyWithMetric hm rest
      end
  end.

(** The candidates as the code's loop weighs them. *)
Fixpoint healthyWithTime (hm : gmap string proxy.URLHealth)
    (urls : list string) : list (string * Z) :=
  match urls with
  | [] => []
  | u :: rest =>
      match hm !! u with
      | Some h =>
          if proxy.IsHealthy h
          then (u, proxy.responseTimeToUse h) :: healthyWithTime hm rest
          else healthyWithTime hm rest
      | None => healthyWithTime hm rest
      end
  end.

(** The first candidate of least metric. *)
Fixpoint leastMetric (best : string * Z) (candidates : list (string * Z))
  : string * Z :=
  match candidates with
  | [] => best
  | c :: rest => leastMetric (if snd c <? snd best then c else best) rest
  end.

(** Section 4.2, "Selection": a URL without a record is returned;
    otherwise the healthy URL of least preferred metric; otherwise the
    first URL. *)
Definition selectFastestHealthy (hm : gmap string proxy.URLHealth)
    (urls : list string) : string :=
  match List.find (fun u => bool_decide (hm !! u = None)) urls with
  | Some u => u
  | None =>
      match healthyWithMetric hm urls with
      | c :: rest => fst (leastMetric c rest)
      | [] => match urls with first :: _ => first | [] => "" end
      end
  end.

(** The one case in which the code departs from that selection: every URL
    has a record, some URL is healthy, and the least preferred metric is
    an hour or more. *)
Definition leastIsAnHour (hm : gmap string proxy.URLHealth)
    (urls : list string) : bool :=
  match List.find (fun u => bool_decide (hm !! u = None)) urls with
  | Some _ => false
  | None =>
      match healthyWithMetric hm urls with
      | c :: rest => time.Hour <=? snd (leastMetric c rest)
      | [] => false
      end
  end.

(** The operations that change the health map, and a run of them from
    the empty map of [NewHealthChecker]. *)
Inductive HealthOp : Type :=
| Initialize (u : string) (now : Z)
| Update (u : string) (isHealthy : bool) (responseTime now : Z).

Definition applyOp (hm : gmap string proxy.URLHealth) (op : HealthOp)
  : gmap string proxy.URLHealth :=
  match op with
  | Initialize u now => proxy.initializeURLHealth hm u now
  | Update u isHealthy responseTime now =>
      proxy.updateHealthStatus hm u isHealthy responseTime now
  end.

Definition monitor (ops : list HealthOp) : gmap string proxy.URLHealth :=
  fold_left applyOp ops proxy.NewHealthChecker.

(** The response times of the successful probes of [u] in a run. *)
Fixpoint successTimes (u : string) (ops : list HealthOp) : list Z :=
  match ops with
  | [] => []
  | Update u' true responseTime _ :: rest =>
      if String.eqb u' u && (0 <? responseTime)
      then responseTime :: successTimes u rest
      else successTimes u rest
  | _ :: rest => successTimes u rest
  end.

Definition responseTimeOf (op : HealthOp) : Z :=
  match op with
  | Initialize _ _ => 0
  | Update _ _ responseTime _ => responseTime
  end.

Definition sum (ts : list Z) : Z := fold_right Z.add 0 ts.

(** The arithmetic mean, rounded down. *)
Definition mean (ts : list Z) : Z := sum ts / Z.of_nat (length ts).

(** *** Runs without overflow *)

(** The number is one an [int64] holds. *)
Definition fits (z : Z) : bool :=
  (Int64.min_int64 <=? z) && (z <=? Int64.max_int64).

(** [updateHealthStatus] computes without overflow on a record: each sum,
    difference and product it forms is a number an [int64] holds. These
    are [TotalChecks + 1]; [ErrorCount + 1] for a failed probe; and for a
    successful probe with a positive response time [SuccessChecks + 1]
    and, when that is not 1, the terms of the average,
    [AverageTime * (n - 1) + responseTime]. *)
Definition exactUpdate (health : proxy.URLHealth) (isHealthy : bool)
    (responseTime : Z) : bool :=
  fits (proxy.TotalChecks health + 1)
  && (isHealthy || fits (proxy.ErrorCount health + 1))
  && (negb ((0 <? responseTime) && isHealthy)
      || (let n := proxy.SuccessChecks health + 1 in
          fits n
          && ((n =? 1)
              || (fits (n - 1)
                  && fits (proxy.AverageTime health * (n - 1))
                  && fits (proxy.AverageTime health * (n - 1)
                           + responseTime))))).

Definition exactOp (hm : gmap string proxy.URLHealth) (op : HealthOp) : bool :=
  match op with
  | Initialize _ _ => true
  | Update u isHealthy responseTime _ =>
      exactUpdate (proxy.healthOrNew hm u) isHealthy responseTime
  end.

Fixpoint exactFrom (hm : gmap string proxy.URLHealth) (ops : list HealthOp)
  : bool :=
  match ops with
  | [] => true
  | op :: rest => exactOp hm op && exactFrom (applyOp hm op) rest
  end.

(** A run of the monitor in which the 64-bit counters and durations do
    not overflow. *)
Definition exactRun (ops : list HealthOp) : Prop :=
  exactFrom proxy.NewHealthChecker ops = true.

(** What holds of a record in such a run. *)
Definition healthInv (h : proxy.URLHealth) : Prop :=
  0 <= proxy.SuccessChecks h <= proxy.TotalChecks h
  /\ 0 <= proxy.AverageTime h <= proxy.MaxTime h
  /\ (proxy.SuccessChecks h = 0 -> proxy.AverageTime h = 0)
  /\ (1 <= proxy.SuccessChecks h -> 1 <= proxy.AverageTime h).

(** How the average of a record stands to the successful response times
    [ts] it was computed from. *)
Definition meanInv (ts : list Z) (h : proxy.URLHealth) : Prop :=
  let n := Z.of_nat (length ts) in
  proxy.SuccessChecks h = n
  /\ proxy.AverageTime h * n <= sum ts
  /\ 2 * (sum ts - proxy.AverageTime h * n) <= n * (n - 1).

(** *** Probing, section 4.2 *)

(** "a response with status in [200, 400)" *)
Definition isOK (answer : option Z) : bool :=
  match answer with
  | Some code => (200 <=? code) && (code <? 400)
  | None => false
  end.

(** "an HTTP response with status 404" *)
Definition is404 (answer : option Z) : bool :=
  match answer with
  | Some code => code =? 404
  | None => false
  end.

(** Steps 1 to 3 of the escalation: the configured path if non-empty and
    not [/], then [/], then the well-known paths not yet tried. *)
Definition escalation (healthPath : string) : list string :=
  (if negb (String.eqb healthPath "") && negb (String.eqb healthPath "/")
   then [healthPath] else [])
  ++ ["/"]
  ++ List.filter (fun path => negb (String.eqb path healthPath))
       proxy.commonPaths.

(** The answers of the server to requests made one after the other. *)
Fixpoint answers (srv : proxy.Server) (sent urls : list string)
  : list (option Z) :=
  match urls with
  | [] => []
  | u :: rest => fst (srv sent u) :: answers srv (sent ++ [u]) rest
  end.

(** A probe: the URLs in order up to the first answer in [200, 400);
    failing that, one last URL, on which 404 counts as healthy. Returns
    the verdict and the requests made. *)
Fixpoint probe (srv : proxy.Server) (sent urls : list string)
    (final : string) : bool * list string :=
  match urls with
  | [] => (is404 (fst (srv sent final)), sent ++ [final])
  | u :: rest =>
      if isOK (fst (srv sent u)) then (true, sent ++ [u])
      else probe srv (sent ++ [u]) rest final
  end.

(** The verdict as the claim words it, on the answers to the attempts
    made: some answer in [200, 400), or every answer a 404. *)
Definition claimedVerdict (rs : list (option Z)) : bool :=
  existsb isOK rs || forallb is404 rs.

(** *** Statistics *)

(** A counter of a Go map: a missing key counts as zero. *)
Definition count `{Countable K} (m : gmap K Z) (k : K) : Z :=
  default 0 (m !! k).

(** Every counter of [s1] is at most the same counter of [s2]. *)
Definition statsLe (s1 s2 : types.Statistics) : Prop :=
  types.TotalRequests s1 <= types.TotalRequests s2
  /\ types.SuccessRequests s1 <= types.SuccessRequests s2
  /\ types.ErrorRequests s1 <= types.ErrorRequests s2
  /\ (forall code, count (types.StatusCodeCounts s1) code
                   <= count (types.StatusCodeCounts s2) code)
  /\ (forall method, count (types.MethodCounts s1) method
                     <= count (types.MethodCounts s2) method).

(** What holds of the statistics after [n] broadcasts. *)
Definition statsInv (n : Z) (s : types.Statistics) : Prop :=
  types.TotalRequests s = n
  /\ 0 <= types.SuccessRequests s <= n
  /\ 0 <= types.ErrorRequests s <= n
  /\ (forall code, 0 <= count (types.StatusCodeCounts s) code <= n)
  /\ (forall method, 0 <= count (types.MethodCounts s) method <= n).

(** *** Configuration, section 6 *)

(** "each comma-separated entry": the pieces of [target_url] between
    commas, trimmed of white space, the empty ones dropped. *)
Definition entries (target_url : string) : list string :=
  List.filter (fun e => negb (String.eqb e ""))
    (map TrimSpace (Split target_url ",")).

End Spec.

(** ** Fixtures for the examples

    The standard library's results on the URLs the examples use. *)

Module fixtures.

(** The examples hold ASCII strings only, on which [strings.ToUpper] does
    not come to its Unicode tables. *)
Definition upperUnicode (s : string) : string := s.

Definition url_Parse (s : string) : result url.URL :=
  if String.eqb s "http://u/v" then
    Ok {| url.Scheme := "http"; url.Host := "u"; url.Path := "/v";
          url.RawQuery := "" |}
  else if String.eqb s "http://u/" then
    Ok {| url.Scheme := "http"; url.Host := "u"; url.Path := "/";
          url.RawQuery := "" |}
  else if String.eqb s "http://a" then
    Ok {| url.Scheme := "http"; url.Host := "a"; url.Path := "";
          url.RawQuery := "" |}
  else if String.eqb s "http://b" then
    Ok {| url.Scheme := "http"; url.Host := "b"; url.Path := "";
          url.RawQuery := "" |}
  else Err "parse error".

Definition URL_String (u : url.URL) : string :=
  url.Scheme u +:+ "://" +:+ url.Host u +:+ url.Path u
  +:+ (if String.eqb (url.RawQuery u) "" then "" else "?" +:+ url.RawQuery u).

(** An upstream that answers every call. *)
Definition upstream_ok (attempts : list string) (u : string) : option string :=
  None.

(** An upstream whose connection is reset twice before it answers. *)
Definition upstream_flaky (attempts : list string) (u : string) : option string :=
  if (length attempts <? 2)%nat
  then Some "HTTP client error: read: connection reset by peer"
  else None.

Definition route (path target_url : string) (urls : list string)
  : config.ProxyTarget :=
  {| config.Path := path; config.TargetURL := target_url;
     config.TargetURLs := urls; config.HealthCheckPath := "/";
     config.HealthCheckDelay := 30; config.Methods := [];
     config.Headers := ∅; config.HTTPProxy := "" |}.

(** The same route for the given methods only. *)
Definition allowing (methods : list string) (t : config.ProxyTarget)
  : config.ProxyTarget :=
  {| config.Path := config.Path t; config.TargetURL := config.TargetURL t;
     config.TargetURLs := config.TargetURLs t;
     config.HealthCheckPath := config.HealthCheckPath t;
     config.HealthCheckDelay := config.HealthCheckDelay t;
     config.Methods := methods; config.Headers := config.Headers t;
     config.HTTPProxy := config.HTTPProxy t |}.

(** The string of the bytes of the given codes. *)
Definition bytes (codes : list Z) : string :=
  string_of_list_ascii (map (fun c => ascii_of_nat (Z.to_nat c)) codes).

(** [post] written with the long s, U+017F, whose bytes are [C5 BF] and
    whose capital is [S]. *)
Definition post_with_long_s : string := "po" +:+ bytes [197; 191] +:+ "t".

(** The no-break space U+00A0, the em space U+2003 and the ideographic
    space U+3000, in UTF-8. *)
Definition no_break_space : string := bytes [194; 160].
Definition em_space : string := bytes [226; 128; 131].
Definition ideographic_space : string := bytes [227; 128; 128].

Definition GET (path query : string) : proxy.Request :=
  {| proxy.Method := "GET";
     proxy.RequestURL := {| url.Scheme := ""; url.Host := ""; url.Path := path;
                            url.RawQuery := query |} |}.

(** A server that answers 404 on one URL and 500 on every other, and one
    that answers 200 on one URL and 404 on every other; each answer takes
    a millisecond. *)
Definition server_404_only_on (u : string) : proxy.Server :=
  fun _ requested =>
    (if String.eqb requested u then Some 404 else Some 500, 1000000).

Definition server_200_only_on (u : string) : proxy.Server :=
  fun _ requested =>
    (if String.eqb requested u then Some 200 else Some 404, 1000000).

Definition server_404 : proxy.Server := fun _ _ => (Some 404, 1000000).

Definition idle : proxy.Net := {| proxy.sent := []; proxy.clock := 0 |}.

Definition record (method path : string) (status : Z) : types.LogMessage :=
  {| types.Timestamp := ""; types.Method := method; types.Path := path;
     types.StatusCode := status; types.Stats := None |}.

End fixtures.

(** ** More of package [proxy]: start-up of the health checker *)

Module health_check.

(** The inner loop of [StartHealthChecks] on the health map: every URL of
    a target gets its record (the probers it launches run on their own);
    [now u] is the time at which the record of [u] is made. *)
Definition initializeEach (now : string -> Z) (hm : gmap string proxy.URLHealth)
    (urls : list string) : gmap string proxy.URLHealth :=
  fold_left (fun hm u => proxy.initializeURLHealth hm u (now u)) urls hm.

Definition StartHealthChecks (now : string -> Z)
    (hm : gmap string proxy.URLHealth) (targets : list config.ProxyTarget)
  : gmap string proxy.URLHealth :=
  fold_left (fun hm target => initializeEach now hm (config.TargetURLs target))
    targets hm.

(** What the health checker does to its map, one step after the other:
    [initializeURLHealth] at start-up, and the [checkURLHealth] of the
    probers ([runPeriodicHealthCheck] calls it when it starts and on
    every tick), whose updates the mutex of the map puts in an order. *)
Inductive Step : Type :=
| Initialize (u : string) (now : Z)
| Check (baseURL healthPath : string).

Definition step (srv : proxy.Server) (state : proxy.HealthMap * proxy.Net)
    (s : Step) : proxy.HealthMap * proxy.Net :=
  match s with
  | Initialize u now => (proxy.initializeURLHealth (fst state) u now, snd state)
  | Check baseURL healthPath =>
      proxy.checkURLHealth srv (fst state) baseURL healthPath (snd state)
  end.

Definition run (srv : proxy.Server) (steps : list Step) (st : proxy.Net)
  : proxy.HealthMap * proxy.Net :=
  fold_left (step srv) steps (proxy.NewHealthChecker, st).

End health_check.

(** ** Runs of the code, for the statements below *)

Module Runs.

(** What attempt number [i] (from 0) of a request meets, all attempts
    going to [u]. *)
Definition outcome (upstream : list string -> string -> option string)
    (u : string) (i : nat) : option string :=
  upstream (repeat u i) u.

(** Whether attempt [i] ends the retry loop: it succeeds, or fails with an
    error that is not retryable. *)
Definition stops (upstream : list string -> string -> option string)
    (u : string) (i : nat) : bool :=
  match outcome upstream u i with
  | None => true
  | Some err => negb (proxy.isRetryableError err)
  end.

(** The verdicts of the probes of [u] in a run, oldest first. *)
Fixpoint verdictsOf (u : string) (ops : list Spec.HealthOp) : list bool :=
  match ops with
  | [] => []
  | Spec.Update u' isHealthy _ _ :: rest =>
      if String.eqb u' u then isHealthy :: verdictsOf u rest
      else verdictsOf u rest
  | _ :: rest => verdictsOf u rest
  end.

(** The number of failures at the head of a list of verdicts, and at the
    end of one. *)
Fixpoint leadingFailures (verdicts : list bool) : nat :=
  match verdicts with
  | false :: rest => S (leadingFailures rest)
  | _ => 0
  end.

Definition trailingFailures (verdicts : list bool) : nat :=
  leadingFailures (rev verdicts).

(** The messages as [Broadcast] hands them on, in a run of broadcasts. *)
Fixpoint outputs (h : websocket.Hub) (messages : list (types.LogMessage * Z))
  : list types.LogMessage :=
  match messages with
  | [] => []
  | m :: rest =>
      let '(h', out) := websocket.Broadcast h (fst m) (snd m) in
      out :: outputs h' rest
  end.

(** The last [n] elements of a list. *)
Definition lastn {A : Type} (n : nat) (l : list A) : list A :=
  drop (length l - n) l.

End Runs.

(** ** Package [storage]: the journal of messages ([history.go]) *)

From stdpp Require Import sorting.
Local Open Scope Z_scope.

Module storage.
Import GoStrings.

Record HistoryStorage : Type := {
  filePath : string;
  maxFiles : Z;
  maxLines : Z
}.

(** The data directory: the lines of each file, by file name. Of the
    errors of the file system only "does not exist" is modelled. *)
Abbreviation Dir := (gmap string (list string)).

Definition withFilePath (h : HistoryStorage) (path : string) : HistoryStorage :=
  {| filePath := path; maxFiles := maxFiles h; maxLines := maxLines h |}.

(** [filepath.Glob(filepath.Join(dataDir, "history_*.jsonl"))]: the
    names of that form, sorted. *)
Definition isHistoryFile (name : string) : bool :=
  HasPrefix name "history_" && HasSuffix name ".jsonl"
  && (14 <=? String.length name)%nat.

Definition Glob (dir : Dir) : list string :=
  merge_sort String.le
    (List.filter isHistoryFile (map fst (map_to_list dir))).

Inductive FileError : Type :=
| NotExist
| ScanFailed.

Section Journal.

(** The file names made from the clock:
    [history_<2006-01-02>.jsonl] and [history_<2006-01-02_15-04-05>.jsonl]. *)
Variable dayFile : Z -> string.
Variable secondFile : Z -> string.

(** A line the scanner cannot hold in its buffer of 1 MiB. *)
Variable tooLong : string -> bool.

(** [json.Marshal] and [json.Unmarshal] on a message. *)
Variable encode : types.LogMessage -> option string.
Variable decode : string -> option types.LogMessage.

Definition NewHistoryStorage (maxFiles maxLines now : Z) : HistoryStorage :=
  {| filePath := dayFile now; maxFiles := maxFiles; maxLines := maxLines |}.

(** What [scanner.Scan] yields on the lines of a file, and whether
    [scanner.Err] reports a failure. *)
Fixpoint scan (lines : list string) : list string * bool :=
  match lines with
  | [] => ([], false)
  | line :: rest =>
      if tooLong line then ([], true)
      else let '(texts, failed) := scan rest in (line :: texts, failed)
  end.

(** [countLines]. *)
Definition countLines (dir : Dir) (path : string) : Z * option FileError :=
  match dir !! path with
  | None => (0, Some NotExist)
  | Some lines =>
      let '(texts, failed) := scan lines in
      (Z.of_nat (length texts), if failed then Some ScanFailed else None)
  end.

(** [cleanupOldFiles]: the first [len(files) - maxFiles] names are
    removed (a negative [maxFiles] would index past the list). *)
Definition cleanupOldFiles (h : HistoryStorage) (dir : Dir) : Dir :=
  let files := Glob dir in
  if maxFiles h <? Z.of_nat (length files) then
    fold_left (fun d name => delete name d)
      (take (Z.to_nat (Z.of_nat (length files) - maxFiles h)) files) dir
  else dir.

(** [rotateFileIfNeeded]: [inr] is the error returned. *)
Definition rotateFileIfNeeded (h : HistoryStorage) (dir : Dir) (now : Z)
  : (HistoryStorage * Dir) + FileError :=
  match countLines dir (filePath h) with
  | (_, Some ScanFailed) => inr ScanFailed
  | (_, Some NotExist) => inl (h, dir)
  | (lineCount, None) =>
      if lineCount <? maxLines h then inl (h, dir)
      else
        let h' := withFilePath h (secondFile now) in
        inl (h', cleanupOldFiles h' dir)
  end.

(** [os.OpenFile(path, O_CREATE|O_WRONLY|O_APPEND)] and a write of one
    line. *)
Definition openForAppend (dir : Dir) (path : string) : Dir :=
  match dir !! path with
  | Some _ => dir
  | None => <[path := []]> dir
  end.

Definition appendLine (dir : Dir) (path line : string) : Dir :=
  <[path := default [] (dir !! path) ++ [line]]> dir.

(** [AppendMessage]: the storage and the directory afterwards, and the
    error returned if any. *)
Definition AppendMessage (h : HistoryStorage) (dir : Dir)
    (msg : types.LogMessage) (now : Z)
  : HistoryStorage * Dir * option string :=
  match rotateFileIfNeeded h dir now with
  | inr _ => (h, dir, Some "failed to rotate file")
  | inl (h', dir') =>
      let opened := openForAppend dir' (filePath h') in
      match encode msg with
      | None => (h', opened, Some "failed to marshal message")
      | Some data => (h', appendLine opened (filePath h') data, None)
      end
  end.

(** *** Reading *)

Definition ringSize : nat := 1000.

(** The scanning loop of [readMessagesFromFile]:
    [tempLines[lineCount%1000] = scanner.Text(); lineCount++]. *)
Definition ringStep (st : list string * nat) (text : string)
  : list string * nat :=
  (<[(snd st mod ringSize)%nat := text]> (fst st), S (snd st)).

Definition ringScan (texts : list string) : list string * nat :=
  fold_left ringStep texts (replicate ringSize "", 0%nat).

(** The [lines] it keeps: all of them, or the buffer read from
    [lineCount % 1000] round. *)
Definition ringLines (texts : list string) : list string :=
  let '(tempLines, lineCount) := ringScan texts in
  if (lineCount <=? ringSize)%nat then take lineCount tempLines
  else
    let start := (lineCount mod ringSize)%nat in
    map (fun i => default "" (tempLines !! ((start + i) mod ringSize)%nat))
      (seq 0 ringSize).

(** The last loop: from the last line back to [start], decoding, the
    lines that do not decode being skipped. *)
Definition newestFirst (lines : list string) (limit : Z)
  : list types.LogMessage :=
  let len := Z.of_nat (length lines) in
  let start := if limit <? len then len - limit else 0 in
  omap decode (rev (drop (Z.to_nat start) lines)).

(** [readMessagesFromFile]. *)
Definition readMessagesFromFile (dir : Dir) (path : string) (limit : Z)
  : list types.LogMessage + FileError :=
  match dir !! path with
  | None => inr NotExist
  | Some content =>
      let '(texts, failed) := scan content in
      let lines := ringLines texts in
      if failed then inr ScanFailed else inl (newestFirst lines limit)
  end.

(** The loop of [readFromHistoryFiles], over the names from the last to
    the first. *)
Fixpoint readOlder (h : HistoryStorage) (dir : Dir) (newestNames : list string)
    (limit : Z) (messages : list types.LogMessage) : list types.LogMessage :=
  match newestNames with
  | [] => messages
  | name :: older =>
      if Z.of_nat (length messages) <? limit then
        if String.eqb name (filePath h) then
          readOlder h dir older limit messages
        else
          let remaining := limit - Z.of_nat (length messages) in
          match readMessagesFromFile dir name remaining with
          | inr _ => readOlder h dir older limit messages
          | inl fileMessages =>
              readOlder h dir older limit (messages ++ fileMessages)
          end
      else messages
  end.

Definition readFromHistoryFiles (h : HistoryStorage) (dir : Dir) (limit : Z)
  : list types.LogMessage :=
  readOlder h dir (rev (Glob dir)) limit [].

(** What [GetRecentMessages] comes to: the messages, an error, or the
    panic of [messages[:limit]] for a negative [limit]. *)
Inductive Recent : Type :=
| Messages (messages : list types.LogMessage)
| ReadError (msg : string)
| Panic.

Definition GetRecentMessages (h : HistoryStorage) (dir : Dir) (limit : Z)
  : Recent :=
  match readMessagesFromFile dir (filePath h) limit with
  | inr ScanFailed => ReadError "failed to read current file"
  | current =>
      let messages := match current with inl ms => ms | inr _ => [] end in
      let messages :=
        if Z.of_nat (length messages) <? limit then
          messages
          ++ readFromHistoryFiles h dir (limit - Z.of_nat (length messages))
        else messages in
      if limit <? Z.of_nat (length messages) then
        if limit <? 0 then Panic else Messages (take (Z.to_nat limit) messages)
      else Messages messages
  end.

(** [ClearHistory]: every journal file is removed and the current file
    is the one of the day. *)
Definition ClearHistory (h : HistoryStorage) (dir : Dir) (now : Z)
  : HistoryStorage * Dir :=
  (withFilePath h (dayFile now),
   fold_left (fun d name => delete name d) (Glob dir) dir).

End Journal.

End storage.

(** ** A small journal, for the examples *)

Module samples.

(** A clock in seconds from the start of 2025-01-01. *)
Definition dayFile (now : Z) : string :=
  if now <? 86400 then "history_2025-01-01.jsonl"
  else "history_2025-01-02.jsonl".

Definition secondFile (now : Z) : string :=
  if now <? 1 then "history_2025-01-01_00-00-00.jsonl"
  else "history_2025-01-01_00-00-01.jsonl".

(** A scanner with a buffer of 16 bytes. *)
Definition tooLong (line : string) : bool := (16 <? String.length line)%nat.

(** A line holds the path of the message. *)
Definition encode (m : types.LogMessage) : option string :=
  Some (types.Path m).

Definition decode (line : string) : option types.LogMessage :=
  if GoStrings.HasPrefix line "/" then Some (fixtures.record "GET" line 200)
  else None.

Definition journal : storage.HistoryStorage :=
  storage.NewHistoryStorage dayFile 10 10000 0.

(** Numbers of one digit, and a body of the paths of the messages. *)
Definition Atoi (s : string) : option Z :=
  match s with
  | String c EmptyString =>
      let d := Z.of_N (Ascii.N_of_ascii c) - 48 in
      if (0 <=? d) && (d <=? 9) then Some d else None
  | _ => None
  end.

Definition encodeAll (history : list types.LogMessage) : option string :=
  Some (fold_right (fun m body => types.Path m +:+ ";" +:+ body) ""
          history).

End samples.

(** ** The hub with its journal ([simple_hub.go]) and the history
    handlers of the web server ([web/server.go]) *)

Module hub.
Import types.

(** The hub: what [websocket.Hub] above holds in memory, the
    [historyStorage] ([None] for the nil pointer) and the files of its
    data directory. *)
Record Journaled : Type := {
  memory : websocket.Hub;
  historyStorage : option storage.HistoryStorage;
  dataDir : gmap string (list string)
}.

Section Hub.

Variable dayFile : Z -> string.
Variable secondFile : Z -> string.
Variable tooLong : string -> bool.
Variable encode : LogMessage -> option string.
Variable decode : string -> option LogMessage.

(** [NewHub(broadcastSize, dataDir)]: at most 10 files of 10000 lines. *)
Definition NewHub (size : nat) (dir : gmap string (list string)) (now : Z)
  : Journaled :=
  {| memory := websocket.NewHub size now;
     historyStorage := Some (storage.NewHistoryStorage dayFile 10 10000 now);
     dataDir := dir |}.

(** [Broadcast] with the journal: [addToHistory] appends the copy of the
    message to the journal first, an error being logged and no more, then
    to the memory. [now] is the clock read by [updateStats], [nowFile]
    the one read by the rotation. *)
Definition Broadcast (s : Journaled) (message : LogMessage) (now nowFile : Z)
  : Journaled * LogMessage :=
  let '(memory', out) := websocket.Broadcast (memory s) message now in
  match historyStorage s with
  | None =>
      ({| memory := memory'; historyStorage := None; dataDir := dataDir s |},
       out)
  | Some st =>
      let '(st', dir', _) :=
        storage.AppendMessage secondFile tooLong encode st (dataDir s) out
          nowFile in
      ({| memory := memory'; historyStorage := Some st'; dataDir := dir' |},
       out)
  end.

Definition broadcasts (s : Journaled) (messages : list (LogMessage * Z * Z))
  : Journaled :=
  fold_left (fun s m => fst (Broadcast s (fst (fst m)) (snd (fst m)) (snd m)))
    messages s.

(** [GetHistory]: the memory, newest first, when there is no journal;
    the journal otherwise. *)
Definition GetHistory (s : Journaled) (limit : Z) : storage.Recent :=
  match historyStorage s with
  | None => storage.Messages (rev (websocket.history (memory s)))
  | Some st => storage.GetRecentMessages tooLong decode st (dataDir s) limit
  end.

Definition withHistory (h : websocket.Hub) (history : list LogMessage)
  : websocket.Hub :=
  {| websocket.stats := websocket.stats h;
     websocket.history := history;
     websocket.maxHistory := websocket.maxHistory h;
     websocket.broadcast := websocket.broadcast h;
     websocket.broadcastSize := websocket.broadcastSize h |}.

(** [ClearHistory]: the memory, then the journal. *)
Definition ClearHistory (s : Journaled) (now : Z) : Journaled :=
  let memory' := withHistory (memory s) [] in
  match historyStorage s with
  | None =>
      {| memory := memory'; historyStorage := None; dataDir := dataDir s |}
  | Some st =>
      let '(st', dir') := storage.ClearHistory dayFile st (dataDir s) now in
      {| memory := memory'; historyStorage := Some st'; dataDir := dir' |}
  end.

End Hub.

End hub.

Module web.
Import types.

(** What a handler does to the response: a status with a text
    ([http.Error]), a body of JSON, or a panic of the handler. *)
Inductive Reply : Type :=
| Status (code : Z) (text : string)
| Json (body : string)
| Panicked.

Section Handlers.

Variable dayFile : Z -> string.
Variable tooLong : string -> bool.
Variable decode : string -> option LogMessage.

(** [strconv.Atoi], and the JSON encoder on the list of messages. *)
Variable Atoi : string -> option Z.
Variable encodeAll : list LogMessage -> option string.

(** The limit [handleHistory] asks the hub for. *)
Definition historyLimit (limitStr : string) : Z :=
  let limit := 50 in
  if String.eqb limitStr "" then limit
  else
    match Atoi limitStr with
    | Some parsedLimit =>
        if 0 <? parsedLimit then
          if 100 <? parsedLimit then 100 else parsedLimit
        else limit
    | None => limit
    end.

Definition handleHistory (s : hub.Journaled) (method limitStr : string)
  : Reply :=
  if negb (String.eqb method "GET") then Status 405 "Method Not Allowed"
  else
    match hub.GetHistory tooLong decode s (historyLimit limitStr) with
    | storage.ReadError _ => Status 500 "Failed to get history"
    | storage.Panic => Panicked
    | storage.Messages history =>
        match encodeAll history with
        | Some body => Json body
        | None => Status 500 "Internal Server Error"
        end
    end.

(** [handleClearHistory]: the hub afterwards and the reply ([ClearHistory]
    of the model returns no error). *)
Definition handleClearHistory (s : hub.Journaled) (method : string) (now : Z)
  : hub.Journaled * Reply :=
  if negb (String.eqb method "POST") && negb (String.eqb method "DELETE") then
    (s, Status 405 "Method Not Allowed")
  else (hub.ClearHistory dayFile s now, Json "History cleared successfully").

End Handlers.

End web.

(** ** Frames of the WebSocket connection ([simple_hub.go]) *)

Module frame.

(** Bytes are numbers from 0 to 255; [byte], [uint16] and [uint64] are
    the conversions of the code. *)
Definition byte (x : Z) : Z := x mod 256.
Definition uint16 (x : Z) : Z := x mod 65536.
Definition uint64 (x : Z) : Z := x mod 18446744073709551616.

(** [binary.BigEndian.PutUint16] and [PutUint64]. *)
Definition PutUint16 (v : Z) : list Z := [byte (Z.shiftr v 8); byte v].

Definition PutUint64 (v : Z) : list Z :=
  [byte (Z.shiftr v 56); byte (Z.shiftr v 48); byte (Z.shiftr v 40);
   byte (Z.shiftr v 32); byte (Z.shiftr v 24); byte (Z.shiftr v 16);
   byte (Z.shiftr v 8); byte v].

Definition createTextFrame (payload : list Z) : list Z :=
  let payloadLen := Z.of_nat (length payload) in
  let frame := [129] in
  let frame :=
    if payloadLen <? 126 then frame ++ [byte payloadLen]
    else if payloadLen <? 65536 then
      (frame ++ [126]) ++ PutUint16 (uint16 payloadLen)
    else (frame ++ [127]) ++ PutUint64 (uint64 payloadLen) in
  frame ++ payload.

End frame.

(** ** What a frame is, after RFC 6455, section 5.2 *)

Module RFC6455.

Record Frame : Type := {
  fin : bool;
  rsv : Z;
  opcode : Z;
  masked : bool;
  payload : list Z
}.

Definition bigEndian (bytes : list Z) : Z :=
  fold_left (fun acc b => acc * 256 + b) bytes 0.

Fixpoint unmask (key : list Z) (i : nat) (bytes : list Z) : list Z :=
  match bytes with
  | [] => []
  | b :: rest => Z.lxor b (nth (i mod 4) key 0) :: unmask key (S i) rest
  end.

(** The first frame of a stream of bytes and the bytes after it: the
    flags and the opcode, the length in 7 bits, or in the 16 or 64 bits
    that follow (the shortest form being required, and the first bit of
    the 64 being 0), the masking key if the mask bit is set, and the
    payload. *)
Definition parse (bytes : list Z) : option (Frame * list Z) :=
  match bytes with
  | b0 :: b1 :: rest =>
      let len7 := Z.land b1 127 in
      let extended : nat :=
        if len7 =? 126 then 2%nat else if len7 =? 127 then 8%nat else 0%nat in
      if (length rest <? extended)%nat then None
      else
        let len :=
          if len7 <? 126 then len7 else bigEndian (take extended rest) in
        let shortest :=
          if len7 =? 126 then 126 <=? len
          else if len7 =? 127 then
            (65536 <=? len) && (len <? 9223372036854775808)
          else true in
        let rest := drop extended rest in
        let keyLen : nat := if Z.testbit b1 7 then 4%nat else 0%nat in
        if negb shortest then None
        else if (length rest <? keyLen)%nat then None
        else
          let key := take keyLen rest in
          let rest := drop keyLen rest in
          if Z.of_nat (length rest) <? len then None
          else
            let data := take (Z.to_nat len) rest in
            Some ({| fin := Z.testbit b0 7;
                     rsv := Z.land (Z.shiftr b0 4) 7;
                     opcode := Z.land b0 15;
                     masked := Z.testbit b1 7;
                     payload :=
                       if Z.testbit b1 7 then unmask key 0 data else data |},
                  drop (Z.to_nat len) rest)
  | _ => None
  end.

End RFC6455.

(** ** Relaying the body of a response ([streamResponse] and its two
    loops, in the forwarder) *)

Module streaming.
Import GoStrings.

(** The error of a read: the end of the body, or another error with its
    message. *)
Inductive ReadError : Type :=
| EOF
| Broken (msg : string).

(** One call of [body.Read(buffer)]: the bytes it gave and its error. A
    body that has given all its reads is at its end, [(0, io.EOF)]. *)
Record Read : Type := {
  data : list Z;
  err : option ReadError
}.

(** The response writer: the bytes written and the number of flushes. *)
Record Writer : Type := {
  written : list Z;
  flushes : nat
}.

Section Stream.

(** The error of [w.Write(chunk)], if it returns one; nothing is written
    then. *)
Variable writeFails : Writer -> list Z -> option string.

(** The fallback [io.Copy(w, resp.Body)] for a writer that cannot
    flush. *)
Variable ioCopy : list Read -> Writer -> Writer * option string.

(** The loop of [streamSSEResponse] and [streamBytesResponse], which
    differ in the size of the buffer and the texts of the errors. *)
Fixpoint streamLoop (writeError readError : string) (body : list Read)
    (w : Writer) : Writer * option string :=
  match body with
  | [] => (w, None)
  | r :: rest =>
      let afterWrite :=
        if (0 <? length (data r))%nat then
          match writeFails w (data r) with
          | Some msg => inr (writeError +:+ ": " +:+ msg)
          | None => inl {| written := written w ++ data r;
                           flushes := S (flushes w) |}
          end
        else inl w in
      match afterWrite with
      | inr e => (w, Some e)
      | inl w' =>
          match err r with
          | Some EOF => (w', None)
          | Some (Broken msg) => (w', Some (readError +:+ ": " +:+ msg))
          | None => streamLoop writeError readError rest w'
          end
      end
  end.

(** [body n] is what the body gives to reads with a buffer of [n]
    bytes. *)
Definition streamSSEResponse (body : Z -> list Read) (w : Writer)
  : Writer * option string :=
  streamLoop "failed to write SSE chunk" "failed to read SSE response"
    (body 1024) w.

Definition streamBytesResponse (body : Z -> list Read) (w : Writer)
  : Writer * option string :=
  streamLoop "failed to write chunk" "failed to read from response body"
    (body 64) w.

Definition streamResponse (flusher : bool) (contentType : string)
    (body : Z -> list Read) (w : Writer) : Writer * option string :=
  if negb flusher then ioCopy (body 32768) w
  else if Contains contentType "text/event-stream" then
    streamSSEResponse body w
  else streamBytesResponse body w.

End Stream.

(** The reads of a body up to its first error, that one included. *)
Fixpoint delivered (body : list Read) : list Read :=
  match body with
  | [] => []
  | r :: rest =>
      match err r with
      | Some _ => [r]
      | None => r :: delivered rest
      end
  end.

Definition bytesOf (reads : list Read) : list Z := concat (map data reads).

(** The message of the error the reads end on, when it is not the end
    of the body. *)
Definition failure (body : list Read) : option string :=
  match List.last (delivered body) {| data := []; err := None |} with
  | {| err := Some (Broken msg) |} => Some msg
  | _ => None
  end.

End streaming.

(** ** Package [config]: the whole [Config] and [LoadConfig] *)

Module settings.

Record Timeouts : Type := {
  Read : Z;
  Write : Z;
  Idle : Z;
  Shutdown : Z
}.

Record Server : Type := {
  Server_Port : string;
  Server_Host : string;
  Server_Timeouts : Timeouts
}.

Record Web : Type := {
  Web_Port : string;
  Web_Enabled : bool;
  Web_MaxLogs : Z
}.

Record Proxy : Type := {
  Proxy_Targets : list config.ProxyTarget;
  Proxy_Timeout : Z;
  Proxy_MaxRetries : Z;
  Proxy_RetryDelay : Z;
  Proxy_HTTPProxy : string
}.

Record Logging : Type := {
  Logging_Level : string;
  Logging_File : string
}.

Record WebSocket : Type := {
  BufferSize : Z;
  BroadcastSize : Z
}.

Record Config : Type := {
  server : Server;
  web : Web;
  proxy : Proxy;
  logging : Logging;
  websocket : WebSocket
}.

(** [if s == "" { s = d }] and [if n == 0 { n = d }]. *)
Definition orString (s d : string) : string :=
  if String.eqb s "" then d else s.

Definition orInt (n d : Z) : Z := if n =? 0 then d else n.

Definition setDefaults (c : Config) : Config :=
  {| server :=
       {| Server_Port := orString (Server_Port (server c)) "9727";
          Server_Host := orString (Server_Host (server c)) "0.0.0.0";
          Server_Timeouts :=
            {| Read := orInt (Read (Server_Timeouts (server c))) 30;
               Write := orInt (Write (Server_Timeouts (server c))) 30;
               Idle := orInt (Idle (Server_Timeouts (server c))) 60;
               Shutdown :=
                 orInt (Shutdown (Server_Timeouts (server c))) 30 |} |};
     web :=
       {| Web_Port := orString (Web_Port (web c)) "9528";
          Web_Enabled := if negb (Web_Enabled (web c)) then true
                         else Web_Enabled (web c);
          Web_MaxLogs := orInt (Web_MaxLogs (web c)) 1000 |};
     proxy :=
       {| Proxy_Targets := Proxy_Targets (proxy c);
          Proxy_Timeout := orInt (Proxy_Timeout (proxy c)) 30;
          Proxy_MaxRetries := orInt (Proxy_MaxRetries (proxy c)) 3;
          Proxy_RetryDelay := orInt (Proxy_RetryDelay (proxy c)) 1000;
          Proxy_HTTPProxy := Proxy_HTTPProxy (proxy c) |};
     logging :=
       {| Logging_Level := orString (Logging_Level (logging c)) "info";
          Logging_File := Logging_File (logging c) |};
     websocket :=
       {| BufferSize := orInt (BufferSize (websocket c)) 1024;
          BroadcastSize := orInt (BroadcastSize (websocket c)) 1000 |} |}.

(** [processTargetURLs] on the whole configuration. *)
Definition processTargetURLs (c : Config) : Config :=
  {| server := server c; web := web c;
     proxy :=
       {| Proxy_Targets := map config.processTarget (Proxy_Targets (proxy c));
          Proxy_Timeout := Proxy_Timeout (proxy c);
          Proxy_MaxRetries := Proxy_MaxRetries (proxy c);
          Proxy_RetryDelay := Proxy_RetryDelay (proxy c);
          Proxy_HTTPProxy := Proxy_HTTPProxy (proxy c) |};
     logging := logging c; websocket := websocket c |}.

(** [LoadConfig], from what [yaml.Unmarshal] made of the file. *)
Definition LoadConfig (parsed : Config) : Config :=
  processTargetURLs (setDefaults parsed).

(** The part of the configuration the proxy handler reads. *)
Definition proxyConfig (c : Config) : config.Config :=
  {| config.Targets := Proxy_Targets (proxy c);
     config.MaxRetries := Proxy_MaxRetries (proxy c);
     config.RetryDelay := Proxy_RetryDelay (proxy c) |}.

End settings.

(** ** The response side of [forwardRequest], attempt after attempt *)

Module relay.
Import GoStrings.

(** What [client.Do] returned, as far as [forwardRequest] reads it. *)
Record Resp : Type := {
  StatusCode : Z;
  ContentType : string;
  TransferEncoding : string;
  ContentLength : Z;
  Body : Z -> list streaming.Read
}.

(** One call of [forwardRequest]: it returns an error before anything is
    written to the client (the body of the request, the outbound client,
    the request, [client.Do]), or it has a response to relay. *)
Inductive Attempt : Type :=
| Failed (err : string)
| Responded (resp : Resp).

(** The response writer of the request: the status the client was sent,
    if any yet (a later [WriteHeader] does not change it), the status
    the capturing writer of the logger keeps, and the body. *)
Record ResponseWriter : Type := {
  sent : option Z;
  statusCode : Z;
  out : streaming.Writer
}.

Definition fresh : ResponseWriter :=
  {| sent := None; statusCode := 200;
     out := {| streaming.written := []; streaming.flushes := 0 |} |}.

Definition WriteHeader (w : ResponseWriter) (code : Z) : ResponseWriter :=
  {| sent := match sent w with Some c => Some c | None => Some code end;
     statusCode := code;
     out := out w |}.

Definition isStreaming (resp : Resp) : bool :=
  Contains (ContentType resp) "text/event-stream"
  || Contains (ContentType resp) "application/x-ndjson"
  || Contains (TransferEncoding resp) "chunked"
  || (ContentLength resp =? -1)
  || Contains (ContentType resp) "text/plain".

Definition bytesOfString (s : string) : list Z :=
  map (fun c => Z.of_N (Ascii.N_of_ascii c)) (list_ascii_of_string s).

Section Relay.

Variable upperUnicode : string -> string.
Variable url_Parse : string -> result url.URL.
Variable URL_String : url.URL -> string.
Variable writeFails : streaming.Writer -> list Z -> option string.
Variable ioCopy :
  list streaming.Read -> streaming.Writer -> streaming.Writer * option string.

(** Whether the response writer can flush. *)
Variable flusher : bool.

(** [forwardRequest] from [client.Do] on. *)
Definition forwardOnce (w : ResponseWriter) (a : Attempt)
  : ResponseWriter * option string :=
  match a with
  | Failed err => (w, Some err)
  | Responded resp =>
      let w1 := WriteHeader w (StatusCode resp) in
      let '(o, e) :=
        if isStreaming resp then
          streaming.streamResponse writeFails ioCopy flusher
            (ContentType resp) (Body resp) (out w1)
        else ioCopy (Body resp 32768) (out w1) in
      ({| sent := sent w1; statusCode := statusCode w1; out := o |},
       option_map (fun msg => "failed to copy response body: " +:+ msg) e)
  end.

(** The writer after the first [n] attempts, [outcomes i] being what
    attempt [i] meets. *)
Fixpoint writerAfter (outcomes : nat -> Attempt) (w : ResponseWriter)
    (n : nat) : ResponseWriter :=
  match n with
  | O => w
  | S k => fst (forwardOnce (writerAfter outcomes w k) (outcomes k))
  end.

(** What the retry loop is told by an attempt. *)
Definition upstream (outcomes : nat -> Attempt) (w : ResponseWriter)
  : list string -> string -> option string :=
  fun attempts _ =>
    snd (forwardOnce (writerAfter outcomes w (length attempts))
           (outcomes (length attempts))).

(** [http.Error(w, msg, code)]: the status, then the text and a new
    line. *)
Definition httpError (w : ResponseWriter) (msg : string) (code : Z)
  : ResponseWriter :=
  let w1 := WriteHeader w code in
  let chunk := bytesOfString msg ++ [10] in
  match writeFails (out w1) chunk with
  | Some _ => w1
  | None =>
      {| sent := sent w1; statusCode := statusCode w1;
         out := {| streaming.written := streaming.written (out w1) ++ chunk;
                   streaming.flushes := streaming.flushes (out w1) |} |}
  end.

(** [ServeHTTP] with its response writer. *)
Definition ServeHTTP (cfg : config.Config) (hm : proxy.HealthMap)
    (r : proxy.Request) (outcomes : nat -> Attempt) (w : ResponseWriter)
  : proxy.Served * ResponseWriter :=
  let served :=
    proxy.ServeHTTP upperUnicode url_Parse URL_String (upstream outcomes w)
      cfg hm r in
  let w' := writerAfter outcomes w (length (proxy.attempted served)) in
  (served,
   match proxy.response served with
   | proxy.HttpError msg code => httpError w' msg code
   | proxy.Relayed => w'
   end).

End Relay.

(** For the statements: the status of an attempt that had a response,
    and the bytes a streamed response gives up to its first error. *)
Definition statusOf (a : Attempt) : list Z :=
  match a with
  | Failed _ => []
  | Responded resp => [StatusCode resp]
  end.

Definition relayedBy (a : Attempt) : list Z :=
  match a with
  | Failed _ => []
  | Responded resp =>
      streaming.bytesOf
        (streaming.delivered
           (Body resp
              (if Contains (ContentType resp) "text/event-stream" then 1024
               else 64)))
  end.

Definition attemptsMade (outcomes : nat -> Attempt) (n : nat) : list Attempt :=
  map outcomes (seq 0 n).

End relay.

(** ** A stream that breaks and one that does not, for the examples *)

Module scenario.

Definition writeFails (w : streaming.Writer) (chunk : list Z) : option string :=
  None.

Definition ioCopy (body : list streaming.Read) (w : streaming.Writer)
  : streaming.Writer * option string :=
  (w, None).

(** Two events, the connection being reset after the second. *)
Definition brokenStream : relay.Resp :=
  {| relay.StatusCode := 200;
     relay.ContentType := "text/event-stream";
     relay.TransferEncoding := "";
     relay.ContentLength := -1;
     relay.Body := fun _ =>
       [ {| streaming.data := [100; 97; 116; 97; 58; 49; 10; 10];
            streaming.err := None |};
         {| streaming.data := [100; 97; 116; 97; 58; 50; 10; 10];
            streaming.err :=
              Some (streaming.Broken
                      "read tcp 10.0.0.1:443: connection reset by peer") |} ] |}.

(** The whole stream, three events, with another status. *)
Definition wholeStream : relay.Resp :=
  {| relay.StatusCode := 206;
     relay.ContentType := "text/event-stream";
     relay.TransferEncoding := "";
     relay.ContentLength := -1;
     relay.Body := fun _ =>
       [ {| streaming.data := [100; 97; 116; 97; 58; 49; 10; 10];
            streaming.err := None |};
         {| streaming.data := [100; 97; 116; 97; 58; 50; 10; 10];
            streaming.err := None |};
         {| streaming.data := [100; 97; 116; 97; 58; 51; 10; 10];
            streaming.err := Some streaming.EOF |} ] |}.

Definition outcomes (i : nat) : relay.Attempt :=
  match i with
  | O => relay.Responded brokenStream
  | _ => relay.Responded wholeStream
  end.

Definition cfg : config.Config :=
  {| config.Targets := [fixtures.route "/x" "http://a" ["http://a"]];
     config.MaxRetries := 2; config.RetryDelay := 10 |}.

End scenario.

(** ** Headers of the outbound request ([copyHeaders], in the
    forwarder) *)

Module headers.

(** [http.Header]: the values of each key, the keys in canonical
    form. *)
Abbreviation Header := (gmap string (list string)).

Section Headers.

(** [textproto.CanonicalMIMEHeaderKey]. *)
Variable canon : string -> string.

(** The order in which [range] goes through a map, which Go leaves
    open. *)
Variable rangeValues : Header -> list (string * list string).
Variable rangeValue : gmap string string -> list (string * string).

(** [Header.Add] and [Header.Set]. *)
Definition Add (h : Header) (key value : string) : Header :=
  let k := canon key in <[k := default [] (h !! k) ++ [value]]> h.

Definition Set_ (h : Header) (key value : string) : Header :=
  <[canon key := [value]]> h.

(** The body of the first loop, with its inner loop. *)
Definition copyOne (req : Header) (entry : string * list string) : Header :=
  let '(key, values) := entry in
  if String.eqb key "Host" then req
  else fold_left (fun req value => Add req key value) values req.

Definition copyHeaders (req original : Header)
    (targetHeaders : gmap string string) : Header :=
  let req := fold_left copyOne (rangeValues original) req in
  fold_left (fun req entry => Set_ req (fst entry) (snd entry))
    (rangeValue targetHeaders) req.

(** [Header.Get]: the first value of the key, or the empty string. *)
Definition Get (h : Header) (key : string) : string :=
  match h !! canon key with
  | Some (value :: _) => value
  | _ => ""
  end.

(** The body of the loop of [copyResponseHeaders], with its inner
    loop. *)
Definition addEntry (w : Header) (entry : string * list string) : Header :=
  fold_left (fun w value => Add w (fst entry) value) (snd entry) w.

Definition copyResponseHeaders (w resp : Header) : Header :=
  let w := fold_left addEntry (rangeValues resp) w in
  let contentType := Get resp "Content-Type" in
  if GoStrings.Contains contentType "text/event-stream" then
    let w := Set_ w "Cache-Control" "no-cache" in
    let w := Set_ w "Connection" "keep-alive" in
    if String.eqb (Get w "Access-Control-Allow-Origin") "" then
      Set_ w "Access-Control-Allow-Origin" "*"
    else w
  else w.

End Headers.

End headers.

(** ** A request with a key of its own, for the examples *)

Module requests.

(** The canonical form, on the keys of the example. *)
Definition canon (key : string) : string :=
  if String.eqb key "x-api-key" then "X-Api-Key" else key.

Definition incoming : gmap string (list string) :=
  <["X-Api-Key" := ["of-the-client"]]>
    (<["Accept" := ["text/event-stream"; "application/json"]]>
       (<["Host" := ["proxy.local"]]> ∅)).

Definition ofTheRoute : gmap string string :=
  <["x-api-key" := "of-the-route"]> ∅.

(** The headers of a stream of events that may be cached for a minute. *)
Definition ofTheUpstream : gmap string (list string) :=
  <["Content-Type" := ["text/event-stream; charset=utf-8"]]>
    (<["Cache-Control" := ["max-age=60"]]> ∅).

End requests.

(** * Properties *)

(** ** Strings *)

Import GoStrings.

Lemma string_app_cons (c : ascii) (a b : string) :
  String c a +:+ b = String c (a +:+ b).
Proof. reflexivity. Qed.

Lemma string_app_nil_l (b : string) : "" +:+ b = b.
Proof. reflexivity. Qed.

Ltac str_simpl :=
  repeat (rewrite string_app_cons in * || rewrite string_app_nil_l in *); simpl.

Lemma string_app_nil_r (s : string) : s +:+ "" = s.
Proof. induction s as [|c s IH]; str_simpl; [reflexivity | now rewrite IH]. Qed.

Lemma string_app_assoc (a b c : string) : (a +:+ b) +:+ c = a +:+ (b +:+ c).
Proof. induction a as [|x a IH]; str_simpl; [reflexivity | now rewrite IH]. Qed.

Lemma string_length_app (a b : string) :
  String.length (a +:+ b) = (String.length a + String.length b)%nat.
Proof. induction a as [|x a IH]; str_simpl; [reflexivity | now rewrite IH]. Qed.

Lemma substring_all (s : string) : String.substring 0 (String.length s) s = s.
Proof. induction s as [|c s IH]; simpl; [reflexivity | now rewrite IH]. Qed.

Lemma substring_0_app (a b : string) :
  String.substring 0 (String.length a) (a +:+ b) = a.
Proof.
  induction a as [|x a IH]; str_simpl.
  - destruct b; reflexivity.
  - now rewrite IH.
Qed.

Lemma substring_skip_app (a b : string) :
  String.substring (String.length a) (String.length b) (a +:+ b) = b.
Proof.
  induction a as [|x a IH]; str_simpl; [apply substring_all | exact IH].
Qed.

Lemma substring_split (s : string) (k : nat) :
  (k <= String.length s)%nat ->
  s = String.substring 0 k s +:+ String.substring k (String.length s - k) s.
Proof.
  revert k. induction s as [|c s IH]; intros k Hk; simpl in *.
  - destruct k; [reflexivity | lia].
  - destruct k as [|k]; simpl.
    + str_simpl. now rewrite substring_all.
    + str_simpl. rewrite <- IH by lia. reflexivity.
Qed.

Lemma HasPrefix_iff (s p : string) :
  HasPrefix s p = true <-> exists r, s = p +:+ r.
Proof.
  unfold HasPrefix. rewrite andb_true_iff, Nat.leb_le, String.eqb_eq. split.
  - intros [Hlen Hsub]. eexists.
    rewrite (substring_split s (String.length p) Hlen) at 1.
    now rewrite Hsub.
  - intros [r ->]. rewrite string_length_app, substring_0_app. split; [lia | reflexivity].
Qed.

Lemma HasSuffix_iff (s p : string) :
  HasSuffix s p = true <-> exists a, s = a +:+ p.
Proof.
  unfold HasSuffix. rewrite andb_true_iff, Nat.leb_le, String.eqb_eq. split.
  - intros [Hlen Hsub]. eexists.
    rewrite (substring_split s (String.length s - String.length p)) at 1 by lia.
    replace (String.length s - (String.length s - String.length p))%nat
      with (String.length p) by lia.
    now rewrite Hsub.
  - intros [a ->]. rewrite string_length_app.
    replace (String.length a + String.length p - String.length p)%nat
      with (String.length a) by lia.
    rewrite substring_skip_app. split; [lia | reflexivity].
Qed.

Lemma TrimSuffix_app (a suffix : string) : TrimSuffix (a +:+ suffix) suffix = a.
Proof.
  unfold TrimSuffix.
  assert (H : HasSuffix (a +:+ suffix) suffix = true)
    by (apply HasSuffix_iff; now exists a).
  rewrite H, string_length_app.
  replace (String.length a + String.length suffix - String.length suffix)%nat
    with (String.length a) by lia.
  apply substring_0_app.
Qed.

Lemma TrimSuffix_without (s suffix : string) :
  HasSuffix s suffix = false -> TrimSuffix s suffix = s.
Proof. unfold TrimSuffix. now intros ->. Qed.

Lemma Contains_iff (s sub : string) :
  Contains s sub = true <-> exists a b, s = a +:+ sub +:+ b.
Proof.
  induction s as [|c s IH]; simpl.
  - rewrite orb_false_r, HasPrefix_iff. split.
    + intros [r Hr]. now exists "", r.
    + intros (a & b & H). destruct a; [now exists b | discriminate].
  - rewrite orb_true_iff, HasPrefix_iff, IH. split.
    + intros [[r Hr] | (a & b & Hab)].
      * now exists "", r.
      * exists (String c a), b. str_simpl. now rewrite Hab.
    + intros (a & b & H). destruct a as [|x a]; str_simpl.
      * left. now exists b.
      * right. injection H as _ H. now exists a, b.
Qed.


(** ** Letter case *)

Lemma all_bytes_complete (P : ascii -> bool) :
  forallb P all_bytes = true -> forall c, P c = true.
Proof.
  intros H c. rewrite forallb_forall in H. apply H.
  rewrite <- (ascii_nat_embedding c). unfold all_bytes.
  apply in_map, in_seq. pose proof (nat_ascii_bounded c). lia.
Qed.

Lemma lower_ascii_not_upper (c : ascii) : is_upper (lower_ascii c) = false.
Proof.
  apply negb_true_iff. revert c. apply all_bytes_complete.
  vm_compute. reflexivity.
Qed.

Lemma upper_ascii_sameLetter (x y : ascii) :
  Ascii.eqb (upper_ascii x) (upper_ascii y) = Spec.sameLetter x y.
Proof.
  apply eqb_prop. revert y. apply all_bytes_complete.
  revert x. apply all_bytes_complete. vm_compute. reflexivity.
Qed.

Lemma lower_ascii_sameLetter (x y : ascii) :
  Ascii.eqb (lower_ascii x) (lower_ascii y) = Spec.sameLetter x y.
Proof.
  apply eqb_prop. revert y. apply all_bytes_complete.
  revert x. apply all_bytes_complete. vm_compute. reflexivity.
Qed.

Lemma eqFold_upper_ascii (a b : string) :
  Spec.eqFold a b
  = String.eqb (map_string upper_ascii a) (map_string upper_ascii b).
Proof.
  revert b. induction a as [|x a IH]; intros [|y b]; simpl; try reflexivity.
  rewrite upper_ascii_sameLetter, IH.
  destruct (Spec.sameLetter x y); reflexivity.
Qed.

(** The test of [matchMethod] on two strings is equality up to case. *)
Lemma ToUpper_equalIgnoringCase (upperUnicode : string -> string)
    (a b : string) :
  String.eqb (ToUpper upperUnicode a) (ToUpper upperUnicode b) = true
  <-> Spec.equalIgnoringCase upperUnicode a b.
Proof.
  rewrite String.eqb_eq. unfold Spec.equalIgnoringCase.
  destruct (isASCII a) eqn:Ha; [destruct (isASCII b) eqn:Hb|]; simpl;
    try tauto.
  unfold ToUpper. rewrite Ha, Hb, eqFold_upper_ascii. symmetry.
  apply String.eqb_eq.
Qed.

Lemma eqFold_ToLower (a b : string) :
  Spec.eqFold a b = String.eqb (ToLower a) (ToLower b).
Proof.
  revert b. induction a as [|x a IH]; intros [|y b]; simpl; try reflexivity.
  rewrite lower_ascii_sameLetter, IH.
  destruct (Spec.sameLetter x y); reflexivity.
Qed.

Lemma map_string_length (f : ascii -> ascii) (s : string) :
  String.length (map_string f s) = String.length s.
Proof. induction s as [|c s IH]; simpl; [reflexivity | now rewrite IH]. Qed.

Lemma map_string_substring (f : ascii -> ascii) (n m : nat) (s : string) :
  String.substring n m (map_string f s) = map_string f (String.substring n m s).
Proof.
  revert n m. induction s as [|c s IH]; intros [|n] [|m]; simpl;
    try reflexivity; try apply IH.
  now rewrite IH.
Qed.

Lemma substring_0_length (n : nat) (s : string) :
  String.length (String.substring 0 n s) = Nat.min n (String.length s).
Proof.
  revert n. induction s as [|c s IH]; intros [|n]; simpl; try reflexivity.
  now rewrite IH.
Qed.

(** A prefix test on lowered strings is equality up to case with the
    beginning of the string. *)
Lemma HasPrefix_ToLower (s p : string) :
  HasPrefix (ToLower s) (ToLower p)
  = Spec.eqFold (String.substring 0 (String.length p) s) p.
Proof.
  unfold HasPrefix, ToLower. rewrite !map_string_length, map_string_substring.
  rewrite eqFold_ToLower. fold ToLower.
  destruct (String.length p <=? String.length s)%nat eqn:Hlen; [reflexivity|].
  apply Nat.leb_gt in Hlen. symmetry. apply String.eqb_neq. intros Heq.
  apply (f_equal String.length) in Heq. unfold ToLower in Heq.
  rewrite !map_string_length, substring_0_length in Heq. lia.
Qed.

Lemma Contains_ToLower (s p : string) :
  Contains (ToLower s) (ToLower p) = Spec.containsFold s p.
Proof.
  induction s as [|c s IH].
  - simpl. change EmptyString with (ToLower EmptyString) at 1.
    now rewrite HasPrefix_ToLower.
  - change (ToLower (String c s)) with (String (lower_ascii c) (ToLower s)).
    simpl Contains. rewrite IH.
    change (String (lower_ascii c) (ToLower s)) with (ToLower (String c s)).
    now rewrite HasPrefix_ToLower.
Qed.

Lemma all_chars_app (f : ascii -> bool) (a b : string) :
  all_chars f (a +:+ b) = all_chars f a && all_chars f b.
Proof.
  induction a as [|x a IH]; str_simpl; [reflexivity|].
  rewrite IH. now rewrite andb_assoc.
Qed.

Lemma ToLower_no_upper (s : string) :
  all_chars (fun c => negb (is_upper c)) (ToLower s) = true.
Proof.
  unfold ToLower. induction s as [|c s IH]; simpl; [reflexivity|].
  now rewrite lower_ascii_not_upper, IH.
Qed.

(** A phrase with a capital letter is never found in a lowered string. *)
Lemma Contains_ToLower_capital (s p : string) :
  all_chars (fun c => negb (is_upper c)) p = false ->
  Contains (ToLower s) p = false.
Proof.
  intros Hp. destruct (Contains (ToLower s) p) eqn:Hc; [|reflexivity].
  apply Contains_iff in Hc as (a & b & Hab).
  pose proof (ToLower_no_upper s) as H. rewrite Hab, !all_chars_app, Hp in H.
  now rewrite andb_false_r in H.
Qed.

(** ** Retryable errors *)

Lemma anyContained_existsb (lowered : string) (phrases : list string) :
  proxy.anyContained lowered phrases = existsb (Contains lowered) phrases.
Proof.
  induction phrases as [|p ps IH]; simpl; [reflexivity|].
  rewrite IH. destruct (Contains lowered p); reflexivity.
Qed.

(** The classifier is the specification's test on the six phrases written
    in lower case; the first phrase of its list plays no part. *)
Lemma isRetryableError_six (errStr : string) :
  proxy.isRetryableError errStr
  = existsb (Spec.containsFold errStr) (tail Spec.retryablePhrases).
Proof.
  unfold proxy.isRetryableError, proxy.retryableErrors.
  rewrite anyContained_existsb. simpl existsb.
  rewrite Contains_ToLower_capital by (vm_compute; reflexivity).
  rewrite <- !Contains_ToLower. reflexivity.
Qed.

(** C1 (a defect of the code). The classifier lowers the message and then
    looks for the phrase [unexpected EOF] as written, capitals included, so
    that phrase is never found: the message [unexpected EOF] is classified
    as not retryable, although it contains the first of the seven phrases.
    On the other six phrases the classifier is the case-insensitive
    containment test of the specification. *)
Theorem isRetryableError_unexpected_EOF :
  proxy.isRetryableError "unexpected EOF" = false
  /\ proxy.isRetryableError "HTTP client error: unexpected EOF" = false
  /\ Spec.retryable "unexpected EOF" = true
  /\ (forall errStr, Contains (ToLower errStr) "unexpected EOF" = false)
  /\ (forall errStr,
        proxy.isRetryableError errStr
        = existsb (Spec.containsFold errStr) (tail Spec.retryablePhrases)).
Proof.
  split; [vm_compute; reflexivity|].
  split; [vm_compute; reflexivity|].
  split; [vm_compute; reflexivity|].
  split.
  - intros errStr. apply Contains_ToLower_capital. vm_compute. reflexivity.
  - exact isRetryableError_six.
Qed.

(** ** Route matching *)

Lemma matchPath_wildcard (requestPath prefix : string) :
  proxy.matchPath requestPath (prefix +:+ "*") = true
  <-> exists rest, requestPath = prefix +:+ rest.
Proof.
  unfold proxy.matchPath.
  assert (H : HasSuffix (prefix +:+ "*") "*" = true)
    by (apply HasSuffix_iff; now exists prefix).
  rewrite H, TrimSuffix_app. apply HasPrefix_iff.
Qed.

Lemma matchPath_exact (requestPath targetPath : string) :
  (forall prefix, targetPath <> prefix +:+ "*") ->
  proxy.matchPath requestPath targetPath = true <-> requestPath = targetPath.
Proof.
  intros Hno. unfold proxy.matchPath.
  destruct (HasSuffix targetPath "*") eqn:H.
  - apply HasSuffix_iff in H as [a Ha]. now destruct (Hno a).
  - apply String.eqb_eq.
Qed.

Lemma anyMethod_iff (upperUnicode : string -> string) (method : string)
    (allowed : list string) :
  proxy.anyMethod upperUnicode method allowed = true
  <-> exists a, In a allowed /\ Spec.equalIgnoringCase upperUnicode method a.
Proof.
  induction allowed as [|a rest IH]; simpl.
  - split; [discriminate | now intros (a & [] & _)].
  - pose proof (ToUpper_equalIgnoringCase upperUnicode method a) as Ha.
    destruct (String.eqb (ToUpper upperUnicode method)
                (ToUpper upperUnicode a)).
    + split; [|reflexivity]. intros _. exists a. split; [now left|].
      now apply Ha.
    + rewrite IH. split.
      * intros (b & Hb & Hm). exists b. auto.
      * intros (b & [<- | Hb] & Hm); [|now exists b].
        apply Ha in Hm. discriminate.
Qed.

Lemma matchMethod_iff (upperUnicode : string -> string) (method : string)
    (allowed : list string) :
  proxy.matchMethod upperUnicode method allowed = true
  <-> Spec.methodMatches upperUnicode method allowed.
Proof.
  unfold Spec.methodMatches. destruct allowed as [|a rest].
  - simpl. split; auto.
  - unfold proxy.matchMethod. rewrite anyMethod_iff. split.
    + auto.
    + now intros [H | H].
Qed.

Lemma findTarget_Some_iff (upperUnicode : string -> string)
    (targets : list config.ProxyTarget) (path method : string)
    (t : config.ProxyTarget) :
  proxy.findTarget upperUnicode targets path method = Some t
  <-> exists before after,
        targets = before ++ t :: after
        /\ proxy.matchPath path (config.Path t)
           && proxy.matchMethod upperUnicode method (config.Methods t) = true
        /\ Forall (fun t' =>
                     proxy.matchPath path (config.Path t')
                     && proxy.matchMethod upperUnicode method
                          (config.Methods t')
                     = false) before.
Proof.
  induction targets as [|t0 rest IH]; simpl.
  - split; [discriminate|]. intros (b & a & H & _). now destruct b.
  - destruct (proxy.matchPath path (config.Path t0)
              && proxy.matchMethod upperUnicode method (config.Methods t0))
      eqn:H0.
    + split.
      * intros [= <-]. exists [], rest. auto.
      * intros (b & a & Heq & Ht & Hb). destruct b as [|t1 b]; simpl in Heq.
        -- now injection Heq as -> _.
        -- injection Heq as -> _. inversion Hb; congruence.
    + rewrite IH. split.
      * intros (b & a & -> & Ht & Hb). exists (t0 :: b), a. auto.
      * intros (b & a & Heq & Ht & Hb). destruct b as [|t1 b]; simpl in Heq.
        -- injection Heq as -> _. congruence.
        -- injection Heq as -> ->. inversion Hb. now exists b, a.
Qed.

Lemma findTarget_None_iff (upperUnicode : string -> string)
    (targets : list config.ProxyTarget) (path method : string) :
  proxy.findTarget upperUnicode targets path method = None
  <-> Forall (fun t =>
                proxy.matchPath path (config.Path t)
                && proxy.matchMethod upperUnicode method (config.Methods t)
                = false) targets.
Proof.
  induction targets as [|t0 rest IH]; simpl.
  - split; auto.
  - destruct (proxy.matchPath path (config.Path t0)
              && proxy.matchMethod upperUnicode method (config.Methods t0))
      eqn:H0.
    + split; [discriminate|]. inversion 1; congruence.
    + rewrite IH. split; [auto | now inversion 1].
Qed.

Lemma matchPath_pathMatches (requestPath targetPath : string) :
  proxy.matchPath requestPath targetPath = true
  <-> Spec.pathMatches targetPath requestPath.
Proof.
  unfold Spec.pathMatches. split.
  - intros H. destruct (HasSuffix targetPath "*") eqn:Hs.
    + apply HasSuffix_iff in Hs as [prefix ->]. left. exists prefix.
      split; [reflexivity | now apply matchPath_wildcard].
    + right. assert (Hno : forall prefix, targetPath <> prefix +:+ "*").
      { intros prefix ->.
        assert (HasSuffix (prefix +:+ "*") "*" = true)
          by (apply HasSuffix_iff; now exists prefix).
        congruence. }
      split; [exact Hno | now apply matchPath_exact].
  - intros [(prefix & -> & Hrest) | [Hno ->]].
    + now apply matchPath_wildcard.
    + now apply matchPath_exact.
Qed.

Lemma route_test_routeMatches (upperUnicode : string -> string)
    (path method : string) (t : config.ProxyTarget) :
  proxy.matchPath path (config.Path t)
  && proxy.matchMethod upperUnicode method (config.Methods t) = true
  <-> Spec.routeMatches upperUnicode path method t.
Proof.
  unfold Spec.routeMatches.
  now rewrite andb_true_iff, matchPath_pathMatches, matchMethod_iff.
Qed.

Lemma route_test_false (upperUnicode : string -> string)
    (path method : string) (t : config.ProxyTarget) :
  proxy.matchPath path (config.Path t)
  && proxy.matchMethod upperUnicode method (config.Methods t) = false
  <-> ~ Spec.routeMatches upperUnicode path method t.
Proof.
  rewrite <- route_test_routeMatches.
  destruct (proxy.matchPath path (config.Path t)
            && proxy.matchMethod upperUnicode method (config.Methods t));
    split; congruence.
Qed.

(** Between ASCII strings, membership up to case is membership up to
    the case of the 26 letters, byte by byte. *)
Lemma methodMatches_ASCII (upperUnicode : string -> string) (method : string)
    (allowed : list string) :
  isASCII method = true -> Forall (fun a => isASCII a = true) allowed ->
  Spec.methodMatches upperUnicode method allowed
  <-> allowed = [] \/ exists a, In a allowed /\ Spec.eqFold method a = true.
Proof.
  intros Hm Hall. rewrite List.Forall_forall in Hall.
  unfold Spec.methodMatches, Spec.equalIgnoringCase. rewrite Hm.
  split; (intros [H | (a & Ha & H)]; [now left | right; exists a]);
    (split; [exact Ha|]); rewrite (Hall a Ha) in *; exact H.
Qed.

(** C2. Route matching is the specification's, whatever the upper case
    of the letters beyond ASCII: the path test is the prefix test for a
    match-path ending in [*] and equality otherwise; the method test
    accepts every method for an empty list and otherwise tests membership
    up to letter case (between ASCII strings, up to the case of the 26
    letters; beyond ASCII, as Unicode has the upper case, so that a list
    entry written with the long s, whose capital is [S], admits [POST]);
    [findTarget] returns the first route of the table that matches, and
    when none does the client gets status 404 with the message
    [Not Found]. *)
Theorem findTarget_first_match (upperUnicode : string -> string) :
  (forall requestPath targetPath,
      proxy.matchPath requestPath targetPath = true
      <-> Spec.pathMatches targetPath requestPath)
  /\ (proxy.matchPath "/a/b" "/a/*" = true
      /\ proxy.matchPath "/a/" "/a/*" = true
      /\ proxy.matchPath "/a" "/a/*" = false)
  /\ (forall method allowed,
         proxy.matchMethod upperUnicode method allowed = true
         <-> Spec.methodMatches upperUnicode method allowed)
  /\ (forall method allowed,
         isASCII method = true -> Forall (fun a => isASCII a = true) allowed ->
         proxy.matchMethod upperUnicode method allowed = true
         <-> allowed = []
             \/ exists a, In a allowed /\ Spec.eqFold method a = true)
  /\ (proxy.matchMethod upperUnicode "get" ["POST"; "GET"] = true
      /\ proxy.matchMethod upperUnicode "PUT" ["POST"; "GET"] = false
      /\ proxy.matchMethod upperUnicode "PUT" [] = true)
  /\ (upperUnicode fixtures.post_with_long_s = "POST" ->
      proxy.matchMethod upperUnicode "POST" [fixtures.post_with_long_s] = true
      /\ Spec.eqFold "POST" fixtures.post_with_long_s = false)
  /\ (forall targets path method t,
         proxy.findTarget upperUnicode targets path method = Some t
         <-> exists before after,
               targets = before ++ t :: after
               /\ Spec.routeMatches upperUnicode path method t
               /\ Forall (fun t' =>
                            ~ Spec.routeMatches upperUnicode path method t')
                    before)
  /\ (forall targets path method,
         proxy.findTarget upperUnicode targets path method = None
         <-> Forall (fun t => ~ Spec.routeMatches upperUnicode path method t)
               targets)
  /\ (forall url_Parse URL_String upstream cfg hm r,
         Forall (fun t => ~ Spec.routeMatches upperUnicode
                            (url.Path (proxy.RequestURL r)) (proxy.Method r) t)
                (config.Targets cfg) ->
         proxy.ServeHTTP upperUnicode url_Parse URL_String upstream cfg hm r
         = {| proxy.response := proxy.HttpError "Not Found" 404;
              proxy.loggedTarget := None; proxy.attempted := [] |}).
Proof.
  split; [exact matchPath_pathMatches|].
  split; [repeat split; vm_compute; reflexivity|].
  split; [exact (matchMethod_iff upperUnicode)|].
  split.
  { intros method allowed Hm Hall.
    now rewrite matchMethod_iff, methodMatches_ASCII. }
  split; [repeat split; vm_compute; reflexivity|].
  split.
  { intros Hupper. split; [|vm_compute; reflexivity].
    unfold proxy.matchMethod, proxy.anyMethod, ToUpper.
    change (isASCII "POST") with true.
    change (isASCII fixtures.post_with_long_s) with false.
    cbv iota. rewrite Hupper. vm_compute. reflexivity. }
  split; [|split].
  - intros targets path method t. rewrite findTarget_Some_iff.
    split; intros (b & a & Heq & Ht & Hb); exists b, a;
      (split; [exact Heq|]); (split; [now apply route_test_routeMatches|]);
      eapply Forall_impl; try exact Hb; intros t'; apply route_test_false.
  - intros targets path method. rewrite findTarget_None_iff.
    split; intros H; eapply Forall_impl; try exact H;
      intros t'; apply route_test_false.
  - intros url_Parse URL_String upstream cfg hm r H.
    unfold proxy.ServeHTTP.
    assert (Hn : proxy.findTarget upperUnicode (config.Targets cfg)
                   (url.Path (proxy.RequestURL r)) (proxy.Method r) = None).
    { apply findTarget_None_iff. eapply Forall_impl; try exact H.
      intros t'; apply route_test_false. }
    now rewrite Hn.
Qed.

(** C2 at work: in a table with the routes [/a/*] and [/ping], the second
    for [POST] and [GET] only, a request [get /ping] finds the second
    route, and a request for [/a] finds none and is answered 404. *)
Lemma findTarget_first_match_witness :
  let table :=
    [fixtures.route "/a/*" "http://a" ["http://a"];
     fixtures.allowing ["POST"; "GET"]
       (fixtures.route "/ping" "http://u/" ["http://u/"])] in
  proxy.findTarget fixtures.upperUnicode table "/ping" "get"
  = Some (fixtures.allowing ["POST"; "GET"]
            (fixtures.route "/ping" "http://u/" ["http://u/"]))
  /\ proxy.findTarget fixtures.upperUnicode table "/ping" "PUT" = None
  /\ proxy.ServeHTTP fixtures.upperUnicode fixtures.url_Parse
       fixtures.URL_String fixtures.upstream_ok
       {| config.Targets := table;
          config.MaxRetries := 3; config.RetryDelay := 1000 |}
       ∅ (fixtures.GET "/a" "")
     = {| proxy.response := proxy.HttpError "Not Found" 404;
          proxy.loggedTarget := None; proxy.attempted := [] |}.
Proof.
  intros table.
  destruct (findTarget_first_match fixtures.upperUnicode)
    as (Hpath & _ & Hmethod & _ & _ & _ & Hsome & Hnone & H404).
  assert (Hno : forall prefix, "/ping" <> prefix +:+ "*").
  { intros prefix H.
    apply (f_equal (fun s => HasSuffix s "*")) in H. simpl in H.
    assert (Hs : HasSuffix (prefix +:+ "*") "*" = true)
      by (apply HasSuffix_iff; now exists prefix).
    rewrite Hs in H. vm_compute in H. discriminate. }
  split; [|split].
  - apply Hsome. eexists [_], []. split; [reflexivity|]. split.
    + split.
      * right. split; [exact Hno | reflexivity].
      * right. exists "GET". split; [right; now left|].
        vm_compute. reflexivity.
    + repeat constructor. intros [Hp _]. apply Hpath in Hp.
      vm_compute in Hp. discriminate.
  - apply Hnone. repeat constructor.
    + intros [Hp _]. apply Hpath in Hp. vm_compute in Hp. discriminate.
    + intros [_ Hm]. apply Hmethod in Hm. vm_compute in Hm. discriminate.
  - apply H404. repeat constructor; intros [Hp _]; apply Hpath in Hp;
      vm_compute in Hp; discriminate.
Defined.

(** ** Selection of the fastest healthy URL *)

Lemma leastMetric_cons (b c : string * Z) (rest : list (string * Z)) :
  Spec.leastMetric b (c :: rest)
  = if snd (Spec.leastMetric c rest) <? snd b
    then Spec.leastMetric c rest else b.
Proof.
  revert b c. induction rest as [|d r IH]; intros b c.
  - reflexivity.
  - change (Spec.leastMetric b (c :: d :: r))
      with (Spec.leastMetric (if snd c <? snd b then c else b) (d :: r)).
    rewrite (IH _ d), (IH c d).
    destruct (snd c <? snd b) eqn:Hcb;
      destruct (snd (Spec.leastMetric d r) <? snd c) eqn:Hmc;
      destruct (snd (Spec.leastMetric d r) <? snd b) eqn:Hmb;
      try rewrite Hcb; try rewrite Hmb; try reflexivity;
      rewrite ?Z.ltb_lt, ?Z.ltb_ge in *; lia.
Qed.

(** The specification's choice is a candidate of least metric. *)
Lemma leastMetric_least (c : string * Z) (rest : list (string * Z)) :
  In (Spec.leastMetric c rest) (c :: rest)
  /\ forall x, In x (c :: rest) -> snd (Spec.leastMetric c rest) <= snd x.
Proof.
  revert c. induction rest as [|d r IH]; intros c.
  - simpl. split; [auto | intros x [<- | []]; lia].
  - rewrite leastMetric_cons. destruct (IH d) as [Hin Hle].
    destruct (snd (Spec.leastMetric d r) <? snd c) eqn:H;
      rewrite ?Z.ltb_lt, ?Z.ltb_ge in H.
    + split; [now right|]. intros x [<- | Hx]; [lia | now apply Hle].
    + split; [now left|]. intros x [<- | Hx]; [lia|].
      specialize (Hle x Hx). lia.
Qed.

Lemma healthyWithTime_metric (hm : gmap string proxy.URLHealth)
    (urls : list string) :
  (forall u h, hm !! u = Some h ->
               proxy.responseTimeToUse h = Spec.preferredMetric h) ->
  Spec.healthyWithTime hm urls = Spec.healthyWithMetric hm urls.
Proof.
  intros Hm. induction urls as [|u rest IH]; simpl; [reflexivity|].
  destruct (hm !! u) as [h|] eqn:Hu; [|exact IH].
  destruct (proxy.IsHealthy h); [|exact IH].
  now rewrite IH, (Hm u h Hu).
Qed.

(** Without a missing record the loop runs to its end, keeping the least
    of the times seen and counting the healthy URLs. *)
Lemma selectLoop_all_records (hm : gmap string proxy.URLHealth)
    (urls : list string) (st : proxy.Fastest) :
  List.find (fun u => bool_decide (hm !! u = None)) urls = None ->
  exists st',
    proxy.selectLoop hm urls st = inr st'
    /\ (proxy.fastestURL st', proxy.fastestTime st')
       = Spec.leastMetric (proxy.fastestURL st, proxy.fastestTime st)
           (Spec.healthyWithTime hm urls)
    /\ proxy.healthyCount st'
       = proxy.healthyCount st + Z.of_nat (length (Spec.healthyWithTime hm urls)).
Proof.
  revert st. induction urls as [|u rest IH]; intros st Hfind; simpl in *.
  - exists st. repeat split. destruct st; simpl; lia.
  - destruct (hm !! u) as [h|] eqn:Hu.
    2:{ rewrite bool_decide_eq_true_2 in Hfind by reflexivity. discriminate. }
    rewrite bool_decide_eq_false_2 in Hfind by discriminate.
    destruct (IH (proxy.consider u h st) Hfind) as (st' & Hloop & Hbest & Hcount).
    exists st'. split; [exact Hloop|].
    unfold proxy.consider in Hbest, Hcount.
    destruct (proxy.IsHealthy h); simpl.
    + destruct (proxy.responseTimeToUse h <? proxy.fastestTime st);
        simpl in *; split; try exact Hbest; lia.
    + split; [exact Hbest | exact Hcount].
Qed.

(** With a missing record the loop returns the first URL that has none. *)
Lemma selectLoop_missing (hm : gmap string proxy.URLHealth)
    (urls : list string) (st : proxy.Fastest) (u : string) :
  List.find (fun u => bool_decide (hm !! u = None)) urls = Some u ->
  proxy.selectLoop hm urls st = inl u.
Proof.
  revert st. induction urls as [|u0 rest IH]; intros st Hfind; simpl in *.
  - discriminate.
  - destruct (hm !! u0) as [h|] eqn:Hu.
    + rewrite bool_decide_eq_false_2 in Hfind by discriminate. now apply IH.
    + rewrite bool_decide_eq_true_2 in Hfind by reflexivity. congruence.
Qed.

Lemma GetFastestHealthyURL_eq (hm : gmap string proxy.URLHealth)
    (urls : list string) :
  (forall u h, hm !! u = Some h ->
               proxy.responseTimeToUse h = Spec.preferredMetric h) ->
  proxy.GetFastestHealthyURL hm urls
  = if Spec.leastIsAnHour hm urls then ""
    else Spec.selectFastestHealthy hm urls.
Proof.
  intros Hm. unfold proxy.GetFastestHealthyURL, Spec.leastIsAnHour,
    Spec.selectFastestHealthy.
  destruct (List.find _ urls) as [u|] eqn:Hfind.
  - now rewrite (selectLoop_missing hm urls _ u Hfind).
  - destruct (selectLoop_all_records hm urls proxy.fastestInit Hfind)
      as (st' & -> & Hbest & Hcount).
    rewrite (healthyWithTime_metric hm urls Hm) in Hbest, Hcount.
    simpl in Hbest, Hcount.
    destruct (Spec.healthyWithMetric hm urls) as [|c rest].
    + simpl in Hcount. rewrite Hcount. simpl.
      destruct urls; [now inversion Hbest | reflexivity].
    + assert (Hpos : (proxy.healthyCount st' =? 0) = false).
      { apply Z.eqb_neq. rewrite Hcount. simpl length. lia. }
      rewrite Hpos. rewrite leastMetric_cons in Hbest. simpl snd in Hbest.
      rewrite Z.leb_antisym.
      destruct (snd (Spec.leastMetric c rest) <? time.Hour); simpl;
        destruct urls; now inversion Hbest.
Qed.

(** ** Health records *)

Lemma wrap_in_range (z : Z) : Int64.in_range z -> Int64.wrap z = z.
Proof.
  unfold Int64.in_range, Int64.wrap, Int64.min_int64, Int64.max_int64.
  intros H. rewrite Z.mod_small; lia.
Qed.

Lemma wrap_small (z : Z) : 0 <= z <= Int64.max_int64 -> Int64.wrap z = z.
Proof.
  intros H. apply wrap_in_range.
  unfold Int64.in_range, Int64.min_int64, Int64.max_int64 in *. lia.
Qed.

Lemma fits_in_range (z : Z) : Spec.fits z = true <-> Int64.in_range z.
Proof.
  unfold Spec.fits, Int64.in_range. rewrite andb_true_iff, !Z.leb_le. tauto.
Qed.

Lemma wrap_fits (z : Z) : Spec.fits z = true -> Int64.wrap z = z.
Proof. intros H. now apply wrap_in_range, fits_in_range. Qed.

(** Without overflow the moving average is the truncated quotient of the
    recurrence. *)
Lemma movingAverage_exact (avg n t : Z) :
  0 <= avg -> 1 <= n -> 0 <= t ->
  Spec.fits (n - 1) = true ->
  Spec.fits (avg * (n - 1)) = true ->
  Spec.fits (avg * (n - 1) + t) = true ->
  proxy.movingAverage avg n t = (avg * (n - 1) + t) / n.
Proof.
  intros Ha Hn Ht H1 H2 H3. unfold proxy.movingAverage.
  rewrite (wrap_fits _ H1), (wrap_fits _ H2), (wrap_fits _ H3).
  assert (Hp : 0 <= avg * (n - 1)) by nia.
  rewrite Z.quot_div_nonneg by lia.
  apply fits_in_range in H3. apply wrap_in_range.
  unfold Int64.in_range, Int64.min_int64 in *. split.
  - pose proof (Z.div_pos (avg * (n - 1) + t) n ltac:(lia) ltac:(lia)). lia.
  - etransitivity; [|apply H3]. apply Z.div_le_upper_bound; nia.
Qed.

Lemma sum_app (ts : list Z) (t : Z) : Spec.sum (ts ++ [t]) = Spec.sum ts + t.
Proof.
  unfold Spec.sum. induction ts as [|x ts IH]; simpl; [lia|]. rewrite IH. lia.
Qed.

(** What [exactUpdate] says, operation by operation. *)
Lemma exactUpdate_spec (h : proxy.URLHealth) (isHealthy : bool) (t : Z) :
  Spec.exactUpdate h isHealthy t = true ->
  Spec.fits (proxy.TotalChecks h + 1) = true
  /\ (isHealthy = false -> Spec.fits (proxy.ErrorCount h + 1) = true)
  /\ ((0 <? t) && isHealthy = true ->
      let n := proxy.SuccessChecks h + 1 in
      Spec.fits n = true
      /\ (n <> 1 ->
          Spec.fits (n - 1) = true
          /\ Spec.fits (proxy.AverageTime h * (n - 1)) = true
          /\ Spec.fits (proxy.AverageTime h * (n - 1) + t) = true)).
Proof.
  unfold Spec.exactUpdate. intros H.
  apply andb_true_iff in H as [H Havg]. apply andb_true_iff in H as [HT HE].
  split; [exact HT|]. split.
  - intros ->. exact HE.
  - intros Hc. rewrite Hc in Havg. cbv zeta in Havg |- *. simpl in Havg.
    apply andb_true_iff in Havg as [HS Hterms]. split; [exact HS|].
    intros Hn. apply Z.eqb_neq in Hn. rewrite Hn in Hterms. simpl in Hterms.
    apply andb_true_iff in Hterms as [Hterms H3].
    apply andb_true_iff in Hterms as [H1 H2]. auto.
Qed.

(** The fields of an updated record, when nothing overflows. *)
Lemma updateRecord_counts (h : proxy.URLHealth) (isHealthy : bool)
    (t now : Z) :
  Spec.healthInv h -> Spec.exactUpdate h isHealthy t = true ->
  let h' := proxy.updateRecord h isHealthy t now in
  let counted := (0 <? t) && isHealthy in
  proxy.TotalChecks h' = proxy.TotalChecks h + 1
  /\ proxy.SuccessChecks h'
     = (if counted then proxy.SuccessChecks h + 1 else proxy.SuccessChecks h)
  /\ proxy.AverageTime h'
     = (if counted
        then (proxy.AverageTime h * proxy.SuccessChecks h + t)
             / (proxy.SuccessChecks h + 1)
        else proxy.AverageTime h)
  /\ proxy.MaxTime h' = Z.max (proxy.MaxTime h) (if 0 <? t then t else 0).
Proof.
  intros (Hs & Ha & Hz & Hp) Hex.
  apply exactUpdate_spec in Hex as (HT & _ & Hc). simpl.
  split; [now apply wrap_fits|].
  destruct (0 <? t) eqn:Htpos; simpl.
  2:{ repeat split; try reflexivity. lia. }
  apply Z.ltb_lt in Htpos.
  assert (Hmax : (if proxy.MaxTime h <? t then t else proxy.MaxTime h)
                 = Z.max (proxy.MaxTime h) t).
  { destruct (proxy.MaxTime h <? t) eqn:Hlt;
      rewrite ?Z.ltb_lt, ?Z.ltb_ge in Hlt; lia. }
  destruct isHealthy; [|now repeat split].
  destruct (Hc eq_refl) as [HS Hterms]. cbv zeta in HS, Hterms.
  rewrite (wrap_fits _ HS).
  split; [reflexivity|]. split; [|exact Hmax].
  destruct (proxy.SuccessChecks h + 1 =? 1) eqn:H1.
  - apply Z.eqb_eq in H1. assert (H0 : proxy.SuccessChecks h = 0) by lia.
    rewrite H0, (Hz H0). simpl. now rewrite Z.div_1_r.
  - apply Z.eqb_neq in H1. destruct (Hterms H1) as (F1 & F2 & F3).
    rewrite movingAverage_exact; try assumption; try lia.
    f_equal. f_equal. f_equal. lia.
Qed.

Lemma updateRecord_healthInv (h : proxy.URLHealth) (isHealthy : bool)
    (t now : Z) :
  Spec.healthInv h -> Spec.exactUpdate h isHealthy t = true ->
  Spec.healthInv (proxy.updateRecord h isHealthy t now).
Proof.
  intros Hinv Hex.
  destruct (updateRecord_counts h isHealthy t now Hinv Hex)
    as (HT & HS & HA & HM).
  destruct Hinv as (Hs & Ha & Hz & Hp).
  unfold Spec.healthInv. rewrite HT, HS, HA, HM.
  destruct ((0 <? t) && isHealthy) eqn:Hc.
  - apply andb_true_iff in Hc as [Htpos _]. rewrite Htpos.
    apply Z.ltb_lt in Htpos.
    set (s := proxy.SuccessChecks h) in *.
    set (a := proxy.AverageTime h) in *.
    set (M := proxy.MaxTime h) in *.
    assert (Hlow : 1 <= (a * s + t) / (s + 1)).
    { apply Z.div_le_lower_bound; [lia|].
      destruct (Z.eq_dec s 0) as [H0|H0]; [rewrite H0; lia|].
      assert (1 <= a) by (apply Hp; lia). nia. }
    assert (Hup : (a * s + t) / (s + 1) <= Z.max M t).
    { apply Z.div_le_upper_bound; [lia|]. nia. }
    repeat split; try lia.
  - repeat split; lia.
Qed.

Lemma updateRecord_meanInv (h : proxy.URLHealth) (isHealthy : bool)
    (t now : Z) (ts : list Z) :
  Spec.healthInv h -> Spec.exactUpdate h isHealthy t = true ->
  Spec.meanInv ts h ->
  Spec.meanInv (if (0 <? t) && isHealthy then ts ++ [t] else ts)
    (proxy.updateRecord h isHealthy t now).
Proof.
  intros Hinv Hex (Hlen & Hle & Hge).
  destruct (updateRecord_counts h isHealthy t now Hinv Hex)
    as (HT & HS & HA & HM).
  destruct Hinv as (Hs & Ha & Hz & Hp).
  unfold Spec.meanInv. rewrite HS, HA.
  destruct ((0 <? t) && isHealthy) eqn:Hc; [|auto].
  apply andb_true_iff in Hc as [Htpos _]. apply Z.ltb_lt in Htpos.
  rewrite length_app, Nat2Z.inj_add, sum_app. simpl length.
  change (Z.of_nat 1) with 1.
  set (k := Z.of_nat (length ts)) in *.
  set (a := proxy.AverageTime h) in *.
  rewrite Hlen.
  assert (Hk : 0 <= k) by lia.
  pose proof (Z.div_mod (a * k + t) (k + 1) ltac:(lia)) as Hdm.
  pose proof (Z.mod_pos_bound (a * k + t) (k + 1) ltac:(lia)) as Hr.
  set (q := (a * k + t) / (k + 1)) in *.
  set (r := (a * k + t) mod (k + 1)) in *.
  repeat split; nia.
Qed.

Lemma monitor_snoc (ops : list Spec.HealthOp) (op : Spec.HealthOp) :
  Spec.monitor (ops ++ [op]) = Spec.applyOp (Spec.monitor ops) op.
Proof. unfold Spec.monitor. now rewrite fold_left_app. Qed.

Lemma successTimes_app (u : string) (ops ops' : list Spec.HealthOp) :
  Spec.successTimes u (ops ++ ops')
  = Spec.successTimes u ops ++ Spec.successTimes u ops'.
Proof.
  induction ops as [|op ops IH]; simpl; [reflexivity|].
  destruct op as [v now | v [] t now]; try exact IH.
  destruct (String.eqb v u && (0 <? t)); simpl; now rewrite IH.
Qed.

Lemma exactFrom_app (hm : gmap string proxy.URLHealth)
    (ops ops' : list Spec.HealthOp) :
  Spec.exactFrom hm (ops ++ ops')
  = Spec.exactFrom hm ops
    && Spec.exactFrom (fold_left Spec.applyOp ops hm) ops'.
Proof.
  revert hm. induction ops as [|op ops IH]; intros hm; simpl; [reflexivity|].
  now rewrite IH, andb_assoc.
Qed.

(** A run without overflow is one whose every operation, taken on the
    map the earlier ones leave, computes without overflow. *)
Lemma exactRun_snoc (ops : list Spec.HealthOp) (op : Spec.HealthOp) :
  Spec.exactRun (ops ++ [op])
  <-> Spec.exactRun ops /\ Spec.exactOp (Spec.monitor ops) op = true.
Proof.
  unfold Spec.exactRun, Spec.monitor. rewrite exactFrom_app. simpl.
  now rewrite andb_true_r, andb_true_iff.
Qed.

Lemma fresh_record_inv (u : string) (healthy : bool) (now minT : Z) :
  let h := {| proxy.URL := u; proxy.IsHealthy := healthy;
              proxy.ResponseTime := 0; proxy.LastCheck := now;
              proxy.ErrorCount := 0; proxy.TotalChecks := 0;
              proxy.SuccessChecks := 0; proxy.AverageTime := 0;
              proxy.MinTime := minT; proxy.MaxTime := 0 |} in
  Spec.healthInv h /\ Spec.meanInv [] h.
Proof.
  unfold Spec.healthInv, Spec.meanInv, Spec.sum. simpl. repeat split; lia.
Qed.

(** What holds of every record of the map after a run without overflow. *)
Lemma monitor_invariant (ops : list Spec.HealthOp) :
  Spec.exactRun ops ->
  forall u,
    match Spec.monitor ops !! u with
    | Some h => Spec.healthInv h /\ Spec.meanInv (Spec.successTimes u ops) h
    | None => Spec.successTimes u ops = []
    end.
Proof.
  induction ops as [|op ops IH] using rev_ind; intros Hrun u.
  - unfold Spec.monitor, proxy.NewHealthChecker. simpl.
    now rewrite lookup_empty.
  - apply exactRun_snoc in Hrun as [Hrun Hop].
    specialize (IH Hrun).
    rewrite monitor_snoc, successTimes_app.
    destruct op as [v now | v isHealthy t now]; simpl Spec.applyOp.
    + simpl Spec.successTimes. rewrite app_nil_r.
      unfold proxy.initializeURLHealth.
      destruct (Spec.monitor ops !! v) eqn:Hv; [apply IH|].
      destruct (decide (v = u)) as [->|Hne].
      * rewrite lookup_insert_eq. pose proof (IH u) as Hu. rewrite Hv in Hu.
        rewrite Hu. apply fresh_record_inv.
      * rewrite lookup_insert_ne by exact Hne. apply IH.
    + unfold proxy.updateHealthStatus. simpl in Hop.
      destruct (decide (v = u)) as [->|Hne].
      * rewrite lookup_insert_eq.
        assert (Hold : Spec.healthInv (proxy.healthOrNew (Spec.monitor ops) u)
                       /\ Spec.meanInv (Spec.successTimes u ops)
                            (proxy.healthOrNew (Spec.monitor ops) u)).
        { unfold proxy.healthOrNew. specialize (IH u).
          destruct (Spec.monitor ops !! u); [exact IH|]. rewrite IH.
          apply fresh_record_inv. }
        destruct Hold as [Hi Hm]. split.
        -- now apply updateRecord_healthInv.
        -- pose proof (updateRecord_meanInv _ isHealthy t now _ Hi Hop Hm) as H.
           simpl Spec.successTimes. rewrite String.eqb_refl.
           destruct isHealthy; simpl in *.
           ++ destruct (0 <? t); simpl in *; [exact H|].
              now rewrite app_nil_r.
           ++ rewrite andb_false_r in H. now rewrite app_nil_r.
      * rewrite lookup_insert_ne by exact Hne.
        assert (Hnone : Spec.successTimes u [Spec.Update v isHealthy t now] = []).
        { simpl. apply String.eqb_neq in Hne. rewrite Hne.
          now destruct isHealthy. }
        rewrite Hnone, app_nil_r. apply IH.
Qed.

(** For a record kept by the monitor the average is positive exactly when
    a successful probe was counted, so the code's choice of time is the
    preferred metric. *)
Lemma monitored_metric (ops : list Spec.HealthOp) :
  Spec.exactRun ops ->
  forall u h, Spec.monitor ops !! u = Some h ->
              proxy.responseTimeToUse h = Spec.preferredMetric h.
Proof.
  intros Hrun u h Hu. pose proof (monitor_invariant ops Hrun u) as H.
  rewrite Hu in H. destruct H as [(Hs & Ha & Hz & Hp) _].
  unfold proxy.responseTimeToUse, Spec.preferredMetric.
  destruct (1 <=? proxy.SuccessChecks h) eqn:H1;
    rewrite ?Z.leb_le, ?Z.leb_gt in H1.
  - assert (H0 : (0 <? proxy.AverageTime h) = true)
      by (apply Z.ltb_lt; specialize (Hp H1); lia).
    now rewrite H0.
  - rewrite Hz by lia. reflexivity.
Qed.

Lemma healthyWithMetric_In (hm : gmap string proxy.URLHealth)
    (urls : list string) (u : string) (m : Z) :
  In (u, m) (Spec.healthyWithMetric hm urls)
  <-> In u urls
      /\ exists h, hm !! u = Some h /\ proxy.IsHealthy h = true
                   /\ m = Spec.preferredMetric h.
Proof.
  induction urls as [|v rest IH]; simpl.
  - split; [tauto | now intros [[] _]].
  - destruct (hm !! v) as [hv|] eqn:Hv.
    + destruct (proxy.IsHealthy hv) eqn:Hh; simpl; rewrite IH; split.
      * intros [[= <- <-] | [Hin Hex]]; [|tauto].
        split; [now left|]. now exists hv.
      * intros [[<- | Hin] (h & Hu & Hhe & ->)].
        -- left. congruence.
        -- right. split; [exact Hin | now exists h].
      * intros [Hin Hex]. tauto.
      * intros [[<- | Hin] (h & Hu & Hhe & ->)]; [congruence|].
        split; [exact Hin | now exists h].
    + rewrite IH. split; [tauto|].
      intros [[<- | Hin] (h & Hu & Hhe & ->)]; [congruence|].
      split; [exact Hin | now exists h].
Qed.

(** The last and the largest response time of a record are among the
    response times of the run (or 0). *)
Lemma monitor_times_below (B : Z) (ops : list Spec.HealthOp) :
  0 < B -> Forall (fun op => Spec.responseTimeOf op < B) ops ->
  forall u h, Spec.monitor ops !! u = Some h ->
              proxy.ResponseTime h < B /\ proxy.MaxTime h < B.
Proof.
  intros HB. induction ops as [|op ops IH] using rev_ind; intros Hall u h.
  - unfold Spec.monitor, proxy.NewHealthChecker. simpl.
    now rewrite lookup_empty.
  - apply Forall_app in Hall as [Hops Hop].
    inversion Hop as [|? ? HtB _]; subst.
    specialize (IH Hops). rewrite monitor_snoc.
    destruct op as [v now | v isHealthy t now]; simpl.
    + unfold proxy.initializeURLHealth.
      destruct (Spec.monitor ops !! v) eqn:Hv; [apply IH|].
      destruct (decide (v = u)) as [->|Hne].
      * rewrite lookup_insert_eq. intros [= <-]. simpl. lia.
      * rewrite lookup_insert_ne by exact Hne. apply IH.
    + unfold proxy.updateHealthStatus. simpl in HtB.
      destruct (decide (v = u)) as [->|Hne].
      * rewrite lookup_insert_eq. intros [= <-]. simpl.
        split; [exact HtB|].
        assert (Hold :
          proxy.MaxTime (proxy.healthOrNew (Spec.monitor ops) u) < B).
        { unfold proxy.healthOrNew.
          destruct (Spec.monitor ops !! u) as [h0|] eqn:Hu; [|simpl; lia].
          apply (IH u h0 Hu). }
        destruct ((0 <? t) && _); lia.
      * rewrite lookup_insert_ne by exact Hne. apply IH.
Qed.

(** When every response time is below an hour, so is every metric. *)
Lemma monitored_below_an_hour (ops : list Spec.HealthOp) (urls : list string) :
  Spec.exactRun ops ->
  Forall (fun op => Spec.responseTimeOf op < time.Hour) ops ->
  Spec.leastIsAnHour (Spec.monitor ops) urls = false.
Proof.
  intros Hrun Hall. unfold Spec.leastIsAnHour.
  destruct (List.find _ urls); [reflexivity|].
  destruct (Spec.healthyWithMetric (Spec.monitor ops) urls) as [|c rest] eqn:Hc;
    [reflexivity|].
  apply Z.leb_gt. destruct (leastMetric_least c rest) as [Hin _].
  rewrite <- Hc in Hin. destruct (Spec.leastMetric c rest) as [u m].
  apply healthyWithMetric_In in Hin as (_ & h & Hu & _ & ->). simpl.
  destruct (monitor_times_below time.Hour ops ltac:(reflexivity) Hall u h Hu)
    as [Hr HM].
  pose proof (monitor_invariant ops Hrun u) as Hi. rewrite Hu in Hi.
  destruct Hi as [(_ & Ha & _) _].
  unfold Spec.preferredMetric. destruct (1 <=? proxy.SuccessChecks h); lia.
Qed.

(** *** The time a probe records *)

Section ProbeTime.
Variable srv : proxy.Server.

(** Every request is answered, or given up, within [timeout]: the client
    of [NewHealthChecker] has a timeout of 5 s and every request a
    deadline of 3 s. *)
Variable timeout : Z.
Hypothesis answered_in_time :
  forall sent u, 0 <= snd (srv sent u) <= timeout.

Section OneProbe.
Variable baseURL healthPath : string.

Lemma tryHealthCheckURL_time (path : string) (start : Z) (st : proxy.Net) :
  let '((_, responseTime, _), st') :=
    proxy.tryHealthCheckURL srv baseURL path start st in
  responseTime = proxy.clock st' - start
  /\ proxy.clock st <= proxy.clock st' <= proxy.clock st + timeout.
Proof.
  unfold proxy.tryHealthCheckURL.
  pose proof (answered_in_time (proxy.sent st) (proxy.healthURL baseURL path))
    as H.
  destruct (srv (proxy.sent st) (proxy.healthURL baseURL path))
    as [[code|] took]; simpl in *; split; try reflexivity; lia.
Qed.

Lemma tryCommonPaths_time (start : Z) (paths : list string) :
  forall st,
    let '(found, st') :=
      proxy.tryCommonPaths srv baseURL healthPath start paths st in
    proxy.clock st <= proxy.clock st'
    <= proxy.clock st + Z.of_nat (length paths) * timeout
    /\ forall responseTime,
         found = Some responseTime -> responseTime = proxy.clock st' - start.
Proof.
  pose proof (answered_in_time [] "") as H0.
  induction paths as [|path rest IH]; intros st.
  - simpl. split; [lia | discriminate].
  - cbn [proxy.tryCommonPaths length]. rewrite Nat2Z.inj_succ.
    destruct (negb (String.eqb path healthPath)).
    + pose proof (tryHealthCheckURL_time path start st) as H.
      destruct (proxy.tryHealthCheckURL srv baseURL path start st)
        as [[[healthy rt] code] st1].
      destruct H as [Hrt Hclock]. destruct healthy.
      * split; [nia | now intros ? [= <-]].
      * specialize (IH st1).
        destruct (proxy.tryCommonPaths srv baseURL healthPath start rest st1)
          as [found st2].
        destruct IH as [Hc Hf]. split; [nia | exact Hf].
    + specialize (IH st).
      destruct (proxy.tryCommonPaths srv baseURL healthPath start rest st)
        as [found st2].
      destruct IH as [Hc Hf]. split; [nia | exact Hf].
Qed.

Lemma strategy4_time (start : Z) (st : proxy.Net) :
  let '((_, responseTime, _), st') :=
    proxy.strategy4 srv baseURL healthPath start st in
  responseTime = proxy.clock st' - start
  /\ proxy.clock st <= proxy.clock st' <= proxy.clock st + timeout.
Proof.
  unfold proxy.strategy4.
  pose proof (tryHealthCheckURL_time healthPath start st) as H.
  destruct (proxy.tryHealthCheckURL srv baseURL healthPath start st)
    as [[[healthy rt] code] st1].
  destruct (code =? 404); [exact H|]. split; [reflexivity | apply H].
Qed.

Lemma strategy3_time (start : Z) (st : proxy.Net) :
  let '((_, responseTime, _), st') :=
    proxy.strategy3 srv baseURL healthPath start st in
  responseTime = proxy.clock st' - start
  /\ proxy.clock st <= proxy.clock st' <= proxy.clock st + 5 * timeout.
Proof.
  unfold proxy.strategy3.
  pose proof (tryCommonPaths_time start proxy.commonPaths st) as H.
  destruct (proxy.tryCommonPaths srv baseURL healthPath start
              proxy.commonPaths st) as [[rt|] st1].
  - destruct H as [Hc Hf]. simpl in Hc. split; [now apply Hf | lia].
  - pose proof (strategy4_time start st1) as H4.
    destruct (proxy.strategy4 srv baseURL healthPath start st1)
      as [[[healthy rt] msg] st2].
    destruct H as [Hc _]. simpl in Hc. split; [apply H4 | lia].
Qed.

Lemma strategy2_time (start : Z) (st : proxy.Net) :
  let '((_, responseTime, _), st') :=
    proxy.strategy2 srv baseURL healthPath start st in
  responseTime = proxy.clock st' - start
  /\ proxy.clock st <= proxy.clock st' <= proxy.clock st + 6 * timeout.
Proof.
  pose proof (answered_in_time [] "") as H0.
  unfold proxy.strategy2.
  assert (H3 : forall st0,
    let '((_, responseTime, _), st') :=
      proxy.strategy3 srv baseURL healthPath start st0 in
    responseTime = proxy.clock st' - start
    /\ proxy.clock st0 <= proxy.clock st' <= proxy.clock st0 + 5 * timeout)
    by (intros; apply strategy3_time).
  destruct (negb (String.eqb healthPath "/")).
  - pose proof (tryHealthCheckURL_time "/" start st) as H.
    destruct (proxy.tryHealthCheckURL srv baseURL "/" start st)
      as [[[healthy rt] code] st1].
    destruct healthy; [split; [apply H | lia]|].
    specialize (H3 st1).
    destruct (proxy.strategy3 srv baseURL healthPath start st1)
      as [[[healthy rt3] msg] st2].
    split; [apply H3 | lia].
  - specialize (H3 st).
    destruct (proxy.strategy3 srv baseURL healthPath start st)
      as [[[healthy rt3] msg] st2].
    split; [apply H3 | lia].
Qed.

(** A probe makes at most seven requests, and the time it reports is the
    time they took. *)
Lemma performHealthCheck_time (st : proxy.Net) :
  let '((_, responseTime, _), st') :=
    proxy.performHealthCheck srv baseURL healthPath st in
  responseTime = proxy.clock st' - proxy.clock st
  /\ 0 <= responseTime <= 7 * timeout.
Proof.
  pose proof (answered_in_time [] "") as H0.
  unfold proxy.performHealthCheck.
  assert (H2 : forall st0,
    let '((_, responseTime, _), st') :=
      proxy.strategy2 srv baseURL healthPath (proxy.clock st) st0 in
    responseTime = proxy.clock st' - proxy.clock st
    /\ proxy.clock st0 <= proxy.clock st' <= proxy.clock st0 + 6 * timeout)
    by (intros; apply strategy2_time).
  destruct (negb (String.eqb healthPath "")
            && negb (String.eqb healthPath "/")).
  - pose proof (tryHealthCheckURL_time healthPath (proxy.clock st) st) as H.
    destruct (proxy.tryHealthCheckURL srv baseURL healthPath (proxy.clock st)
                st) as [[[healthy rt] code] st1].
    destruct healthy; [split; [apply H | lia]|].
    specialize (H2 st1).
    destruct (proxy.strategy2 srv baseURL healthPath (proxy.clock st) st1)
      as [[[healthy rt2] msg] st2].
    split; [apply H2 | lia].
  - specialize (H2 st).
    destruct (proxy.strategy2 srv baseURL healthPath (proxy.clock st) st)
      as [[[healthy rt2] msg] st2].
    split; [apply H2 | lia].
Qed.

(** [checkURLHealth] is one update of the health map, with a response
    time of at most seven timeouts. *)
Lemma checkURLHealth_time (hm : proxy.HealthMap) (st : proxy.Net) :
  exists isHealthy responseTime now,
    fst (proxy.checkURLHealth srv hm baseURL healthPath st)
    = Spec.applyOp hm (Spec.Update baseURL isHealthy responseTime now)
    /\ 0 <= responseTime <= 7 * timeout.
Proof.
  unfold proxy.checkURLHealth.
  pose proof (performHealthCheck_time st) as H.
  destruct (proxy.performHealthCheck srv baseURL healthPath st)
    as [[[isHealthy rt] msg] st'].
  exists isHealthy, rt, (proxy.clock st'). split; [reflexivity | apply H].
Qed.

End OneProbe.

(** The map after any run of the health checker is the map of a run of
    updates whose response times are at most seven timeouts. *)
Lemma run_monitor (steps : list health_check.Step) (st : proxy.Net) :
  exists ops,
    fst (health_check.run srv steps st) = Spec.monitor ops
    /\ Forall (fun op => 0 <= Spec.responseTimeOf op <= 7 * timeout) ops.
Proof.
  pose proof (answered_in_time [] "") as H0.
  induction steps as [|s steps IH] using rev_ind.
  - exists []. split; [reflexivity | constructor].
  - destruct IH as (ops & Hmap & Hall). unfold health_check.run in *.
    rewrite fold_left_app. cbn [fold_left].
    destruct (fold_left (health_check.step srv) steps
                (proxy.NewHealthChecker, st)) as [hm st1].
    cbn [fst] in Hmap. subst hm.
    destruct s as [u now | base path]; cbn [health_check.step fst snd].
    + exists (ops ++ [Spec.Initialize u now]). rewrite monitor_snoc.
      split; [reflexivity|]. apply Forall_app. split; [exact Hall|].
      repeat constructor; simpl; lia.
    + destruct (checkURLHealth_time base path (Spec.monitor ops) st1)
        as (isHealthy & rt & now & Hop & Hrt).
      exists (ops ++ [Spec.Update base isHealthy rt now]).
      rewrite monitor_snoc, Hop. split; [reflexivity|].
      apply Forall_app. split; [exact Hall|].
      constructor; [exact Hrt | constructor].
Qed.

End ProbeTime.

(** C3. On every health map the monitor builds, in a run without
    overflow whose response times are below an hour, the selector
    returns what the claim describes: the first URL without a record;
    otherwise the first healthy URL of least preferred metric, the
    metric being the rolling average when a successful probe was counted
    and the last response time otherwise; otherwise the first URL. The
    time the code weighs, the average when positive, is that metric. A
    route with exactly one URL gets that URL whatever the health map
    holds. The response times the probes record are below an hour: a
    probe makes at most seven requests and reports the time they took,
    each of them being given up after seconds; so the map after any run
    of the health checker is one of those maps, as far as the response
    times go. *)
Theorem GetFastestHealthyURL_selection (ops : list Spec.HealthOp) :
  Spec.exactRun ops ->
  Forall (fun op => Spec.responseTimeOf op < time.Hour) ops ->
  let hm := Spec.monitor ops in
  (forall urls,
      proxy.GetFastestHealthyURL hm urls = Spec.selectFastestHealthy hm urls)
  /\ (forall urls u,
        List.find (fun u => bool_decide (hm !! u = None)) urls = Some u ->
        proxy.GetFastestHealthyURL hm urls = u)
  /\ (forall urls c rest,
        List.find (fun u => bool_decide (hm !! u = None)) urls = None ->
        Spec.healthyWithMetric hm urls = c :: rest ->
        proxy.GetFastestHealthyURL hm urls = fst (Spec.leastMetric c rest))
  /\ (forall first others,
        (forall u, In u (first :: others) ->
                   exists h, hm !! u = Some h /\ proxy.IsHealthy h = false) ->
        proxy.GetFastestHealthyURL hm (first :: others) = first)
  /\ (forall u h, hm !! u = Some h ->
                  proxy.responseTimeToUse h = Spec.preferredMetric h)
  /\ (forall urls u m,
        In (u, m) (Spec.healthyWithMetric hm urls)
        <-> In u urls
            /\ exists h, hm !! u = Some h /\ proxy.IsHealthy h = true
                         /\ m = Spec.preferredMetric h)
  /\ (forall c rest,
        In (Spec.leastMetric c rest) (c :: rest)
        /\ forall x, In x (c :: rest) -> snd (Spec.leastMetric c rest) <= snd x)
  /\ (forall anyMap target u,
        config.TargetURLs target = [u] ->
        proxy.selectFastestURL anyMap target = u)
  /\ (forall srv timeout baseURL healthPath anyMap st,
        (forall sent u, 0 <= snd (srv sent u) <= timeout) ->
        7 * timeout < time.Hour ->
        exists isHealthy responseTime now,
          fst (proxy.checkURLHealth srv anyMap baseURL healthPath st)
          = Spec.applyOp anyMap
              (Spec.Update baseURL isHealthy responseTime now)
          /\ 0 <= responseTime < time.Hour)
  /\ (forall srv timeout steps st,
        (forall sent u, 0 <= snd (srv sent u) <= timeout) ->
        7 * timeout < time.Hour ->
        exists updates,
          fst (health_check.run srv steps st) = Spec.monitor updates
          /\ Forall (fun op => Spec.responseTimeOf op < time.Hour) updates).
Proof.
  intros Hrun Hall hm.
  assert (Heq : forall urls,
    proxy.GetFastestHealthyURL hm urls = Spec.selectFastestHealthy hm urls).
  { intros urls.
    rewrite GetFastestHealthyURL_eq by exact (monitored_metric ops Hrun).
    unfold hm. now rewrite (monitored_below_an_hour ops urls Hrun Hall). }
  split; [exact Heq|].
  split.
  { intros urls u Hfind. rewrite Heq. unfold Spec.selectFastestHealthy.
    now rewrite Hfind. }
  split.
  { intros urls c rest Hfind Hc. rewrite Heq. unfold Spec.selectFastestHealthy.
    now rewrite Hfind, Hc. }
  split.
  { intros first others Hnone. rewrite Heq. unfold Spec.selectFastestHealthy.
    assert (Hfind : List.find (fun u => bool_decide (hm !! u = None))
                      (first :: others) = None).
    { destruct (List.find _ (first :: others)) as [u|] eqn:Hf; [|reflexivity].
      apply List.find_some in Hf as [Hu Hmissing].
      destruct (Hnone u Hu) as (h & Hh & _).
      apply bool_decide_eq_true_1 in Hmissing. congruence. }
    rewrite Hfind.
    destruct (Spec.healthyWithMetric hm (first :: others)) as [|[u m] rest]
      eqn:Hc; [reflexivity|].
    assert (Hin : In (u, m) (Spec.healthyWithMetric hm (first :: others)))
      by (rewrite Hc; now left).
    apply healthyWithMetric_In in Hin as (Hu & h & Hh & Hhealthy & _).
    destruct (Hnone u Hu) as (h' & Hh' & Hun). congruence. }
  split; [exact (monitored_metric ops Hrun)|].
  split; [apply healthyWithMetric_In|].
  split; [exact leastMetric_least|].
  split.
  { intros anyMap target u H. unfold proxy.selectFastestURL. now rewrite H. }
  split.
  { intros srv timeout baseURL healthPath anyMap st Htime Hshort.
    destruct (checkURLHealth_time srv timeout Htime baseURL healthPath anyMap
                st) as (isHealthy & rt & now & Hop & Hrt).
    exists isHealthy, rt, now. split; [exact Hop | lia]. }
  intros srv timeout steps st Htime Hshort.
  destruct (run_monitor srv timeout Htime steps st) as (updates & Hmap & Hup).
  exists updates. split; [exact Hmap|].
  eapply Forall_impl; [exact Hup|]. intros op Hop. simpl in Hop. lia.
Qed.

(** Beside C3: the loop starts from [fastestTime = time.Hour] and takes a
    time only if it is smaller, so a healthy URL with an average of two
    hours, which no probe records, would not be returned. *)
Lemma GetFastestHealthyURL_hour_sentinel :
  let hm := Spec.monitor
              [Spec.Update "http://a" true (2 * time.Hour) 1;
               Spec.Update "http://b" false 1000 2] in
  proxy.GetFastestHealthyURL hm ["http://a"; "http://b"] = ""
  /\ Spec.selectFastestHealthy hm ["http://a"; "http://b"] = "http://a".
Proof. vm_compute. split; reflexivity. Qed.

(** C3 at work (scenario 5): of two healthy URLs with averages of 50 ms
    and 200 ms the first is selected; a URL that has no record yet goes
    before both. *)
Lemma GetFastestHealthyURL_selection_witness :
  let ops := [Spec.Update "http://a" true 50000000 1;
              Spec.Update "http://b" true 200000000 2] in
  proxy.GetFastestHealthyURL (Spec.monitor ops) ["http://b"; "http://a"]
  = "http://a"
  /\ proxy.GetFastestHealthyURL (Spec.monitor ops)
       ["http://b"; "http://c"; "http://a"]
     = "http://c".
Proof.
  intros ops.
  assert (Hrun : Spec.exactRun ops) by (vm_compute; reflexivity).
  assert (Hall : Forall (fun op => Spec.responseTimeOf op < time.Hour) ops)
    by (repeat constructor).
  destruct (GetFastestHealthyURL_selection ops Hrun Hall) as (Heq & _).
  rewrite !Heq. vm_compute. split; reflexivity.
Defined.

(** ** The invariants of a health record *)

(** One more successful probe: the recurrence of the average. *)
Lemma updateHealthStatus_recurrence (ops : list Spec.HealthOp)
    (u : string) (t now : Z) :
  Spec.exactRun (ops ++ [Spec.Update u true t now]) -> 0 < t ->
  let h := proxy.healthOrNew (Spec.monitor ops) u in
  exists h',
    Spec.monitor (ops ++ [Spec.Update u true t now]) !! u = Some h'
    /\ proxy.SuccessChecks h' = proxy.SuccessChecks h + 1
    /\ proxy.AverageTime h'
       = (proxy.AverageTime h * (proxy.SuccessChecks h' - 1) + t)
         / proxy.SuccessChecks h'.
Proof.
  intros Hrun Ht h. apply exactRun_snoc in Hrun as [Hrun Hop].
  simpl in Hop. fold h in Hop.
  rewrite monitor_snoc. simpl. unfold proxy.updateHealthStatus.
  rewrite lookup_insert_eq. fold h. eexists. split; [reflexivity|].
  assert (Hi : Spec.healthInv h).
  { subst h. unfold proxy.healthOrNew.
    pose proof (monitor_invariant ops Hrun u) as H.
    destruct (Spec.monitor ops !! u); [apply H|]. apply fresh_record_inv. }
  destruct (updateRecord_counts h true t now Hi Hop) as (_ & HS & HA & _).
  assert (Hc : (0 <? t) && true = true)
    by (rewrite andb_true_r; now apply Z.ltb_lt).
  rewrite Hc in HS, HA. rewrite HS, HA. split; [reflexivity|].
  f_equal. f_equal. f_equal. lia.
Qed.

(** C7 (amended). After any run of the monitor in which the 64-bit
    counters and durations do not overflow, every record has
    [SuccessChecks <= TotalChecks] and [0 <= AverageTime <= MaxTime];
    each successful probe with a positive response time [t] recomputes
    the average as the integer quotient [(avg * (n - 1) + t) / n], [n]
    being the new count of successful checks; the average so obtained
    never exceeds the arithmetic mean of the successful response times
    and falls short of it by at most [(n - 1) / 2]. *)
Theorem updateHealthStatus_invariants (ops : list Spec.HealthOp) :
  Spec.exactRun ops ->
  (forall u h, Spec.monitor ops !! u = Some h ->
     proxy.SuccessChecks h <= proxy.TotalChecks h
     /\ 0 <= proxy.AverageTime h <= proxy.MaxTime h
     /\ let ts := Spec.successTimes u ops in
        let n := Z.of_nat (length ts) in
        proxy.SuccessChecks h = n
        /\ proxy.AverageTime h * n <= Spec.sum ts
        /\ 2 * (Spec.sum ts - proxy.AverageTime h * n) <= n * (n - 1))
  /\ (forall ops' u t now,
        ops = ops' ++ [Spec.Update u true t now] -> 0 < t ->
        let h := proxy.healthOrNew (Spec.monitor ops') u in
        exists h',
          Spec.monitor ops !! u = Some h'
          /\ proxy.SuccessChecks h' = proxy.SuccessChecks h + 1
          /\ proxy.AverageTime h'
             = (proxy.AverageTime h * (proxy.SuccessChecks h' - 1) + t)
               / proxy.SuccessChecks h').
Proof.
  intros Hrun. split.
  - intros u h Hu. pose proof (monitor_invariant ops Hrun u) as H.
    rewrite Hu in H. destruct H as [(Hs & Ha & _) Hm].
    split; [lia|]. split; [exact Ha | exact Hm].
  - intros ops' u t now -> Ht. now apply updateHealthStatus_recurrence.
Qed.

(** C7, where the claim fails: three successful probes of 10000001,
    10000002 and 10000003 ns leave an average of 10000001 ns, and their
    arithmetic mean is 10000002 ns. *)
Lemma rolling_average_below_mean :
  let ops := [Spec.Update "http://u" true 10000001 1;
              Spec.Update "http://u" true 10000002 2;
              Spec.Update "http://u" true 10000003 3] in
  (proxy.AverageTime <$> Spec.monitor ops !! "http://u") = Some 10000001
  /\ Spec.mean (Spec.successTimes "http://u" ops) = 10000002
  /\ Spec.sum (Spec.successTimes "http://u" ops) = 3 * 10000002.
Proof. vm_compute. repeat split; reflexivity. Qed.

(** C7 at work on a run of three probes of one URL, the second of them
    failed: two successful checks of three, and an average of 10000001 ns
    between 0 and the largest time, 30000000 ns. *)
Lemma updateHealthStatus_invariants_witness :
  let ops := [Spec.Update "http://u" true 10000001 1;
              Spec.Update "http://u" false 30000000 2;
              Spec.Update "http://u" true 10000002 3] in
  exists h,
    Spec.monitor ops !! "http://u" = Some h
    /\ proxy.SuccessChecks h <= proxy.TotalChecks h
    /\ 0 <= proxy.AverageTime h <= proxy.MaxTime h
    /\ proxy.AverageTime h = (10000001 * (2 - 1) + 10000002) / 2.
Proof.
  intros ops.
  assert (Hrun : Spec.exactRun ops) by (vm_compute; reflexivity).
  destruct (updateHealthStatus_invariants ops Hrun) as [Hinv Hrec].
  destruct (Hrec [Spec.Update "http://u" true 10000001 1;
                  Spec.Update "http://u" false 30000000 2]
              "http://u" 10000002 3 eq_refl ltac:(lia))
    as (h & Hu & HS & HA).
  exists h. split; [exact Hu|].
  destruct (Hinv "http://u" h Hu) as (H1 & H2 & _).
  split; [exact H1|]. split; [exact H2|].
  rewrite HA, HS. vm_compute. reflexivity.
Defined.

(** ** The target URL *)

Lemma TrimSuffix_no_suffix (s suffix : string) :
  (forall a, s <> a +:+ suffix) -> TrimSuffix s suffix = s.
Proof.
  intros Hno. apply TrimSuffix_without.
  destruct (HasSuffix s suffix) eqn:H; [|reflexivity].
  apply HasSuffix_iff in H as [a Ha]. now destruct (Hno a).
Qed.

Lemma finalURL_path_wildcard (requestURL : url.URL)
    (target : config.ProxyTarget) (targetURL : url.URL) (prefix : string) :
  config.Path target = prefix +:+ "*" ->
  url.Path (proxy.finalURL requestURL target targetURL)
  = TrimSuffix (url.Path targetURL) "/" +:+ url.Path requestURL.
Proof.
  intros Hp. unfold proxy.finalURL. simpl.
  assert (H : HasSuffix (config.Path target) "*" = true)
    by (apply HasSuffix_iff; now exists prefix).
  rewrite H.
  destruct (String.eqb_spec (TrimSuffix (url.Path targetURL) "/") "") as [->|];
    reflexivity.
Qed.

Lemma finalURL_path_exact (requestURL : url.URL)
    (target : config.ProxyTarget) (targetURL : url.URL) :
  (forall prefix, config.Path target <> prefix +:+ "*") ->
  url.Path (proxy.finalURL requestURL target targetURL) = url.Path targetURL.
Proof.
  intros Hno. unfold proxy.finalURL. simpl.
  destruct (HasSuffix (config.Path target) "*") eqn:H; [|reflexivity].
  apply HasSuffix_iff in H as [a Ha]. now destruct (Hno a).
Qed.

(** C4. When the upstream base URL parses, the URL built is the string of
    a URL with the base URL's scheme and host, the client's raw query, and
    as path: for a wildcard route the base path, less one trailing [/],
    followed by the whole client path; for an exact route the base path.
    So route [/api/*] with base path [/v] sends [/api/users/42] to
    [/v/api/users/42]. *)
Theorem buildTargetURL_path (url_Parse : string -> result url.URL)
    (URL_String : url.URL -> string) (requestURL : url.URL)
    (target : config.ProxyTarget) (targetURL : url.URL) :
  url_Parse (config.TargetURL target) = Ok targetURL ->
  exists final,
    proxy.buildTargetURL url_Parse URL_String requestURL target
    = Ok (URL_String final)
    /\ url.Scheme final = url.Scheme targetURL
    /\ url.Host final = url.Host targetURL
    /\ url.RawQuery final = url.RawQuery requestURL
    /\ (forall prefix, config.Path target = prefix +:+ "*" ->
          url.Path final
          = TrimSuffix (url.Path targetURL) "/" +:+ url.Path requestURL)
    /\ ((forall prefix, config.Path target <> prefix +:+ "*") ->
          url.Path final = url.Path targetURL)
    /\ (forall base, TrimSuffix (base +:+ "/") "/" = base)
    /\ (forall base, (forall a, base <> a +:+ "/") -> TrimSuffix base "/" = base)
    /\ (config.Path target = "/api/*" -> url.Path targetURL = "/v" ->
        url.Path requestURL = "/api/users/42" ->
        url.Path final = "/v/api/users/42").
Proof.
  intros Hparse. exists (proxy.finalURL requestURL target targetURL).
  split; [unfold proxy.buildTargetURL; now rewrite Hparse|].
  repeat (split; [reflexivity|]).
  split; [intros prefix; apply finalURL_path_wildcard|].
  split; [apply finalURL_path_exact|].
  split; [intros base; apply TrimSuffix_app|].
  split; [intros base; apply TrimSuffix_no_suffix|].
  intros Hp Hv Hr.
  rewrite (finalURL_path_wildcard requestURL target targetURL "/api/" Hp).
  rewrite Hv, Hr. vm_compute. reflexivity.
Qed.

(** C4 at work: the wildcard scenario of the specification. *)
Lemma buildTargetURL_path_witness :
  proxy.buildTargetURL fixtures.url_Parse fixtures.URL_String
    (proxy.RequestURL (fixtures.GET "/api/users/42" "page=2"))
    (fixtures.route "/api/*" "http://u/v" ["http://u/v"])
  = Ok "http://u/v/api/users/42?page=2".
Proof.
  destruct (buildTargetURL_path fixtures.url_Parse fixtures.URL_String
              (proxy.RequestURL (fixtures.GET "/api/users/42" "page=2"))
              (fixtures.route "/api/*" "http://u/v" ["http://u/v"])
              {| url.Scheme := "http"; url.Host := "u"; url.Path := "/v";
                 url.RawQuery := "" |} eq_refl)
    as (final & Hbuild & Hs & Hh & Hq & _ & _ & _ & _ & Hpath).
  rewrite Hbuild. f_equal. unfold fixtures.URL_String.
  rewrite Hs, Hh, Hq, (Hpath eq_refl eq_refl eq_refl). reflexivity.
Defined.

(** ** Forwarding with retry *)

Section Retry.
Variable upperUnicode : string -> string.
Variable url_Parse : string -> result url.URL.
Variable URL_String : url.URL -> string.
Variable upstream : list string -> string -> option string.

Lemma forwardRequest_derives (r : proxy.Request) (target : config.ProxyTarget)
    (targetURL : string) (attempts : list string) :
  proxy.buildTargetURL url_Parse URL_String (proxy.RequestURL r) target
  = Ok targetURL ->
  proxy.forwardRequest url_Parse URL_String upstream r target attempts
  = (upstream attempts targetURL, attempts ++ [targetURL]).
Proof. intros H. unfold proxy.forwardRequest. now rewrite H. Qed.

(** Every iteration of the loop derives the same URL. *)
Lemma retryLoop_same_URL (r : proxy.Request) (target : config.ProxyTarget)
    (targetURL : string) :
  proxy.buildTargetURL url_Parse URL_String (proxy.RequestURL r) target
  = Ok targetURL ->
  forall left lastErr attempts,
  exists k,
    (k <= left)%nat /\ (0 < left -> 0 < k)%nat
    /\ snd (proxy.retryLoop url_Parse URL_String upstream left r target
              lastErr attempts)
       = attempts ++ repeat targetURL k.
Proof.
  intros Hbuild left. induction left as [|left IH]; intros lastErr attempts.
  - exists 0%nat. simpl. rewrite app_nil_r. repeat split; lia.
  - simpl. rewrite (forwardRequest_derives r target targetURL attempts Hbuild).
    destruct (upstream attempts targetURL) as [err|].
    + destruct (proxy.isRetryableError err); simpl.
      * destruct (IH (Some err) (attempts ++ [targetURL])) as (k & Hk & _ & Heq).
        exists (S k). rewrite Heq, <- app_assoc. simpl.
        repeat split; lia.
      * exists 1%nat. simpl. repeat split; lia.
    + exists 1%nat. simpl. repeat split; lia.
Qed.

Lemma forwardRequestWithRetry_same_URL (cfg : config.Config)
    (r : proxy.Request) (target : config.ProxyTarget) (targetURL : string) :
  proxy.buildTargetURL url_Parse URL_String (proxy.RequestURL r) target
  = Ok targetURL ->
  exists k,
    (k <= Z.to_nat (config.MaxRetries cfg + 1))%nat
    /\ (0 <= config.MaxRetries cfg -> (0 < k)%nat)
    /\ snd (proxy.forwardRequestWithRetry url_Parse URL_String upstream cfg r
              target [])
       = repeat targetURL k.
Proof.
  intros Hbuild. unfold proxy.forwardRequestWithRetry. rewrite Hbuild.
  destruct (retryLoop_same_URL r target targetURL Hbuild
              (Z.to_nat (config.MaxRetries cfg + 1)) None [])
    as (k & Hk & Hpos & Heq).
  exists k. split; [exact Hk|]. split; [intros; apply Hpos; lia|].
  destruct (proxy.retryLoop _ _ _ _ _ _ _ _) as [[|] attempts];
    simpl in *; exact Heq.
Qed.

(** The outcome of [ServeHTTP] for a request that matches [target]. *)
Lemma ServeHTTP_matched (cfg : config.Config)
    (hm : gmap string proxy.URLHealth) (r : proxy.Request)
    (target : config.ProxyTarget) :
  proxy.findTarget upperUnicode (config.Targets cfg)
    (url.Path (proxy.RequestURL r)) (proxy.Method r) = Some target ->
  let served :=
    proxy.ServeHTTP upperUnicode url_Parse URL_String upstream cfg hm r in
  let fastest := proxy.selectFastestURL hm target in
  (fastest = ""
   /\ served = {| proxy.response := proxy.HttpError "Service Unavailable" 503;
                  proxy.loggedTarget := None; proxy.attempted := [] |})
  \/ (fastest <> ""
      /\ ((exists e,
             proxy.buildTargetURL url_Parse URL_String (proxy.RequestURL r)
               (config.withTargetURL target fastest) = Err e
             /\ served = {| proxy.response := proxy.HttpError "Bad Gateway" 502;
                            proxy.loggedTarget := None;
                            proxy.attempted := [] |})
          \/ (exists targetURL k,
                proxy.buildTargetURL url_Parse URL_String (proxy.RequestURL r)
                  (config.withTargetURL target fastest) = Ok targetURL
                /\ (k <= Z.to_nat (config.MaxRetries cfg + 1))%nat
                /\ (0 <= config.MaxRetries cfg -> (0 < k)%nat)
                /\ proxy.loggedTarget served = Some targetURL
                /\ proxy.attempted served = repeat targetURL k
                /\ (proxy.response served = proxy.Relayed
                    \/ proxy.response served
                       = proxy.HttpError "Bad Gateway" 502)))).
Proof.
  intros Hfind served fastest. subst served. unfold proxy.ServeHTTP.
  rewrite Hfind. fold fastest.
  destruct (String.eqb_spec fastest "") as [Hempty|Hne]; [left; auto|].
  right. split; [exact Hne|].
  destruct (proxy.buildTargetURL url_Parse URL_String (proxy.RequestURL r)
              (config.withTargetURL target fastest)) as [targetURL|e] eqn:Hb.
  - right.
    destruct (forwardRequestWithRetry_same_URL cfg r
                (config.withTargetURL target fastest) targetURL Hb)
      as (k & Hk & Hpos & Heq).
    exists targetURL, k.
    destruct (proxy.forwardRequestWithRetry _ _ _ _ _ _ _) as [[err|] attempts];
      simpl in *; repeat split; auto.
  - left. now exists e.
Qed.

End Retry.

(** The target handed to the forwarder differs from the route in its
    [TargetURL] only, which is the selected URL. *)
Lemma withTargetURL_fields (target : config.ProxyTarget) (u : string) :
  config.TargetURL (config.withTargetURL target u) = u
  /\ config.Path (config.withTargetURL target u) = config.Path target
  /\ config.TargetURLs (config.withTargetURL target u)
     = config.TargetURLs target
  /\ config.Methods (config.withTargetURL target u) = config.Methods target
  /\ config.Headers (config.withTargetURL target u) = config.Headers target
  /\ config.HTTPProxy (config.withTargetURL target u)
     = config.HTTPProxy target.
Proof. repeat split. Qed.

(** The URL built for the selected target is the selected URL, parsed,
    with the path and query of [finalURL]. *)
Lemma buildTargetURL_selected (url_Parse : string -> result url.URL)
    (URL_String : url.URL -> string) (requestURL : url.URL)
    (target : config.ProxyTarget) (selected targetURL : string) :
  proxy.buildTargetURL url_Parse URL_String requestURL
    (config.withTargetURL target selected) = Ok targetURL
  <-> exists parsed,
        url_Parse selected = Ok parsed
        /\ targetURL = URL_String (proxy.finalURL requestURL target parsed).
Proof.
  unfold proxy.buildTargetURL. simpl config.TargetURL.
  destruct (url_Parse selected) as [parsed|e]; split.
  - intros [= <-]. now exists parsed.
  - intros (parsed' & [= <-] & ->). reflexivity.
  - discriminate.
  - intros (parsed' & H & _). discriminate.
Qed.

(** C10. Whatever the upstream does, the forwarding attempts of one
    request all go to one URL; when there is an attempt, that URL is the
    one the health-based selection returned for the matched route on
    entry, parsed and given the path and query of the request as
    [finalURL] does, and it is the URL logged; there are at most
    [MaxRetries + 1] attempts; and the health map is read for that one
    selection only: with any other health map that gives the same
    selection the request is served in the same way. *)
Theorem retries_use_one_URL (upperUnicode : string -> string)
    (url_Parse : string -> result url.URL)
    (URL_String : url.URL -> string)
    (upstream : list string -> string -> option string)
    (cfg : config.Config) (hm : gmap string proxy.URLHealth)
    (r : proxy.Request) :
  let served :=
    proxy.ServeHTTP upperUnicode url_Parse URL_String upstream cfg hm r in
  (exists targetURL k,
      proxy.attempted served = repeat targetURL k
      /\ (k <= Z.to_nat (config.MaxRetries cfg + 1))%nat
      /\ (k <> 0%nat ->
          exists target parsed,
            proxy.findTarget upperUnicode (config.Targets cfg)
              (url.Path (proxy.RequestURL r)) (proxy.Method r) = Some target
            /\ url_Parse (proxy.selectFastestURL hm target) = Ok parsed
            /\ targetURL
               = URL_String (proxy.finalURL (proxy.RequestURL r) target parsed)
            /\ proxy.loggedTarget served = Some targetURL))
  /\ (forall hm',
        (forall target,
            proxy.findTarget upperUnicode (config.Targets cfg)
              (url.Path (proxy.RequestURL r)) (proxy.Method r) = Some target ->
            proxy.selectFastestURL hm' target
            = proxy.selectFastestURL hm target) ->
        proxy.ServeHTTP upperUnicode url_Parse URL_String upstream cfg hm' r
        = served).
Proof.
  intros served. split.
  - destruct (proxy.findTarget upperUnicode (config.Targets cfg)
                (url.Path (proxy.RequestURL r)) (proxy.Method r))
      as [target|] eqn:Hfind.
    + destruct (ServeHTTP_matched upperUnicode url_Parse URL_String upstream
                  cfg hm r target Hfind) as [[_ Hs] | [_ [(e & _ & Hs) | H]]].
      * exists "", 0%nat. fold served in Hs. rewrite Hs. simpl.
        repeat split; [lia | congruence].
      * exists "", 0%nat. fold served in Hs. rewrite Hs. simpl.
        repeat split; [lia | congruence].
      * destruct H as (targetURL & k & Hb & Hk & _ & Hlog & Hatt & _).
        exists targetURL, k. fold served in Hlog, Hatt.
        repeat split; try assumption. intros _.
        apply buildTargetURL_selected in Hb as (parsed & Hparse & Hurl).
        now exists target, parsed.
    + exists "", 0%nat. subst served. unfold proxy.ServeHTTP. rewrite Hfind.
      simpl. repeat split; [lia | congruence].
  - intros hm' Hsame. subst served. unfold proxy.ServeHTTP.
    destruct (proxy.findTarget upperUnicode (config.Targets cfg)
                (url.Path (proxy.RequestURL r)) (proxy.Method r))
      as [target|]; [|reflexivity].
    now rewrite (Hsame target eq_refl).
Qed.

(** C10 at work (scenario 3): the route is written for [http://a], which
    is unhealthy, and the selection is [http://b]; the connection is
    reset twice before the answer, and the three attempts go to
    [http://b]. *)
Lemma retries_use_one_URL_witness :
  let route := fixtures.route "/x/*" "http://a" ["http://a"; "http://b"] in
  let hm := Spec.monitor [Spec.Update "http://a" false 3000000 1;
                          Spec.Update "http://b" true 2000000 2] in
  config.TargetURL route = "http://a"
  /\ proxy.selectFastestURL hm route = "http://b"
  /\ proxy.attempted
       (proxy.ServeHTTP fixtures.upperUnicode fixtures.url_Parse
          fixtures.URL_String fixtures.upstream_flaky
          {| config.Targets := [route];
             config.MaxRetries := 2; config.RetryDelay := 10 |}
          hm (fixtures.GET "/x/y" "q=1"))
     = ["http://b/x/y?q=1"; "http://b/x/y?q=1"; "http://b/x/y?q=1"].
Proof.
  intros route hm.
  split; [reflexivity|]. split; [vm_compute; reflexivity|].
  destruct (retries_use_one_URL fixtures.upperUnicode fixtures.url_Parse
              fixtures.URL_String fixtures.upstream_flaky
              {| config.Targets := [route];
                 config.MaxRetries := 2; config.RetryDelay := 10 |}
              hm (fixtures.GET "/x/y" "q=1"))
    as [(targetURL & k & Hatt & _ & Hpin) _].
  assert (Hk : k = 3%nat).
  { apply (f_equal (@length string)) in Hatt. rewrite repeat_length in Hatt.
    rewrite <- Hatt. vm_compute. reflexivity. }
  destruct Hpin as (target & parsed & Hfind & Hparse & Hurl & _);
    [rewrite Hk; discriminate|].
  rewrite Hatt, Hk. simpl repeat.
  assert (Htarget : target = route)
    by (vm_compute in Hfind; now injection Hfind as <-).
  rewrite Htarget in Hparse, Hurl.
  assert (Hparsed : parsed = {| url.Scheme := "http"; url.Host := "b";
                                url.Path := ""; url.RawQuery := "" |})
    by (vm_compute in Hparse; now injection Hparse as <-).
  rewrite Hparsed in Hurl. rewrite Hurl. vm_compute. reflexivity.
Defined.

(** ** Service unavailable *)

Lemma GetFastestHealthyURL_all_unhealthy (hm : gmap string proxy.URLHealth)
    (first : string) (rest : list string) :
  (forall u, In u (first :: rest) ->
             exists h, hm !! u = Some h /\ proxy.IsHealthy h = false) ->
  proxy.GetFastestHealthyURL hm (first :: rest) = first.
Proof.
  intros Hall. unfold proxy.GetFastestHealthyURL.
  assert (Hloop : forall urls st,
            (forall u, In u urls ->
                       exists h, hm !! u = Some h /\ proxy.IsHealthy h = false) ->
            proxy.selectLoop hm urls st = inr st).
  { induction urls as [|u urls IH]; intros st Hu; [reflexivity|]. simpl.
    destruct (Hu u (or_introl eq_refl)) as (h & -> & Hh).
    unfold proxy.consider. rewrite Hh. apply IH.
    intros v Hv. apply Hu. now right. }
  now rewrite (Hloop _ _ Hall).
Qed.

(** C6 (amended). A request that matched a route is answered 503 exactly
    when the selection yields the empty string. A route with exactly one
    (non-empty) URL is never answered 503, whatever the health of that
    URL: the request is dispatched to it. A route with several URLs, all
    of them with a record and unhealthy, is dispatched to its first URL
    (if non-empty), not answered 503. *)
Theorem ServeHTTP_unavailable (upperUnicode : string -> string)
    (url_Parse : string -> result url.URL)
    (URL_String : url.URL -> string)
    (upstream : list string -> string -> option string)
    (cfg : config.Config) (hm : gmap string proxy.URLHealth)
    (r : proxy.Request) (target : config.ProxyTarget) :
  proxy.findTarget upperUnicode (config.Targets cfg)
    (url.Path (proxy.RequestURL r)) (proxy.Method r) = Some target ->
  let served :=
    proxy.ServeHTTP upperUnicode url_Parse URL_String upstream cfg hm r in
  let unavailable := proxy.HttpError "Service Unavailable" 503 in
  (proxy.response served = unavailable
   <-> proxy.selectFastestURL hm target = "")
  /\ (forall only,
        config.TargetURLs target = [only] -> only <> "" ->
        proxy.selectFastestURL hm target = only
        /\ proxy.response served <> unavailable)
  /\ (forall first second rest,
        config.TargetURLs target = first :: second :: rest -> first <> "" ->
        (forall u, In u (config.TargetURLs target) ->
                   exists h, hm !! u = Some h /\ proxy.IsHealthy h = false) ->
        proxy.selectFastestURL hm target = first
        /\ proxy.response served <> unavailable)
  /\ (forall u, In u (proxy.attempted served) ->
        proxy.buildTargetURL url_Parse URL_String (proxy.RequestURL r)
          (config.withTargetURL target (proxy.selectFastestURL hm target))
        = Ok u).
Proof.
  intros Hfind served unavailable.
  pose proof (ServeHTTP_matched upperUnicode url_Parse URL_String upstream
                cfg hm r target Hfind) as H. fold served in H. simpl in H.
  assert (Hiff : proxy.response served = unavailable
                 <-> proxy.selectFastestURL hm target = "").
  { destruct H as [[He Hs] | [Hne [(e & _ & Hs) | H]]].
    - rewrite Hs. simpl. tauto.
    - rewrite Hs. simpl. split; [discriminate | contradiction].
    - destruct H as (targetURL & k & _ & _ & _ & _ & _ & [Hr | Hr]);
        rewrite Hr; split; try discriminate; contradiction. }
  split; [exact Hiff|]. split; [|split].
  - intros only Honly Hne.
    assert (Hsel : proxy.selectFastestURL hm target = only)
      by (unfold proxy.selectFastestURL; now rewrite Honly).
    split; [exact Hsel|]. rewrite Hiff, Hsel. exact Hne.
  - intros first second rest Hurls Hne Hall.
    assert (Hsel : proxy.selectFastestURL hm target = first).
    { unfold proxy.selectFastestURL. rewrite Hurls.
      apply GetFastestHealthyURL_all_unhealthy. now rewrite <- Hurls. }
    split; [exact Hsel|]. rewrite Hiff, Hsel. exact Hne.
  - intros u Hu.
    destruct H as [[He Hs] | [Hne [(e & _ & Hs) | H]]].
    + rewrite Hs in Hu. contradiction.
    + rewrite Hs in Hu. contradiction.
    + destruct H as (targetURL & k & Hb & _ & _ & _ & Hatt & _).
      rewrite Hatt in Hu. apply repeat_spec in Hu. now subst u.
Qed.

(** C6, where the claim fails: the only URL of a route is unhealthy, and
    the request is dispatched to it, not answered 503. *)
Lemma single_unhealthy_URL_dispatched :
  let hm := Spec.monitor [Spec.Update "http://a" false 1000000 1] in
  (proxy.IsHealthy <$> hm !! "http://a") = Some false
  /\ proxy.ServeHTTP fixtures.upperUnicode fixtures.url_Parse
       fixtures.URL_String fixtures.upstream_ok
       {| config.Targets := [fixtures.route "/x" "http://a" ["http://a"]];
          config.MaxRetries := 3; config.RetryDelay := 1000 |}
       hm (fixtures.GET "/x" "")
     = {| proxy.response := proxy.Relayed;
          proxy.loggedTarget := Some "http://a";
          proxy.attempted := ["http://a"] |}.
Proof. vm_compute. split; reflexivity. Qed.

(** C6 at work: two URLs, both unhealthy; the first is used. *)
Lemma ServeHTTP_unavailable_witness :
  let hm := Spec.monitor [Spec.Update "http://a" false 1000000 1;
                          Spec.Update "http://b" false 2000000 2] in
  proxy.selectFastestURL hm
    (fixtures.route "/x" "http://a" ["http://a"; "http://b"]) = "http://a".
Proof.
  intros hm.
  refine (proj1 (proj1 (proj2 (proj2
    (ServeHTTP_unavailable fixtures.upperUnicode fixtures.url_Parse
       fixtures.URL_String fixtures.upstream_ok
       {| config.Targets := [fixtures.route "/x" "http://a" ["http://a"; "http://b"]];
          config.MaxRetries := 3; config.RetryDelay := 1000 |}
       hm (fixtures.GET "/x" "")
       (fixtures.route "/x" "http://a" ["http://a"; "http://b"]) eq_refl)))
    "http://a" "http://b" [] eq_refl _ _)).
  - discriminate.
  - intros u [<- | [<- | []]]; vm_compute; eexists; split; reflexivity.
Defined.

(** ** Health probes *)

Section Probe.
Variable srv : proxy.Server.
Variable baseURL healthPath : string.

Lemma tryHealthCheckURL_spec (path : string) (start : Z) (st : proxy.Net) :
  let answer := fst (srv (proxy.sent st) (proxy.healthURL baseURL path)) in
  exists responseTime statusCode st',
    proxy.tryHealthCheckURL srv baseURL path start st
    = ((Spec.isOK answer, responseTime, statusCode), st')
    /\ (statusCode =? 404) = Spec.is404 answer
    /\ proxy.sent st' = proxy.sent st ++ [proxy.healthURL baseURL path].
Proof.
  unfold proxy.tryHealthCheckURL.
  destruct (srv (proxy.sent st) (proxy.healthURL baseURL path))
    as [[code|] took]; simpl; eexists _, _, _; repeat split.
Qed.

Lemma strategy4_probe (start : Z) (st : proxy.Net) :
  exists responseTime msg st',
    proxy.strategy4 srv baseURL healthPath start st
    = ((fst (Spec.probe srv (proxy.sent st) []
               (proxy.healthURL baseURL healthPath)),
        responseTime, msg), st')
    /\ proxy.sent st'
       = snd (Spec.probe srv (proxy.sent st) []
                (proxy.healthURL baseURL healthPath)).
Proof.
  unfold proxy.strategy4.
  destruct (tryHealthCheckURL_spec healthPath start st)
    as (rt & code & st' & -> & H404 & Hsent).
  rewrite H404. simpl.
  destruct (Spec.is404 _); eexists _, _, _; split; try reflexivity; exact Hsent.
Qed.

(** The loop over the well-known paths is the probe on those of them
    that differ from the configured path. *)
Lemma tryCommonPaths_probe (start : Z) (final : string) (paths : list string) :
  forall st,
    let urls := map (proxy.healthURL baseURL)
                  (List.filter (fun path => negb (String.eqb path healthPath))
                     paths) in
    match proxy.tryCommonPaths srv baseURL healthPath start paths st with
    | (Some _, st') =>
        Spec.probe srv (proxy.sent st) urls final = (true, proxy.sent st')
    | (None, st') =>
        Spec.probe srv (proxy.sent st) urls final
        = Spec.probe srv (proxy.sent st') [] final
    end.
Proof.
  induction paths as [|path rest IH]; intros st; simpl.
  - reflexivity.
  - destruct (negb (String.eqb path healthPath)); simpl.
    + destruct (tryHealthCheckURL_spec path start st)
        as (rt & code & st' & -> & _ & Hsent).
      destruct (Spec.isOK _).
      * now rewrite Hsent.
      * rewrite <- Hsent. apply IH.
    + apply IH.
Qed.

Lemma strategy3_probe (start : Z) (st : proxy.Net) :
  let urls := map (proxy.healthURL baseURL)
                (List.filter (fun path => negb (String.eqb path healthPath))
                   proxy.commonPaths) in
  exists responseTime msg st',
    proxy.strategy3 srv baseURL healthPath start st
    = ((fst (Spec.probe srv (proxy.sent st) urls
               (proxy.healthURL baseURL healthPath)),
        responseTime, msg), st')
    /\ proxy.sent st'
       = snd (Spec.probe srv (proxy.sent st) urls
                (proxy.healthURL baseURL healthPath)).
Proof.
  intros urls. unfold proxy.strategy3.
  pose proof (tryCommonPaths_probe start (proxy.healthURL baseURL healthPath)
                proxy.commonPaths st) as H. fold urls in H.
  destruct (proxy.tryCommonPaths srv baseURL healthPath start
              proxy.commonPaths st) as [[rt|] st'].
  - rewrite H. now eexists _, _, _.
  - rewrite H. apply strategy4_probe.
Qed.

End Probe.

Lemma probe_verdict (srv : proxy.Server) (urls : list string) (final : string) :
  forall sent,
    fst (Spec.probe srv sent urls final)
    = existsb Spec.isOK (Spec.answers srv sent urls)
      || Spec.is404 (fst (srv (sent ++ urls) final)).
Proof.
  induction urls as [|u rest IH]; intros sent; simpl.
  - now rewrite app_nil_r.
  - destruct (Spec.isOK (fst (srv sent u))); simpl; [reflexivity|].
    rewrite IH, <- app_assoc. reflexivity.
Qed.

Lemma probe_trace (srv : proxy.Server) (urls : list string) (final : string) :
  forall sent,
    exists k, snd (Spec.probe srv sent urls final)
              = sent ++ firstn (S k) (urls ++ [final]).
Proof.
  induction urls as [|u rest IH]; intros sent; simpl.
  - now exists 0%nat.
  - destruct (Spec.isOK (fst (srv sent u))); simpl.
    + exists 0%nat. now destruct (rest ++ [final]).
    + destruct (IH (sent ++ [u])) as [k Hk]. exists (S k).
      rewrite Hk, <- app_assoc. reflexivity.
Qed.

Lemma performHealthCheck_probe (srv : proxy.Server)
    (baseURL healthPath : string) (st : proxy.Net) :
  healthPath <> "/" ->
  exists responseTime msg st',
    proxy.performHealthCheck srv baseURL healthPath st
    = ((fst (Spec.probe srv (proxy.sent st)
               (map (proxy.healthURL baseURL) (Spec.escalation healthPath))
               (proxy.healthURL baseURL healthPath)),
        responseTime, msg), st')
    /\ proxy.sent st'
       = snd (Spec.probe srv (proxy.sent st)
                (map (proxy.healthURL baseURL) (Spec.escalation healthPath))
                (proxy.healthURL baseURL healthPath)).
Proof.
  intros Hroot. apply String.eqb_neq in Hroot.
  unfold proxy.performHealthCheck, Spec.escalation. rewrite Hroot. simpl negb.
  assert (Hs2 : forall st0,
    exists responseTime msg st',
      proxy.strategy2 srv baseURL healthPath (proxy.clock st) st0
      = ((fst (Spec.probe srv (proxy.sent st0)
                 (map (proxy.healthURL baseURL)
                    (["/"] ++ List.filter
                                (fun path => negb (String.eqb path healthPath))
                                proxy.commonPaths))
                 (proxy.healthURL baseURL healthPath)),
          responseTime, msg), st')
      /\ proxy.sent st'
         = snd (Spec.probe srv (proxy.sent st0)
                  (map (proxy.healthURL baseURL)
                     (["/"] ++ List.filter
                                 (fun path => negb (String.eqb path healthPath))
                                 proxy.commonPaths))
                  (proxy.healthURL baseURL healthPath))).
  { intros st0. unfold proxy.strategy2. rewrite Hroot. simpl negb. cbv iota.
    destruct (tryHealthCheckURL_spec srv baseURL "/" (proxy.clock st) st0)
      as (rt & code & st1 & -> & _ & Hsent).
    simpl map. simpl Spec.probe.
    destruct (Spec.isOK _).
    - eexists _, _, _. split; [reflexivity | exact Hsent].
    - rewrite <- Hsent. apply strategy3_probe. }
  destruct (String.eqb healthPath "") eqn:Hempty; simpl negb; cbv iota.
  - simpl andb. cbv iota. apply Hs2.
  - simpl andb. cbv iota.
    destruct (tryHealthCheckURL_spec srv baseURL healthPath (proxy.clock st) st)
      as (rt & code & st1 & -> & _ & Hsent).
    simpl map. simpl Spec.probe.
    destruct (Spec.isOK _).
    + eexists _, _, _. split; [reflexivity | exact Hsent].
    + rewrite <- Hsent. apply Hs2.
Qed.

(** C5 (amended). For a configured path other than [/], a probe requests,
    in order, the configured path (when non-empty), then [/], then
    [/health], [/ping], [/status], [/api/health] (less the configured
    path), and reports healthy at the first answer with status in
    [200, 400), making no further request; if there is none it requests
    the configured path once more and reports healthy exactly when that
    last answer is a 404, whatever the earlier answers were. *)
Theorem performHealthCheck_escalation (srv : proxy.Server)
    (baseURL healthPath : string) (st : proxy.Net) :
  healthPath <> "/" ->
  let urls := map (proxy.healthURL baseURL) (Spec.escalation healthPath) in
  let final := proxy.healthURL baseURL healthPath in
  let '((healthy, _, _), st') :=
    proxy.performHealthCheck srv baseURL healthPath st in
  (healthy, proxy.sent st') = Spec.probe srv (proxy.sent st) urls final
  /\ healthy
     = existsb Spec.isOK (Spec.answers srv (proxy.sent st) urls)
       || Spec.is404 (fst (srv (proxy.sent st ++ urls) final))
  /\ exists k,
       proxy.sent st' = proxy.sent st ++ firstn (S k) (urls ++ [final]).
Proof.
  intros Hroot urls final.
  destruct (performHealthCheck_probe srv baseURL healthPath st Hroot)
    as (rt & msg & st' & -> & Hsent).
  fold urls final in Hsent |- *.
  split; [|split].
  - rewrite Hsent. now destruct (Spec.probe srv (proxy.sent st) urls final).
  - apply probe_verdict.
  - rewrite Hsent. apply probe_trace.
Qed.

(** C5 at work: a server without any health endpoint (404 everywhere) is
    reported healthy, after six requests. *)
Lemma performHealthCheck_escalation_witness :
  let '((healthy, _, _), st') :=
    proxy.performHealthCheck fixtures.server_404 "http://u" "" fixtures.idle in
  healthy = true
  /\ proxy.sent st'
     = ["http://u"; "http://u/health"; "http://u/ping"; "http://u/status";
        "http://u/api/health"; "http://u"].
Proof.
  pose proof (performHealthCheck_escalation fixtures.server_404 "http://u" ""
                fixtures.idle ltac:(discriminate)) as H.
  destruct (proxy.performHealthCheck fixtures.server_404 "http://u" ""
              fixtures.idle) as [[[healthy rt] msg] st'].
  destruct H as (Hprobe & _ & _).
  vm_compute in Hprobe. now inversion Hprobe.
Defined.

(** C5, where the claim fails: the configured path [/x] answers 404 and
    every other path 500; the probe reports healthy although no answer is
    in [200, 400) and not every answer is a 404. *)
Lemma performHealthCheck_404_on_configured_path :
  let srv := fixtures.server_404_only_on "http://u/x" in
  let '((healthy, _, _), st') :=
    proxy.performHealthCheck srv "http://u" "/x" fixtures.idle in
  healthy = true
  /\ Spec.answers srv [] (proxy.sent st')
     = [Some 404; Some 500; Some 500; Some 500; Some 500; Some 500; Some 404]
  /\ Spec.claimedVerdict (Spec.answers srv [] (proxy.sent st')) = false.
Proof. vm_compute. repeat split; reflexivity. Qed.

(** A defect beside C5: with the configured path [/] (the default for a
    target whose URL does not contain [api]) the root is requested only
    in the last step, where nothing but a 404 counts; a server answering
    200 on its root and 404 elsewhere is reported unhealthy. *)
Lemma performHealthCheck_root_answer_ignored :
  let srv := fixtures.server_200_only_on "http://u" in
  let '((healthy, _, _), st') :=
    proxy.performHealthCheck srv "http://u" "/" fixtures.idle in
  healthy = false
  /\ proxy.sent st'
     = ["http://u/health"; "http://u/ping"; "http://u/status";
        "http://u/api/health"; "http://u"]
  /\ Spec.answers srv [] (proxy.sent st')
     = [Some 404; Some 404; Some 404; Some 404; Some 200].
Proof. vm_compute. repeat split; reflexivity. Qed.

(** ** Statistics of the hub *)

Lemma copy_map `{Countable K} {A : Type} (m : gmap K A) :
  map_fold (fun k v acc => <[k := v]> acc) ∅ m = m.
Proof.
  apply (map_fold_weak_ind (fun b m => b = m)); [reflexivity|].
  intros i x m' r _ ->. reflexivity.
Qed.

Lemma GetStats_copy (s : types.Statistics) : websocket.GetStats s = s.
Proof. destruct s. unfold websocket.GetStats. simpl. now rewrite !copy_map. Qed.

Lemma count_increment `{Countable K} (m : gmap K Z) (k k' : K) (n : Z) :
  0 <= Spec.count m k <= n -> n < Int64.max_int64 ->
  Spec.count (websocket.increment k m) k'
  = if decide (k = k') then Spec.count m k + 1 else Spec.count m k'.
Proof.
  intros Hk Hn. unfold Spec.count, websocket.increment in *.
  rewrite lookup_insert. destruct (decide (k = k')); simpl; [|reflexivity].
  apply wrap_small. lia.
Qed.

Lemma updateStats_inv (n : Z) (s : types.Statistics)
    (message : types.LogMessage) (now : Z) :
  Spec.statsInv n s -> n < Int64.max_int64 ->
  Spec.statsInv (n + 1) (websocket.updateStats s message now)
  /\ Spec.statsLe s (websocket.updateStats s message now).
Proof.
  intros (HT & HS & HE & HC & HM) Hn.
  assert (H0 : 0 <= n) by lia.
  unfold Spec.statsInv, Spec.statsLe, websocket.updateStats. simpl.
  rewrite (wrap_small (types.TotalRequests s + 1)) by lia.
  assert (Hcode : forall code,
    Spec.count (websocket.increment (types.StatusCode message)
                  (types.StatusCodeCounts s)) code
    = if decide (types.StatusCode message = code)
      then Spec.count (types.StatusCodeCounts s) (types.StatusCode message) + 1
      else Spec.count (types.StatusCodeCounts s) code)
    by (intros; now apply (count_increment _ _ _ n)).
  assert (Hmeth : forall method,
    Spec.count (websocket.increment (types.Method message)
                  (types.MethodCounts s)) method
    = if decide (types.Method message = method)
      then Spec.count (types.MethodCounts s) (types.Method message) + 1
      else Spec.count (types.MethodCounts s) method)
    by (intros; now apply (count_increment _ _ _ n)).
  assert (Hs1 : Int64.wrap (types.SuccessRequests s + 1)
                = types.SuccessRequests s + 1) by (apply wrap_small; lia).
  assert (He1 : Int64.wrap (types.ErrorRequests s + 1)
                = types.ErrorRequests s + 1) by (apply wrap_small; lia).
  rewrite Hs1, He1.
  repeat split; intros; try lia;
    try (destruct ((200 <=? types.StatusCode message)
                   && (types.StatusCode message <? 400)); lia);
    match goal with
    | |- context [Spec.count (websocket.increment _ (types.StatusCodeCounts s)) ?c] =>
        rewrite Hcode; pose proof (HC c);
        pose proof (HC (types.StatusCode message));
        destruct (decide _) as [<-|]; lia
    | |- context [Spec.count (websocket.increment _ (types.MethodCounts s)) ?c] =>
        rewrite Hmeth; pose proof (HM c);
        pose proof (HM (types.Method message));
        destruct (decide _) as [<-|]; lia
    end.
Qed.

Lemma broadcasts_snoc (h : websocket.Hub)
    (messages : list (types.LogMessage * Z)) (m : types.LogMessage * Z) :
  websocket.broadcasts h (messages ++ [m])
  = fst (websocket.Broadcast (websocket.broadcasts h messages) (fst m) (snd m)).
Proof. unfold websocket.broadcasts. now rewrite fold_left_app. Qed.

Lemma broadcasts_app (h : websocket.Hub)
    (messages later : list (types.LogMessage * Z)) :
  websocket.broadcasts h (messages ++ later)
  = websocket.broadcasts (websocket.broadcasts h messages) later.
Proof. unfold websocket.broadcasts. now rewrite fold_left_app. Qed.

Lemma statsLe_refl (s : types.Statistics) : Spec.statsLe s s.
Proof. unfold Spec.statsLe. repeat split; intros; lia. Qed.

Lemma statsLe_trans (s1 s2 s3 : types.Statistics) :
  Spec.statsLe s1 s2 -> Spec.statsLe s2 s3 -> Spec.statsLe s1 s3.
Proof.
  intros (A1 & A2 & A3 & A4 & A5) (B1 & B2 & B3 & B4 & B5).
  unfold Spec.statsLe. repeat split; try lia.
  - intros code. specialize (A4 code). specialize (B4 code). lia.
  - intros method. specialize (A5 method). specialize (B5 method). lia.
Qed.

(** After [n] broadcasts from a new hub the counters are between 0 and
    [n], and they have only grown along the way. *)
Lemma broadcasts_inv (h : websocket.Hub) (n : Z)
    (later : list (types.LogMessage * Z)) :
  Spec.statsInv n (websocket.stats h) ->
  n + Z.of_nat (length later) <= Int64.max_int64 ->
  Spec.statsInv (n + Z.of_nat (length later))
    (websocket.stats (websocket.broadcasts h later))
  /\ Spec.statsLe (websocket.stats h)
       (websocket.stats (websocket.broadcasts h later)).
Proof.
  induction later as [|m later IH] using rev_ind; intros Hinv Hn.
  - simpl. rewrite Z.add_0_r. split; [exact Hinv | apply statsLe_refl].
  - rewrite length_app, Nat2Z.inj_add in *. simpl length in *.
    change (Z.of_nat 1) with 1 in *.
    destruct (IH Hinv ltac:(lia)) as [Hi Hle].
    rewrite broadcasts_snoc. unfold websocket.Broadcast. simpl.
    destruct (updateStats_inv _ _ (fst m) (snd m) Hi ltac:(lia)) as [Hi' Hle'].
    split.
    + now rewrite Z.add_assoc.
    + eapply statsLe_trans; [exact Hle | exact Hle'].
Qed.

Lemma NewHub_inv (size : nat) (t0 : Z) :
  Spec.statsInv 0 (websocket.stats (websocket.NewHub size t0)).
Proof.
  unfold Spec.statsInv, Spec.count. simpl.
  repeat split; try lia; intros; rewrite lookup_empty; simpl; lia.
Qed.

Lemma updates_snoc (s : types.Statistics)
    (messages : list (types.LogMessage * Z)) (m : types.LogMessage * Z) :
  websocket.updates s (messages ++ [m])
  = websocket.updateStats (websocket.updates s messages) (fst m) (snd m).
Proof. unfold websocket.updates. now rewrite fold_left_app. Qed.

(** The statistics of a hub after a run of broadcasts are the ones the
    calls of [updateStats] leave. *)
Lemma broadcasts_stats (h : websocket.Hub)
    (messages : list (types.LogMessage * Z)) :
  websocket.stats (websocket.broadcasts h messages)
  = websocket.updates (websocket.stats h) messages.
Proof.
  induction messages as [|m messages IH] using rev_ind; [reflexivity|].
  rewrite broadcasts_snoc, updates_snoc, <- IH. reflexivity.
Qed.

(** After [n] calls of [updateStats] the counters are between 0 and [n];
    further calls only add to them. *)
Lemma updates_inv (s : types.Statistics) (n : Z)
    (later : list (types.LogMessage * Z)) :
  Spec.statsInv n s ->
  n + Z.of_nat (length later) <= Int64.max_int64 ->
  Spec.statsInv (n + Z.of_nat (length later)) (websocket.updates s later)
  /\ Spec.statsLe s (websocket.updates s later).
Proof.
  induction later as [|m later IH] using rev_ind; intros Hinv Hn.
  - simpl. rewrite Z.add_0_r. split; [exact Hinv | apply statsLe_refl].
  - rewrite length_app, Nat2Z.inj_add in *. simpl length in *.
    change (Z.of_nat 1) with 1 in *.
    destruct (IH Hinv ltac:(lia)) as [Hi Hle].
    rewrite updates_snoc.
    destruct (updateStats_inv _ _ (fst m) (snd m) Hi ltac:(lia)) as [Hi' Hle'].
    split.
    + now rewrite Z.add_assoc.
    + eapply statsLe_trans; [exact Hle | exact Hle'].
Qed.

(** C8. In any run of fewer than 2^63 broadcasts on a new hub, whatever
    other broadcasts come between the two critical sections of a call,
    the call leaves in the [Stats] of its message a copy of the
    statistics read after the message has been counted: counting adds
    one to the total, to the counters of the message's method and status
    code, and to the success counter if the status is in [200, 400),
    otherwise to the error counter; the copy holds those counts and what
    the calls in between have added, its total being the number of
    messages counted so far, this one included; without a call in
    between it is the statistics as this call left them, which is what
    [Broadcast] attaches when the calls come one after the other. No
    counter ever decreases, neither by this call nor by the calls in
    between nor by those that follow. *)
Theorem Broadcast_snapshot_after_count (size : nat) (t0 : Z)
    (before between later : list (types.LogMessage * Z))
    (message : types.LogMessage) (now : Z) :
  Z.of_nat (length before) + 1 + Z.of_nat (length between)
  + Z.of_nat (length later) <= Int64.max_int64 ->
  let s :=
    websocket.updates (websocket.stats (websocket.NewHub size t0)) before in
  let counted := websocket.updateStats s message now in
  let ok := (200 <=? types.StatusCode message)
            && (types.StatusCode message <? 400) in
  let out := websocket.BroadcastAmong s message now between in
  exists snapshot,
    types.Stats (snd out) = Some snapshot
    /\ (types.Timestamp (snd out), types.Method (snd out),
        types.Path (snd out), types.StatusCode (snd out))
       = (types.Timestamp message, types.Method message,
          types.Path message, types.StatusCode message)
    /\ snapshot = fst out
    /\ fst out = websocket.updates counted between
    /\ (types.TotalRequests s = Z.of_nat (length before)
        /\ types.TotalRequests counted = types.TotalRequests s + 1
        /\ Spec.count (types.MethodCounts counted) (types.Method message)
           = Spec.count (types.MethodCounts s) (types.Method message) + 1
        /\ Spec.count (types.StatusCodeCounts counted)
             (types.StatusCode message)
           = Spec.count (types.StatusCodeCounts s) (types.StatusCode message)
             + 1
        /\ types.SuccessRequests counted
           = (if ok then types.SuccessRequests s + 1
              else types.SuccessRequests s)
        /\ types.ErrorRequests counted
           = (if ok then types.ErrorRequests s
              else types.ErrorRequests s + 1))
    /\ (Spec.statsLe counted snapshot
        /\ types.TotalRequests snapshot
           = Z.of_nat (length before) + 1 + Z.of_nat (length between)
        /\ Spec.count (types.MethodCounts s) (types.Method message) + 1
           <= Spec.count (types.MethodCounts snapshot) (types.Method message)
        /\ Spec.count (types.StatusCodeCounts s) (types.StatusCode message) + 1
           <= Spec.count (types.StatusCodeCounts snapshot)
                (types.StatusCode message)
        /\ (if ok
            then types.SuccessRequests s + 1 <= types.SuccessRequests snapshot
            else types.ErrorRequests s + 1 <= types.ErrorRequests snapshot))
    /\ (between = [] -> snapshot = counted)
    /\ (forall h,
          websocket.stats h = s ->
          s = websocket.stats
                (websocket.broadcasts (websocket.NewHub size t0) before)
          /\ snd (websocket.Broadcast h message now)
             = snd (websocket.BroadcastAmong s message now [])
          /\ websocket.stats (fst (websocket.Broadcast h message now))
             = counted)
    /\ (Spec.statsLe s counted
        /\ Spec.statsLe snapshot (websocket.updates snapshot later)).
Proof.
  intros Hlen s counted ok out.
  destruct (updates_inv (websocket.stats (websocket.NewHub size t0)) 0 before
              (NewHub_inv size t0) ltac:(lia)) as [Hinv _].
  fold s in Hinv. rewrite Z.add_0_l in Hinv.
  set (n := Z.of_nat (length before)) in *.
  destruct (updateStats_inv n s message now Hinv ltac:(lia)) as [Hinv' Hle].
  fold counted in Hinv', Hle.
  destruct (updates_inv counted (n + 1) between Hinv' ltac:(lia))
    as [Hread Hle'].
  assert (Hout : out = (websocket.updates counted between,
                        websocket.withStats message
                          (websocket.updates counted between))).
  { unfold out, websocket.BroadcastAmong. fold counted.
    now rewrite GetStats_copy. }
  rewrite Hout. cbn [fst snd].
  set (read := websocket.updates counted between) in *.
  exists read.
  assert (Hcounts :
    types.TotalRequests s = n
    /\ types.TotalRequests counted = types.TotalRequests s + 1
    /\ Spec.count (types.MethodCounts counted) (types.Method message)
       = Spec.count (types.MethodCounts s) (types.Method message) + 1
    /\ Spec.count (types.StatusCodeCounts counted) (types.StatusCode message)
       = Spec.count (types.StatusCodeCounts s) (types.StatusCode message) + 1
    /\ types.SuccessRequests counted
       = (if ok then types.SuccessRequests s + 1 else types.SuccessRequests s)
    /\ types.ErrorRequests counted
       = (if ok then types.ErrorRequests s else types.ErrorRequests s + 1)).
  { pose proof Hinv as (HT & HS & HE & HC & HM).
    split; [exact HT|].
    split; [destruct Hinv' as [-> _]; lia|].
    split.
    { unfold counted. simpl. rewrite (count_increment _ _ _ n) by (auto; lia).
      now rewrite decide_True by reflexivity. }
    split.
    { unfold counted. simpl. rewrite (count_increment _ _ _ n) by (auto; lia).
      now rewrite decide_True by reflexivity. }
    split.
    { unfold counted. simpl. fold ok.
      destruct ok; [apply wrap_small; lia | reflexivity]. }
    unfold counted. simpl. fold ok.
    destruct ok; [reflexivity | apply wrap_small; lia]. }
  split; [reflexivity|]. split; [reflexivity|]. split; [reflexivity|].
  split; [reflexivity|]. split; [exact Hcounts|].
  destruct Hcounts as (HT & HT' & HM' & HC' & HS' & HE').
  split.
  { split; [exact Hle'|].
    pose proof Hle' as (_ & LS & LE & LC & LM).
    split; [destruct Hread as [-> _]; lia|].
    split; [specialize (LM (types.Method message)); lia|].
    split; [specialize (LC (types.StatusCode message)); lia|].
    destruct ok; lia. }
  split; [now intros ->|].
  split.
  { intros h Hs. split; [unfold s; now rewrite broadcasts_stats|].
    unfold websocket.Broadcast, websocket.BroadcastAmong. cbn [fst snd].
    rewrite Hs. split; reflexivity. }
  split; [exact Hle|].
  destruct (updates_inv read (n + 1 + Z.of_nat (length between)) later Hread
              ltac:(lia)) as [_ H].
  exact H.
Qed.

(** C8 at work (scenario 1): the first message, a GET answered 200, is
    counted; before the statistics are read for it, another call counts a
    POST answered 502. The message is sent with a total of 2, one GET,
    one success and one failure. *)
Lemma Broadcast_snapshot_after_count_witness :
  let out :=
    websocket.BroadcastAmong (websocket.stats (websocket.NewHub 1000 0))
      (fixtures.record "GET" "/ping" 200) 5
      [(fixtures.record "POST" "/v1/messages" 502, 9)] in
  exists snapshot,
    types.Stats (snd out) = Some snapshot
    /\ types.TotalRequests snapshot = 2
    /\ Spec.count (types.MethodCounts snapshot) "GET" = 1
    /\ types.SuccessRequests snapshot = 1
    /\ types.ErrorRequests snapshot = 1.
Proof.
  intros out.
  destruct (Broadcast_snapshot_after_count 1000 0 []
              [(fixtures.record "POST" "/v1/messages" 502, 9)] []
              (fixtures.record "GET" "/ping" 200) 5)
    as (snapshot & Hstats & _ & _ & _ & _ & (Hle & HT & HM & _ & HS) & _).
  - vm_compute. discriminate.
  - fold out in Hstats. exists snapshot. split; [exact Hstats|].
    split; [exact HT|].
    assert (Hsnap : snapshot
                    = websocket.updates
                        (websocket.updateStats
                           (websocket.stats (websocket.NewHub 1000 0))
                           (fixtures.record "GET" "/ping" 200) 5)
                        [(fixtures.record "POST" "/v1/messages" 502, 9)]).
    { unfold out, websocket.BroadcastAmong in Hstats.
      cbn [snd websocket.withStats types.Stats] in Hstats.
      rewrite GetStats_copy in Hstats. now injection Hstats as <-. }
    rewrite Hsnap. vm_compute. repeat split; reflexivity.
Defined.

(** ** Normalisation of the target URLs *)

Lemma fold_appendTrimmed (urls acc : list string) :
  fold_left config.appendTrimmed urls acc
  = acc ++ List.filter (fun e => negb (String.eqb e "")) (map TrimSpace urls).
Proof.
  revert acc. induction urls as [|u urls IH]; intros acc; simpl.
  - now rewrite app_nil_r.
  - rewrite IH. unfold config.appendTrimmed.
    destruct (String.eqb (TrimSpace u) ""); simpl; [reflexivity|].
    now rewrite <- app_assoc.
Qed.

Lemma HasPrefix_char (x c : ascii) (s : string) :
  HasPrefix (String x s) (String c "") = Ascii.eqb x c.
Proof.
  unfold HasPrefix. simpl. destruct s; simpl;
    destruct (Ascii.eqb x c); reflexivity.
Qed.

(** A string without the separator is its own single piece. *)
Lemma Split_without (s : string) (c : ascii) :
  Contains s (String c "") = false -> Split s c = [s].
Proof.
  induction s as [|x s IH]; simpl; [reflexivity|].
  rewrite HasPrefix_char. intros H. apply orb_false_iff in H as [Hx Hs].
  rewrite Hx, (IH Hs). reflexivity.
Qed.

Lemma defaultHealthCheck_urls (t : config.ProxyTarget) :
  config.TargetURLs (config.defaultHealthCheck t) = config.TargetURLs t.
Proof.
  unfold config.defaultHealthCheck.
  destruct (String.eqb (config.HealthCheckPath t) "");
    [destruct (Contains (config.TargetURL t) "api")|];
    simpl; destruct (_ =? 0); reflexivity.
Qed.

Lemma parseTargetURL_urls (t : config.ProxyTarget) :
  config.TargetURLs (config.parseTargetURL t)
  = if String.eqb (config.TargetURL t) "" then config.TargetURLs t
    else if Contains (config.TargetURL t) ","
         then config.TargetURLs t ++ Spec.entries (config.TargetURL t)
         else [config.TargetURL t].
Proof.
  unfold config.parseTargetURL, Spec.entries.
  destruct (String.eqb (config.TargetURL t) ""); [reflexivity|].
  destruct (Contains (config.TargetURL t) ","); [|reflexivity].
  simpl. rewrite fold_appendTrimmed.
  destruct (config.TargetURLs t ++ _); reflexivity.
Qed.

Lemma TrimSpace_empty : TrimSpace "" = "".
Proof. reflexivity. Qed.

(** [TrimSpace] on a few strings: ASCII blanks at both ends; the zero
    width space U+200B, which is not white space; a byte [C2] that
    starts no character, before a space; a line separator U+2028 after
    a no-break space. *)
Lemma TrimSpace_examples :
  TrimSpace (fixtures.bytes [32; 9] +:+ "a b" +:+ fixtures.bytes [13; 10])
  = "a b"
  /\ TrimSpace (fixtures.bytes [226; 128; 139]) = fixtures.bytes [226; 128; 139]
  /\ TrimSpace (fixtures.bytes [194; 32]) = fixtures.bytes [194]
  /\ TrimSpace (fixtures.no_break_space +:+ fixtures.bytes [226; 128; 168])
     = "".
Proof. vm_compute. repeat split; reflexivity. Qed.

(** C9 (amended). Normalisation appends to a route's URL list the
    comma-separated entries of [target_url], trimmed, the empty ones
    dropped, when [target_url] contains a comma; makes the list the single
    element [target_url], as written, when it is non-empty and contains no
    comma; and leaves the list as it is when [target_url] is empty. So for
    a route loaded with an empty list, the list is non-empty as soon as
    some entry of [target_url] is not blank, and it is the list of the
    trimmed entries when [target_url] contains a comma or has no white
    space around it. *)
Theorem processTargetURLs_urls :
  (forall c,
      config.Targets (config.processTargetURLs c)
      = map config.processTarget (config.Targets c))
  /\ forall t,
      let target_url := config.TargetURL t in
      let urls := config.TargetURLs (config.processTarget t) in
      (Contains target_url "," = true ->
         urls = config.TargetURLs t ++ Spec.entries target_url)
      /\ (Contains target_url "," = false -> target_url <> "" ->
            urls = [target_url])
      /\ (target_url = "" -> urls = config.TargetURLs t)
      /\ (config.TargetURLs t = [] ->
          Contains target_url "," = true \/ TrimSpace target_url = target_url ->
          urls = Spec.entries target_url)
      /\ (config.TargetURLs t = [] ->
          Spec.entries target_url <> [] -> urls <> []).
Proof.
  split; [reflexivity|]. intros t target_url urls. subst urls.
  unfold config.processTarget. rewrite defaultHealthCheck_urls, parseTargetURL_urls.
  fold target_url.
  assert (Hcomma : Contains target_url "," = true -> String.eqb target_url "" = false).
  { intros H. apply String.eqb_neq. intros E. rewrite E in H. discriminate. }
  split; [|split; [|split; [|split]]].
  - intros H. now rewrite (Hcomma H), H.
  - intros H Hne. apply String.eqb_neq in Hne. now rewrite Hne, H.
  - intros ->. reflexivity.
  - intros Hnil [H | H].
    + now rewrite (Hcomma H), H, Hnil.
    + destruct (String.eqb_spec target_url "") as [E|Hne].
      * now rewrite Hnil, E.
      * destruct (Contains target_url ",") eqn:Hc; [now rewrite Hnil|].
        unfold Spec.entries. rewrite (Split_without _ _ Hc). simpl.
        rewrite H. apply String.eqb_neq in Hne. now rewrite Hne.
  - intros Hnil Hent.
    destruct (String.eqb_spec target_url "") as [E|Hne].
    + rewrite E in Hent. now destruct Hent.
    + destruct (Contains target_url ","); [now rewrite Hnil | discriminate].
Qed.

(** C9, where the claim fails: a route without [target_url], and one
    whose [target_url] holds only a comma and blanks, load and are left
    with an empty URL list. *)
Lemma processTargetURLs_empty_list :
  map config.TargetURLs
    (config.Targets
       (config.processTargetURLs
          {| config.Targets := [fixtures.route "/a" "" [];
                                fixtures.route "/b" " , " []];
             config.MaxRetries := 3; config.RetryDelay := 1000 |}))
  = [[]; []].
Proof. vm_compute. reflexivity. Qed.

(** C9 at work: three entries, one of them empty. *)
Lemma processTargetURLs_urls_witness :
  config.TargetURLs
    (config.processTarget (fixtures.route "/a" "http://a, http://b ," []))
  = ["http://a"; "http://b"].
Proof.
  destruct processTargetURLs_urls as [_ H].
  destruct (H (fixtures.route "/a" "http://a, http://b ," []))
    as (Hcomma & _).
  rewrite Hcomma; vm_compute; reflexivity.
Defined.

(** Beside C9: without a comma the URL is kept as written, white space
    included. *)
Lemma processTarget_single_untrimmed :
  config.TargetURLs (config.processTarget (fixtures.route "/a" " http://a " []))
  = [" http://a "].
Proof. vm_compute. reflexivity. Qed.

(** Beside C9: white space beyond ASCII is trimmed as well. An entry
    made of a no-break space or of an em space is dropped; the blanks
    around an entry go, the bytes [C2] and [A0] on their own stay. *)
Lemma processTarget_unicode_blanks :
  config.TargetURLs
    (config.processTarget
       (fixtures.route "/a"
          (fixtures.no_break_space +:+ "," +:+ fixtures.em_space +:+ " ") []))
  = []
  /\ config.TargetURLs
       (config.processTarget
          (fixtures.route "/b"
             (fixtures.ideographic_space +:+ "http://a" +:+ fixtures.em_space
              +:+ "," +:+ fixtures.no_break_space +:+ "http://b"
              +:+ fixtures.bytes [160; 194] +:+ fixtures.no_break_space)
             []))
     = ["http://a"; "http://b" +:+ fixtures.bytes [160; 194]].
Proof. vm_compute. split; reflexivity. Qed.

(** * Further properties of the code *)

(** ** The number of forwarding attempts *)

Section RetryCount.
Variable url_Parse : string -> result url.URL.
Variable URL_String : url.URL -> string.
Variable upstream : list string -> string -> option string.
Variable r : proxy.Request.
Variable target : config.ProxyTarget.
Variable targetURL : string.
Hypothesis Hbuild :
  proxy.buildTargetURL url_Parse URL_String (proxy.RequestURL r) target
  = Ok targetURL.

Lemma repeat_snoc (n : nat) : repeat targetURL n ++ [targetURL] = repeat targetURL (S n).
Proof. induction n as [|n IH]; simpl; [reflexivity | now rewrite IH]. Qed.

(** The loop runs up to the first attempt that stops it. *)
Lemma retryLoop_stops (k : nat) :
  forall left n lastErr,
    (k < left)%nat ->
    (forall i, (i < k)%nat -> Runs.stops upstream targetURL (n + i) = false) ->
    Runs.stops upstream targetURL (n + k) = true ->
    proxy.retryLoop url_Parse URL_String upstream left r target lastErr
      (repeat targetURL n)
    = (match Runs.outcome upstream targetURL (n + k) with
       | None => inl tt
       | Some err => inr (Some err)
       end, repeat targetURL (n + S k)).
Proof.
  induction k as [|k IH]; intros left n lastErr Hk Hgo Hstop;
    (destruct left as [|left]; [lia|]); simpl;
    rewrite (forwardRequest_derives url_Parse URL_String upstream r target
               targetURL _ Hbuild), repeat_snoc.
  - rewrite Nat.add_0_r in Hstop. unfold Runs.stops in Hstop.
    rewrite Nat.add_0_r. unfold Runs.outcome in *.
    destruct (upstream (repeat targetURL n) targetURL) as [err|].
    + rewrite Hstop. now rewrite Nat.add_1_r.
    + now rewrite Nat.add_1_r.
  - pose proof (Hgo 0%nat ltac:(lia)) as H0. rewrite Nat.add_0_r in H0.
    unfold Runs.stops, Runs.outcome in H0.
    destruct (upstream (repeat targetURL n) targetURL) as [err|];
      [|discriminate].
    rewrite H0. rewrite (IH left (S n) (Some err)).
    + replace (S n + k)%nat with (n + S k)%nat by lia.
      now replace (S n + S k)%nat with (n + S (S k))%nat by lia.
    + lia.
    + intros i Hi. replace (S n + i)%nat with (n + S i)%nat by lia.
      apply Hgo. lia.
    + now replace (S n + k)%nat with (n + S k)%nat by lia.
Qed.

(** Without such an attempt it runs to its bound. *)
Lemma retryLoop_exhausts (left : nat) :
  forall n lastErr,
    (forall i, (i < left)%nat -> Runs.stops upstream targetURL (n + i) = false) ->
    exists lastErr',
      proxy.retryLoop url_Parse URL_String upstream left r target lastErr
        (repeat targetURL n)
      = (inr lastErr', repeat targetURL (n + left)).
Proof.
  induction left as [|left IH]; intros n lastErr Hgo; simpl.
  - exists lastErr. now rewrite Nat.add_0_r.
  - rewrite (forwardRequest_derives url_Parse URL_String upstream r target
               targetURL _ Hbuild), repeat_snoc.
    pose proof (Hgo 0%nat ltac:(lia)) as H0. rewrite Nat.add_0_r in H0.
    unfold Runs.stops, Runs.outcome in H0.
    destruct (upstream (repeat targetURL n) targetURL) as [err|];
      [|discriminate].
    rewrite H0. destruct (IH (S n) (Some err)) as [e He].
    + intros i Hi. replace (S n + i)%nat with (n + S i)%nat by lia.
      apply Hgo. lia.
    + exists e. rewrite He. now replace (S n + left)%nat with (n + S left)%nat by lia.
Qed.

End RetryCount.


(** X1. For a request that matched a route and got a URL: the attempts
    stop at the first one that succeeds or fails with an error that is not
    retryable, the client getting the upstream's answer in the first case
    and 502 in the second; if every attempt up to the bound fails with a
    retryable error there are exactly [MaxRetries + 1] attempts and the
    client gets 502. *)
Theorem ServeHTTP_attempt_count (upperUnicode : string -> string)
    (url_Parse : string -> result url.URL)
    (URL_String : url.URL -> string)
    (upstream : list string -> string -> option string)
    (cfg : config.Config) (hm : gmap string proxy.URLHealth)
    (r : proxy.Request) (target : config.ProxyTarget) (targetURL : string) :
  proxy.findTarget upperUnicode (config.Targets cfg)
    (url.Path (proxy.RequestURL r)) (proxy.Method r) = Some target ->
  proxy.selectFastestURL hm target <> "" ->
  proxy.buildTargetURL url_Parse URL_String (proxy.RequestURL r)
    (config.withTargetURL target (proxy.selectFastestURL hm target))
  = Ok targetURL ->
  0 <= config.MaxRetries cfg ->
  let served :=
    proxy.ServeHTTP upperUnicode url_Parse URL_String upstream cfg hm r in
  (forall k,
      Z.of_nat k <= config.MaxRetries cfg ->
      Runs.stops upstream targetURL k = true ->
      (forall i, (i < k)%nat -> Runs.stops upstream targetURL i = false) ->
      proxy.attempted served = repeat targetURL (S k)
      /\ proxy.response served
         = match Runs.outcome upstream targetURL k with
           | None => proxy.Relayed
           | Some _ => proxy.HttpError "Bad Gateway" 502
           end)
  /\ ((forall i, Z.of_nat i <= config.MaxRetries cfg ->
                 Runs.stops upstream targetURL i = false) ->
      proxy.attempted served
      = repeat targetURL (Z.to_nat (config.MaxRetries cfg + 1))
      /\ proxy.response served = proxy.HttpError "Bad Gateway" 502).
Proof.
  intros Hfind Hne Hbuild Hmax served. subst served.
  unfold proxy.ServeHTTP. rewrite Hfind.
  apply String.eqb_neq in Hne. rewrite Hne, Hbuild.
  unfold proxy.forwardRequestWithRetry. rewrite Hbuild.
  change (@nil string) with (repeat targetURL 0). split.
  - intros k Hk Hstop Hgo.
    rewrite (retryLoop_stops url_Parse URL_String upstream r _ targetURL
               Hbuild k _ 0%nat None); try assumption; [|lia].
    simpl. destruct (Runs.outcome upstream targetURL k); simpl; auto.
  - intros Hgo.
    destruct (retryLoop_exhausts url_Parse URL_String upstream r _ targetURL
                Hbuild (Z.to_nat (config.MaxRetries cfg + 1)) 0%nat None)
      as [e He].
    + intros i Hi. apply Hgo. lia.
    + rewrite He. simpl. auto.
Qed.

(** X1 at work: two connection resets, then an answer, with two retries
    allowed: three attempts, and the answer is relayed. *)
Lemma ServeHTTP_attempt_count_witness :
  let served :=
    proxy.ServeHTTP fixtures.upperUnicode fixtures.url_Parse fixtures.URL_String
      fixtures.upstream_flaky
      {| config.Targets := [fixtures.route "/x" "http://a" ["http://a"]];
         config.MaxRetries := 2; config.RetryDelay := 10 |}
      ∅ (fixtures.GET "/x" "") in
  proxy.attempted served = ["http://a"; "http://a"; "http://a"]
  /\ proxy.response served = proxy.Relayed.
Proof.
  destruct (ServeHTTP_attempt_count fixtures.upperUnicode fixtures.url_Parse
              fixtures.URL_String fixtures.upstream_flaky
              {| config.Targets := [fixtures.route "/x" "http://a" ["http://a"]];
                 config.MaxRetries := 2; config.RetryDelay := 10 |}
              ∅ (fixtures.GET "/x" "")
              (fixtures.route "/x" "http://a" ["http://a"]) "http://a")
    as [Hstop _].
  - reflexivity.
  - discriminate.
  - reflexivity.
  - simpl. lia.
  - apply (Hstop 2%nat).
    + simpl. lia.
    + reflexivity.
    + intros [|[|i]] Hi; [reflexivity | reflexivity | lia].
Defined.


(** ** A healthy URL is preferred *)

Lemma healthyWithTime_In (hm : gmap string proxy.URLHealth)
    (urls : list string) (u : string) (m : Z) :
  In (u, m) (Spec.healthyWithTime hm urls)
  <-> In u urls
      /\ exists h, hm !! u = Some h /\ proxy.IsHealthy h = true
                   /\ m = proxy.responseTimeToUse h.
Proof.
  induction urls as [|v rest IH]; simpl.
  - split; [tauto | now intros [[] _]].
  - destruct (hm !! v) as [hv|] eqn:Hv.
    + destruct (proxy.IsHealthy hv) eqn:Hh; simpl; rewrite IH; split.
      * intros [[= <- <-] | [Hin Hex]]; [|tauto].
        split; [now left|]. now exists hv.
      * intros [[<- | Hin] (h & Hu & Hhe & ->)].
        -- left. congruence.
        -- right. split; [exact Hin | now exists h].
      * intros [Hin Hex]. tauto.
      * intros [[<- | Hin] (h & Hu & Hhe & ->)]; [congruence|].
        split; [exact Hin | now exists h].
    + rewrite IH. split; [tauto|].
      intros [[<- | Hin] (h & Hu & Hhe & ->)]; [congruence|].
      split; [exact Hin | now exists h].
Qed.

Lemma find_no_record_None (hm : gmap string proxy.URLHealth)
    (urls : list string) :
  (forall u, In u urls -> is_Some (hm !! u)) ->
  List.find (fun u => bool_decide (hm !! u = None)) urls = None.
Proof.
  induction urls as [|u rest IH]; intros Hall; simpl; [reflexivity|].
  destruct (Hall u (or_introl eq_refl)) as [h Hu].
  rewrite bool_decide_eq_false_2 by (rewrite Hu; discriminate).
  apply IH. intros v Hv. apply Hall. now right.
Qed.

(** X2. When every URL of the list has a health record and some URL is
    healthy with a time below one hour, the selector returns a URL of the
    list that is marked healthy, and no healthy URL of the list has a
    smaller time: whatever the health map holds, an unhealthy URL is not
    chosen while a healthy one is at hand. *)
Theorem GetFastestHealthyURL_healthy (hm : gmap string proxy.URLHealth)
    (urls : list string) (u0 : string) (h0 : proxy.URLHealth) :
  (forall u, In u urls -> is_Some (hm !! u)) ->
  In u0 urls -> hm !! u0 = Some h0 -> proxy.IsHealthy h0 = true ->
  proxy.responseTimeToUse h0 < time.Hour ->
  exists h,
    In (proxy.GetFastestHealthyURL hm urls) urls
    /\ hm !! proxy.GetFastestHealthyURL hm urls = Some h
    /\ proxy.IsHealthy h = true
    /\ forall u h', In u urls -> hm !! u = Some h' ->
                    proxy.IsHealthy h' = true ->
                    proxy.responseTimeToUse h <= proxy.responseTimeToUse h'.
Proof.
  intros Hall Hin0 Hu0 Hh0 Hlt.
  pose proof (find_no_record_None hm urls Hall) as Hfind.
  destruct (selectLoop_all_records hm urls proxy.fastestInit Hfind)
    as (st' & Hloop & Hbest & Hcount).
  unfold proxy.GetFastestHealthyURL. rewrite Hloop.
  assert (Hc0 : In (u0, proxy.responseTimeToUse h0) (Spec.healthyWithTime hm urls)).
  { apply healthyWithTime_In. split; [exact Hin0|]. now exists h0. }
  destruct (Spec.healthyWithTime hm urls) as [|c rest] eqn:Hc; [contradiction|].
  assert (Hpos : (proxy.healthyCount st' =? 0) = false).
  { apply Z.eqb_neq. rewrite Hcount. simpl. lia. }
  destruct urls as [|first more]; [contradiction|]. rewrite Hpos.
  rewrite leastMetric_cons in Hbest.
  change (snd (proxy.fastestURL proxy.fastestInit,
               proxy.fastestTime proxy.fastestInit)) with time.Hour in Hbest.
  destruct (leastMetric_least c rest) as [Hin Hle].
  pose proof (Hle _ Hc0) as Hle0. simpl in Hle0.
  assert (Hlt' : (snd (Spec.leastMetric c rest) <? time.Hour) = true)
    by (apply Z.ltb_lt; lia).
  rewrite Hlt' in Hbest.
  destruct (Spec.leastMetric c rest) as [ub mb] eqn:Hb.
  injection Hbest as Hurl Htime. rewrite Hurl.
  rewrite <- Hc in Hin. apply healthyWithTime_In in Hin as (Hinb & hb & Hub & Hhb & ->).
  exists hb. repeat split; try assumption.
  intros u h' Hu Hlook Hh'.
  assert (Hcu : In (u, proxy.responseTimeToUse h') (c :: rest)).
  { rewrite <- Hc. apply healthyWithTime_In. split; [exact Hu|]. now exists h'. }
  specialize (Hle _ Hcu). exact Hle.
Qed.

(** X2 at work: the first URL is down, the second up. *)
Lemma GetFastestHealthyURL_healthy_witness :
  proxy.GetFastestHealthyURL
    (Spec.monitor [Spec.Update "http://a" false 3000000000 1;
                   Spec.Update "http://b" true 200000000 2])
    ["http://a"; "http://b"]
  = "http://b".
Proof.
  set (hm := Spec.monitor [Spec.Update "http://a" false 3000000000 1;
                           Spec.Update "http://b" true 200000000 2]).
  destruct (hm !! "http://b") as [hb|] eqn:Hb; [|vm_compute in Hb; discriminate].
  destruct (GetFastestHealthyURL_healthy hm ["http://a"; "http://b"]
              "http://b" hb) as (h & Hin & Hlook & Hh & _).
  - intros u [<- | [<- | []]]; vm_compute; eauto.
  - simpl. auto.
  - exact Hb.
  - vm_compute in Hb. injection Hb as <-. reflexivity.
  - vm_compute in Hb. injection Hb as <-. vm_compute. reflexivity.
  - destruct Hin as [Ha | [Hb' | []]]; [|now symmetry].
    rewrite <- Ha in Hlook. vm_compute in Hlook. injection Hlook as <-.
    vm_compute in Hh. discriminate.
Defined.


(** ** Start-up of the health checker *)

Lemma initializeURLHealth_keeps (hm : gmap string proxy.URLHealth)
    (v : string) (now : Z) (u : string) (h : proxy.URLHealth) :
  hm !! u = Some h -> proxy.initializeURLHealth hm v now !! u = Some h.
Proof.
  intros Hu. unfold proxy.initializeURLHealth.
  destruct (hm !! v) eqn:Hv; [exact Hu|].
  rewrite lookup_insert_ne; [exact Hu | congruence].
Qed.

Lemma initializeURLHealth_lookup (hm : gmap string proxy.URLHealth)
    (v : string) (now : Z) (u : string) :
  proxy.initializeURLHealth hm v now !! u
  = match hm !! u with
    | Some h => Some h
    | None =>
        if decide (v = u)
        then Some {| proxy.URL := u; proxy.IsHealthy := true;
                     proxy.ResponseTime := 0; proxy.LastCheck := now;
                     proxy.ErrorCount := 0; proxy.TotalChecks := 0;
                     proxy.SuccessChecks := 0; proxy.AverageTime := 0;
                     proxy.MinTime := 0; proxy.MaxTime := 0 |}
        else None
    end.
Proof.
  destruct (hm !! u) as [h|] eqn:Hu.
  - now apply initializeURLHealth_keeps.
  - unfold proxy.initializeURLHealth. destruct (decide (v = u)) as [->|Hne].
    + rewrite Hu. apply lookup_insert_eq.
    + destruct (hm !! v); [exact Hu|]. now rewrite lookup_insert_ne.
Qed.

(** The record made for a URL that has none. *)
Lemma assumed_healthy (u : string) (now : Z) :
  let h := {| proxy.URL := u; proxy.IsHealthy := true;
              proxy.ResponseTime := 0; proxy.LastCheck := now;
              proxy.ErrorCount := 0; proxy.TotalChecks := 0;
              proxy.SuccessChecks := 0; proxy.AverageTime := 0;
              proxy.MinTime := 0; proxy.MaxTime := 0 |} in
  proxy.IsHealthy h = true /\ proxy.responseTimeToUse h = 0.
Proof. split; reflexivity. Qed.

(** What a record is after the records of a list of URLs were made: the
    one there was; or a new one, healthy and without any check, if the URL
    is in the list; or none. *)
Lemma initializeEach_lookup (now : string -> Z) (urls : list string) :
  forall (hm : gmap string proxy.URLHealth) (u : string),
    match hm !! u with
    | Some h => health_check.initializeEach now hm urls !! u = Some h
    | None =>
        (In u urls
         /\ health_check.initializeEach now hm urls !! u
            = Some {| proxy.URL := u; proxy.IsHealthy := true;
                      proxy.ResponseTime := 0; proxy.LastCheck := now u;
                      proxy.ErrorCount := 0; proxy.TotalChecks := 0;
                      proxy.SuccessChecks := 0; proxy.AverageTime := 0;
                      proxy.MinTime := 0; proxy.MaxTime := 0 |})
        \/ (~ In u urls
            /\ health_check.initializeEach now hm urls !! u = None)
    end.
Proof.
  unfold health_check.initializeEach.
  induction urls as [|v rest IH]; intros hm u; simpl.
  - destruct (hm !! u); [reflexivity|]. right. tauto.
  - specialize (IH (proxy.initializeURLHealth hm v (now v)) u).
    rewrite initializeURLHealth_lookup in IH.
    destruct (hm !! u) as [h|]; [exact IH|].
    destruct (decide (v = u)) as [->|Hne].
    + left. split; [now left | exact IH].
    + destruct IH as [[Hin H] | [Hin H]]; [left | right]; split;
        try exact H; tauto.
Qed.

Lemma StartHealthChecks_lookup (now : string -> Z)
    (targets : list config.ProxyTarget) :
  forall (hm : gmap string proxy.URLHealth) (u : string),
    let configured :=
      exists target, In target targets /\ In u (config.TargetURLs target) in
    match hm !! u with
    | Some h => health_check.StartHealthChecks now hm targets !! u = Some h
    | None =>
        (configured
         /\ health_check.StartHealthChecks now hm targets !! u
            = Some {| proxy.URL := u; proxy.IsHealthy := true;
                      proxy.ResponseTime := 0; proxy.LastCheck := now u;
                      proxy.ErrorCount := 0; proxy.TotalChecks := 0;
                      proxy.SuccessChecks := 0; proxy.AverageTime := 0;
                      proxy.MinTime := 0; proxy.MaxTime := 0 |})
        \/ (~ configured
            /\ health_check.StartHealthChecks now hm targets !! u = None)
    end.
Proof.
  unfold health_check.StartHealthChecks.
  induction targets as [|t rest IH]; intros hm u; simpl.
  - destruct (hm !! u); [reflexivity|]. right.
    split; [|reflexivity]. now intros (t & [] & _).
  - specialize (IH (health_check.initializeEach now hm (config.TargetURLs t)) u).
    pose proof (initializeEach_lookup now (config.TargetURLs t) hm u) as Hone.
    destruct (hm !! u) as [h|].
    + now rewrite Hone in IH.
    + destruct Hone as [[Hin Hone] | [Hin Hone]]; rewrite Hone in IH.
      * left. split; [|exact IH]. exists t. auto.
      * simpl in IH. destruct IH as [[(t' & Ht' & Hu') H] | [Hno H]].
        -- left. split; [|exact H]. exists t'. auto.
        -- right. split; [|exact H].
           intros (t' & [<- | Ht'] & Hu'); [contradiction|].
           apply Hno. now exists t'.
Qed.


Lemma selectLoop_ties (hm : gmap string proxy.URLHealth) (urls : list string) :
  forall st,
    proxy.fastestTime st = 0 ->
    (forall u, In u urls ->
               exists h, hm !! u = Some h /\ proxy.IsHealthy h = true
                         /\ proxy.responseTimeToUse h = 0) ->
    exists st',
      proxy.selectLoop hm urls st = inr st'
      /\ proxy.fastestURL st' = proxy.fastestURL st
      /\ proxy.healthyCount st <= proxy.healthyCount st'.
Proof.
  induction urls as [|u rest IH]; intros st Ht Hall; simpl.
  - exists st. repeat split; lia.
  - destruct (Hall u (or_introl eq_refl)) as (h & -> & Hh & Hz).
    destruct (IH (proxy.consider u h st)) as (st' & Hloop & Hurl & Hcount).
    + unfold proxy.consider. rewrite Hh, Hz, Ht. reflexivity.
    + intros v Hv. apply Hall. now right.
    + exists st'. split; [exact Hloop|].
      unfold proxy.consider in Hurl, Hcount. rewrite Hh, Hz, Ht in Hurl, Hcount.
      simpl in *. split; [exact Hurl | lia].
Qed.

(** X3. [StartHealthChecks] never touches a record that exists, makes a
    record (healthy, no check counted) for every URL of every target, and
    makes no other record. So right after start-up, before a probe has
    reported, every route is served by the first URL of its list. *)
Theorem StartHealthChecks_start_up (now : string -> Z)
    (targets : list config.ProxyTarget) :
  (forall hm u h,
      hm !! u = Some h ->
      health_check.StartHealthChecks now hm targets !! u = Some h)
  /\ (forall hm target u,
        In target targets -> In u (config.TargetURLs target) ->
        exists h,
          health_check.StartHealthChecks now hm targets !! u = Some h
          /\ (hm !! u = None ->
              proxy.IsHealthy h = true /\ proxy.TotalChecks h = 0
              /\ proxy.responseTimeToUse h = 0))
  /\ (forall hm u,
        is_Some (health_check.StartHealthChecks now hm targets !! u) ->
        is_Some (hm !! u)
        \/ exists target, In target targets /\ In u (config.TargetURLs target))
  /\ (forall target first rest,
        In target targets -> config.TargetURLs target = first :: rest ->
        proxy.selectFastestURL
          (health_check.StartHealthChecks now proxy.NewHealthChecker targets)
          target
        = first).
Proof.
  split; [|split; [|split]].
  - intros hm u h Hu.
    pose proof (StartHealthChecks_lookup now targets hm u) as H.
    now rewrite Hu in H.
  - intros hm target u Ht Hin.
    pose proof (StartHealthChecks_lookup now targets hm u) as H. simpl in H.
    destruct (hm !! u) as [h|].
    + exists h. split; [exact H | discriminate].
    + destruct H as [[_ H] | [Hno _]].
      * eexists. split; [exact H|]. intros _. repeat split.
      * destruct Hno. now exists target.
  - intros hm u Hsome.
    pose proof (StartHealthChecks_lookup now targets hm u) as H. simpl in H.
    destruct (hm !! u) as [h|]; [left; eauto|].
    destruct H as [[Hc _] | [_ H]]; [now right|].
    rewrite H in Hsome. now destruct Hsome.
  - intros target first rest Ht Hurls.
    set (hm := health_check.StartHealthChecks now proxy.NewHealthChecker targets).
    assert (Hall : forall u, In u (first :: rest) ->
              exists h, hm !! u = Some h /\ proxy.IsHealthy h = true
                        /\ proxy.responseTimeToUse h = 0).
    { intros u Hu.
      pose proof (StartHealthChecks_lookup now targets proxy.NewHealthChecker u)
        as H. simpl in H.
      unfold proxy.NewHealthChecker in H at 1. rewrite lookup_empty in H.
      destruct H as [[_ H] | [Hno _]].
      - eexists. split; [exact H|]. split; reflexivity.
      - destruct Hno. exists target. rewrite Hurls. auto. }
    unfold proxy.selectFastestURL. rewrite Hurls.
    destruct rest as [|second rest]; [reflexivity|].
    unfold proxy.GetFastestHealthyURL.
    change (proxy.selectLoop hm (first :: second :: rest) proxy.fastestInit)
      with (match hm !! first with
            | None => inl first
            | Some health =>
                proxy.selectLoop hm (second :: rest)
                  (proxy.consider first health proxy.fastestInit)
            end).
    destruct (Hall first (or_introl eq_refl)) as (h & -> & Hh & Hz).
    destruct (selectLoop_ties hm (second :: rest)
                (proxy.consider first h proxy.fastestInit))
      as (st' & -> & Hurl & Hcount).
    + unfold proxy.consider. now rewrite Hh, Hz.
    + intros v Hv. apply Hall. now right.
    + unfold proxy.consider in Hurl, Hcount. rewrite Hh, Hz in Hurl, Hcount.
      simpl in Hurl, Hcount.
      assert (Hpos : (proxy.healthyCount st' =? 0) = false)
        by (apply Z.eqb_neq; lia).
      now rewrite Hpos.
Qed.


(** ** The counters of a health record *)

Lemma verdictsOf_app (u : string) (ops ops' : list Spec.HealthOp) :
  Runs.verdictsOf u (ops ++ ops') = Runs.verdictsOf u ops ++ Runs.verdictsOf u ops'.
Proof.
  induction ops as [|op ops IH]; simpl; [reflexivity|].
  destruct op as [v now | v b t now]; [exact IH|].
  destruct (String.eqb v u); simpl; now rewrite IH.
Qed.

Lemma trailingFailures_snoc (vs : list bool) (b : bool) :
  Runs.trailingFailures (vs ++ [b])
  = if b then 0%nat else S (Runs.trailingFailures vs).
Proof.
  unfold Runs.trailingFailures. rewrite rev_unit. now destruct b.
Qed.

Lemma verdictsOf_length (u : string) (ops : list Spec.HealthOp) :
  (length (Runs.verdictsOf u ops) <= length ops)%nat.
Proof.
  induction ops as [|op ops IH]; simpl; [lia|].
  destruct op as [v now | v b t now]; [lia|].
  destruct (String.eqb v u); simpl; lia.
Qed.

Lemma leadingFailures_length (vs : list bool) :
  (Runs.leadingFailures vs <= length vs)%nat.
Proof. induction vs as [|[] vs IH]; simpl; lia. Qed.

Lemma trailingFailures_length (vs : list bool) :
  (Runs.trailingFailures vs <= length vs)%nat.
Proof.
  unfold Runs.trailingFailures.
  pose proof (leadingFailures_length (rev vs)) as H.
  now rewrite length_rev in H.
Qed.

Lemma monitor_counters (ops : list Spec.HealthOp) :
  Z.of_nat (length ops) <= Int64.max_int64 ->
  forall u,
    match Spec.monitor ops !! u with
    | Some h =>
        proxy.TotalChecks h = Z.of_nat (length (Runs.verdictsOf u ops))
        /\ proxy.ErrorCount h
           = Z.of_nat (Runs.trailingFailures (Runs.verdictsOf u ops))
        /\ proxy.IsHealthy h = List.last (Runs.verdictsOf u ops) true
    | None => Runs.verdictsOf u ops = []
    end.
Proof.
  induction ops as [|op ops IH] using rev_ind; intros Hlen u.
  - unfold Spec.monitor, proxy.NewHealthChecker. simpl.
    now rewrite lookup_empty.
  - rewrite length_app, Nat2Z.inj_add in Hlen. simpl in Hlen.
    specialize (IH ltac:(lia)).
    rewrite monitor_snoc, verdictsOf_app.
    destruct op as [v now | v b t now]; simpl Spec.applyOp.
    + simpl Runs.verdictsOf. rewrite app_nil_r.
      rewrite initializeURLHealth_lookup.
      specialize (IH u). destruct (Spec.monitor ops !! u); [exact IH|].
      destruct (decide (v = u)); [|exact IH]. rewrite IH. simpl. auto.
    + unfold proxy.updateHealthStatus.
      destruct (decide (v = u)) as [->|Hne].
      * rewrite lookup_insert_eq. simpl Runs.verdictsOf.
        rewrite String.eqb_refl, length_app, trailingFailures_snoc, last_last.
        simpl length.
        assert (Hold :
          proxy.TotalChecks (proxy.healthOrNew (Spec.monitor ops) u)
          = Z.of_nat (length (Runs.verdictsOf u ops))
          /\ proxy.ErrorCount (proxy.healthOrNew (Spec.monitor ops) u)
             = Z.of_nat (Runs.trailingFailures (Runs.verdictsOf u ops))).
        { unfold proxy.healthOrNew. specialize (IH u).
          destruct (Spec.monitor ops !! u); [tauto|]. now rewrite IH. }
        destruct Hold as [HT HE].
        pose proof (verdictsOf_length u ops).
        pose proof (trailingFailures_length (Runs.verdictsOf u ops)).
        simpl. rewrite HT, HE. split; [|split; [|reflexivity]].
        -- rewrite wrap_small by lia. lia.
        -- destruct b; [reflexivity|]. rewrite wrap_small by lia. lia.
      * rewrite lookup_insert_ne by exact Hne.
        assert (Hnone : Runs.verdictsOf u [Spec.Update v b t now] = []).
        { simpl. apply String.eqb_neq in Hne. now rewrite Hne. }
        rewrite Hnone, app_nil_r. apply IH.
Qed.

(** X4. In a run of the monitor of at most 2^63 - 1 operations, a record
    has in [TotalChecks] the number of probes reported for its URL, in
    [ErrorCount] the number of failed probes since the last successful one
    (or since the start), and in [IsHealthy] the verdict of the last probe;
    a record no probe has reported on yet is healthy. *)
Theorem updateHealthStatus_counters (ops : list Spec.HealthOp) (u : string)
    (h : proxy.URLHealth) :
  Z.of_nat (length ops) <= Int64.max_int64 ->
  Spec.monitor ops !! u = Some h ->
  proxy.TotalChecks h = Z.of_nat (length (Runs.verdictsOf u ops))
  /\ proxy.ErrorCount h
     = Z.of_nat (Runs.trailingFailures (Runs.verdictsOf u ops))
  /\ proxy.IsHealthy h = List.last (Runs.verdictsOf u ops) true.
Proof.
  intros Hlen Hu. pose proof (monitor_counters ops Hlen u) as H.
  now rewrite Hu in H.
Qed.

(** X4 at work: a success, then two failures. *)
Lemma updateHealthStatus_counters_witness :
  exists h,
    Spec.monitor [Spec.Initialize "http://u" 0;
                  Spec.Update "http://u" true 50000000 1;
                  Spec.Update "http://u" false 3000000000 2;
                  Spec.Update "http://v" true 70000000 3;
                  Spec.Update "http://u" false 3000000000 4] !! "http://u"
    = Some h
    /\ proxy.TotalChecks h = 3 /\ proxy.ErrorCount h = 2
    /\ proxy.IsHealthy h = false.
Proof.
  set (ops := [Spec.Initialize "http://u" 0;
               Spec.Update "http://u" true 50000000 1;
               Spec.Update "http://u" false 3000000000 2;
               Spec.Update "http://v" true 70000000 3;
               Spec.Update "http://u" false 3000000000 4]).
  destruct (Spec.monitor ops !! "http://u") as [h|] eqn:Hu;
    [|vm_compute in Hu; discriminate].
  exists h. split; [reflexivity|].
  apply (updateHealthStatus_counters ops "http://u" h); [|exact Hu].
  vm_compute. discriminate.
Defined.


(** ** The journal: reading *)

Lemma ringSize_pos : (0 < storage.ringSize)%nat.
Proof. unfold storage.ringSize. lia. Qed.

Lemma mod_apart (s k n : nat) :
  (k < n)%nat -> (n < k + s)%nat -> (k mod s)%nat <> (n mod s)%nat.
Proof.
  intros Hkn Hns Heq.
  assert (Hs : s <> 0%nat) by lia.
  pose proof (Nat.div_mod k s Hs) as Hk.
  pose proof (Nat.div_mod n s Hs) as Hn.
  rewrite Heq in Hk.
  remember (k / s)%nat as qk. remember (n / s)%nat as qn.
  remember (n mod s)%nat as m.
  assert (qk < qn)%nat by nia. assert (qn < qk + 1)%nat by nia. lia.
Qed.

(** The buffer after the scan: its length, the number of lines, and each
    of the last [ringSize] lines at its index modulo [ringSize]. *)
Lemma ringScan_inv (texts : list string) :
  let '(tempLines, lineCount) := storage.ringScan texts in
  length tempLines = storage.ringSize
  /\ lineCount = length texts
  /\ forall k, (k < length texts)%nat ->
               (length texts <= k + storage.ringSize)%nat ->
               tempLines !! (k mod storage.ringSize)%nat = texts !! k.
Proof.
  pose proof ringSize_pos as Hpos. unfold storage.ringScan.
  induction texts as [|x texts IH] using rev_ind.
  - cbn [fold_left]. rewrite length_replicate. repeat split.
    intros k Hk. cbn [length] in Hk. lia.
  - rewrite fold_left_app. cbn [fold_left].
    destruct (fold_left storage.ringStep texts
                (replicate storage.ringSize "", 0%nat)) as [T n].
    destruct IH as (Hlen & -> & Hlook). unfold storage.ringStep.
    cbn [fst snd].
    rewrite length_insert, length_app. cbn [length]. split; [exact Hlen|].
    split; [lia|]. intros k Hk Hwin.
    destruct (decide (k = length texts)) as [->|Hne].
    + rewrite list_lookup_insert_eq
        by (rewrite Hlen; apply Nat.mod_upper_bound; lia).
      now rewrite lookup_app_r, Nat.sub_diag by lia.
    + rewrite list_lookup_insert_ne by (apply not_eq_sym, mod_apart; lia).
      rewrite lookup_app_l by lia. apply Hlook; lia.
Qed.

(** The lines kept are the last [ringSize] lines of the file. *)
Lemma ringLines_last (texts : list string) :
  storage.ringLines texts = Runs.lastn storage.ringSize texts.
Proof.
  pose proof ringSize_pos as Hpos. pose proof (ringScan_inv texts) as H.
  unfold storage.ringLines, Runs.lastn.
  destruct (storage.ringScan texts) as [T n].
  destruct H as (Hlen & -> & Hlook).
  destruct (length texts <=? storage.ringSize)%nat eqn:Hcase.
  - apply Nat.leb_le in Hcase.
    replace (length texts - storage.ringSize)%nat with 0%nat by lia.
    rewrite drop_0. apply list_eq. intros i.
    destruct (decide (i < length texts)%nat) as [Hi|Hi].
    + rewrite lookup_take_lt by lia. rewrite <- (Hlook i) by lia.
      now rewrite Nat.mod_small by lia.
    + rewrite lookup_take_ge by lia. symmetry. apply lookup_ge_None. lia.
  - apply Nat.leb_gt in Hcase. apply list_eq. intros i.
    rewrite list_lookup_fmap, lookup_drop.
    destruct (decide (i < storage.ringSize)%nat) as [Hi|Hi].
    + rewrite lookup_seq_lt by lia. cbn [fmap option_fmap option_map Nat.add].
      rewrite Nat.Div0.add_mod_idemp_l.
      replace (length texts + i)%nat
        with (length texts - storage.ringSize + i + 1 * storage.ringSize)%nat
        by lia.
      rewrite Nat.Div0.mod_add, Hlook by lia.
      destruct (texts !! (length texts - storage.ringSize + i)%nat) eqn:E;
        [reflexivity|].
      apply lookup_ge_None in E. lia.
    + rewrite lookup_seq_ge by lia. cbn [fmap option_fmap option_map].
      symmetry. apply lookup_ge_None. lia.
Qed.


Section JournalRead.
Variable tooLong : string -> bool.
Variable decode : string -> option types.LogMessage.

Lemma scan_fits (lines : list string) :
  Forall (fun line => tooLong line = false) lines ->
  storage.scan tooLong lines = (lines, false).
Proof.
  induction 1 as [|line rest Hline _ IH]; simpl; [reflexivity|].
  now rewrite Hline, IH.
Qed.

Lemma scan_too_long (lines : list string) :
  Exists (fun line => tooLong line = true) lines ->
  snd (storage.scan tooLong lines) = true.
Proof.
  induction lines as [|line rest IH]; intros H; [inversion H|]. simpl.
  destruct (tooLong line) eqn:Hl; [reflexivity|].
  inversion H as [? ? Hx|? ? Hx]; subst; [congruence|].
  specialize (IH Hx). destruct (storage.scan tooLong rest). exact IH.
Qed.

Lemma omap_length_le {A B : Type} (f : A -> option B) (l : list A) :
  (length (omap f l) <= length l)%nat.
Proof.
  induction l as [|x l IH]; csimpl; [lia|]. destruct (f x); csimpl; lia.
Qed.

Lemma lastn_lastn {A : Type} (a b : nat) (l : list A) :
  Runs.lastn a (Runs.lastn b l) = Runs.lastn (Nat.min a b) l.
Proof.
  unfold Runs.lastn. rewrite drop_drop, length_drop. f_equal. lia.
Qed.

Lemma lastn_length {A : Type} (n : nat) (l : list A) :
  length (Runs.lastn n l) = Nat.min n (length l).
Proof. unfold Runs.lastn. rewrite length_drop. lia. Qed.

Lemma newestFirst_lastn (lines : list string) (limit : Z) :
  0 <= limit ->
  storage.newestFirst decode lines limit
  = omap decode (rev (Runs.lastn (Z.to_nat limit) lines)).
Proof.
  intros Hl. unfold storage.newestFirst, Runs.lastn. do 3 f_equal.
  destruct (limit <? Z.of_nat (length lines)) eqn:H;
    rewrite ?Z.ltb_lt, ?Z.ltb_ge in H; lia.
Qed.

Lemma newestFirst_nonpositive (lines : list string) (limit : Z) :
  limit <= 0 -> storage.newestFirst decode lines limit = [].
Proof.
  intros Hl. unfold storage.newestFirst.
  rewrite drop_ge; [reflexivity|].
  destruct (limit <? Z.of_nat (length lines)) eqn:H;
    rewrite ?Z.ltb_lt, ?Z.ltb_ge in H; lia.
Qed.

Lemma newestFirst_length (lines : list string) (limit : Z) :
  0 <= limit ->
  Z.of_nat (length (storage.newestFirst decode lines limit)) <= limit.
Proof.
  intros Hl. rewrite newestFirst_lastn by exact Hl.
  pose proof (omap_length_le decode (rev (Runs.lastn (Z.to_nat limit) lines))) as H.
  rewrite length_rev, lastn_length in H. lia.
Qed.

(** X5. [readMessagesFromFile] on a file whose lines the scanner can hold
    returns, newest first, the messages decoded from the last [limit]
    lines of the last 1000 lines of the file, skipping the lines that do
    not decode: at most [limit] messages, and none older than the 1000th
    line from the end. A file that does not exist gives the "not exist"
    error, and a file with a line the scanner cannot hold gives a scan
    error, whatever its other lines are. *)
Theorem readMessagesFromFile_newest (dir : gmap string (list string))
    (path : string) (limit : Z) :
  (dir !! path = None ->
   storage.readMessagesFromFile tooLong decode dir path limit
   = inr storage.NotExist)
  /\ (forall content,
        dir !! path = Some content ->
        Exists (fun line => tooLong line = true) content ->
        storage.readMessagesFromFile tooLong decode dir path limit
        = inr storage.ScanFailed)
  /\ (forall content,
        dir !! path = Some content ->
        Forall (fun line => tooLong line = false) content ->
        0 <= limit ->
        exists messages,
          storage.readMessagesFromFile tooLong decode dir path limit
          = inl messages
          /\ messages
             = omap decode
                 (rev (Runs.lastn (Nat.min (Z.to_nat limit) 1000) content))
          /\ Z.of_nat (length messages) <= limit).
Proof.
  unfold storage.readMessagesFromFile. split; [|split].
  - now intros ->.
  - intros content -> Hlong. pose proof (scan_too_long content Hlong) as H.
    destruct (storage.scan tooLong content) as [texts failed].
    simpl in H. now rewrite H.
  - intros content -> Hfit Hl. rewrite (scan_fits content Hfit).
    eexists. split; [reflexivity|]. split.
    + rewrite newestFirst_lastn by exact Hl.
      now rewrite ringLines_last, lastn_lastn.
    + now apply newestFirst_length.
Qed.

End JournalRead.


(** ** The journal: files *)

Lemma elem_of_Glob (dir : gmap string (list string)) (name : string) :
  name ∈ storage.Glob dir
  <-> is_Some (dir !! name) /\ storage.isHistoryFile name = true.
Proof.
  unfold storage.Glob. rewrite merge_sort_Permutation.
  rewrite list_elem_of_In, filter_In, <- list_elem_of_In.
  rewrite list_elem_of_fmap. split.
  - intros [([k v] & -> & Hkv) Hh]. apply elem_of_map_to_list in Hkv.
    simpl. split; [eauto | exact Hh].
  - intros [[v Hv] Hh]. split; [|exact Hh].
    exists (name, v). split; [reflexivity|]. now apply elem_of_map_to_list.
Qed.

Lemma delete_all_lookup (names : list string) :
  forall (dir : gmap string (list string)) (name : string),
    fold_left (fun d n => delete n d) names dir !! name
    = if bool_decide (name ∈ names) then None else dir !! name.
Proof.
  induction names as [|n names IH]; intros dir name.
  - case_bool_decide as Hin; [|reflexivity].
    now apply not_elem_of_nil in Hin.
  - cbn [fold_left]. rewrite IH.
    case_bool_decide as Hin; case_bool_decide as Hin'; try reflexivity.
    + exfalso. apply Hin'. now right.
    + apply elem_of_cons in Hin' as [-> | Hin']; [|contradiction].
      apply lookup_delete_eq.
    + apply lookup_delete_ne. intros ->. apply Hin'. now left.
Qed.

Lemma Glob_nil (dir : gmap string (list string)) :
  (forall name, is_Some (dir !! name) -> storage.isHistoryFile name = false) ->
  storage.Glob dir = [].
Proof.
  intros H. destruct (storage.Glob dir) as [|name rest] eqn:E; [reflexivity|].
  assert (Hin : name ∈ storage.Glob dir) by (rewrite E; left).
  apply elem_of_Glob in Hin as [Hs Hh]. rewrite (H name Hs) in Hh. discriminate.
Qed.


(** ** The journal: writing *)

Section JournalWrite.
Variable dayFile secondFile : Z -> string.
Variable tooLong : string -> bool.
Variable encode : types.LogMessage -> option string.
Variable decode : string -> option types.LogMessage.

Lemma scan_ok_inv (lines : list string) :
  snd (storage.scan tooLong lines) = false ->
  Forall (fun line => tooLong line = false) lines.
Proof.
  induction lines as [|line rest IH]; intros H; [constructor|].
  simpl in H. destruct (tooLong line) eqn:Hl; [discriminate|].
  destruct (storage.scan tooLong rest) as [texts failed]. simpl in *.
  constructor; [exact Hl | now apply IH].
Qed.

Lemma rotateFileIfNeeded_blocked (h : storage.HistoryStorage)
    (dir : gmap string (list string)) (now : Z) (content : list string) :
  dir !! storage.filePath h = Some content ->
  Exists (fun line => tooLong line = true) content ->
  storage.rotateFileIfNeeded secondFile tooLong h dir now
  = inr storage.ScanFailed.
Proof.
  intros Hc Hl. unfold storage.rotateFileIfNeeded, storage.countLines.
  rewrite Hc. pose proof (scan_too_long tooLong content Hl) as H.
  destruct (storage.scan tooLong content) as [texts failed].
  simpl in H. now subst failed.
Qed.

Lemma AppendMessage_blocked (h : storage.HistoryStorage)
    (dir : gmap string (list string)) (msg : types.LogMessage) (now : Z)
    (content : list string) :
  dir !! storage.filePath h = Some content ->
  Exists (fun line => tooLong line = true) content ->
  storage.AppendMessage secondFile tooLong encode h dir msg now
  = (h, dir, Some "failed to rotate file").
Proof.
  intros Hc Hl. unfold storage.AppendMessage.
  now rewrite (rotateFileIfNeeded_blocked h dir now content Hc Hl).
Qed.

Lemma GetRecentMessages_blocked (h : storage.HistoryStorage)
    (dir : gmap string (list string)) (limit : Z) (content : list string) :
  dir !! storage.filePath h = Some content ->
  Exists (fun line => tooLong line = true) content ->
  storage.GetRecentMessages tooLong decode h dir limit
  = storage.ReadError "failed to read current file".
Proof.
  intros Hc Hl. unfold storage.GetRecentMessages, storage.readMessagesFromFile.
  rewrite Hc. pose proof (scan_too_long tooLong content Hl) as H.
  destruct (storage.scan tooLong content) as [texts failed].
  simpl in H. now subst failed.
Qed.

Lemma cleanupOldFiles_lookup (h : storage.HistoryStorage)
    (dir : gmap string (list string)) (name : string) :
  storage.cleanupOldFiles h dir !! name = dir !! name
  \/ (storage.cleanupOldFiles h dir !! name = None
      /\ storage.isHistoryFile name = true).
Proof.
  unfold storage.cleanupOldFiles.
  destruct (storage.maxFiles h <? Z.of_nat (length (storage.Glob dir)));
    [|now left].
  rewrite delete_all_lookup. case_bool_decide as Hin; [|now left].
  right. split; [reflexivity|].
  apply subseteq_take in Hin. now apply elem_of_Glob in Hin as [_ Hh].
Qed.

(** What a rotation that does not fail leaves: the same storage and
    files, or the storage on the file of the second and fewer old files;
    the lines of the current file were all countable. *)
Lemma rotateFileIfNeeded_inl (h h' : storage.HistoryStorage)
    (dir dir' : gmap string (list string)) (now : Z) :
  storage.rotateFileIfNeeded secondFile tooLong h dir now = inl (h', dir') ->
  ((h' = h /\ dir' = dir)
   \/ (h' = storage.withFilePath h (secondFile now)
       /\ dir' = storage.cleanupOldFiles h' dir))
  /\ (forall content, dir !! storage.filePath h = Some content ->
        Forall (fun line => tooLong line = false) content).
Proof.
  unfold storage.rotateFileIfNeeded, storage.countLines.
  destruct (dir !! storage.filePath h) as [content|] eqn:Hc.
  - pose proof (scan_ok_inv content) as Hok.
    destruct (storage.scan tooLong content) as [texts failed].
    destruct failed; [discriminate|]. simpl in Hok.
    destruct (Z.of_nat (length texts) <? storage.maxLines h);
      intros [= <- <-]; (split; [|intros c [= <-]; now apply Hok]).
    + now left.
    + now right.
  - intros [= <- <-]. split; [now left | discriminate].
Qed.

Lemma rotateFileIfNeeded_lookup (h h' : storage.HistoryStorage)
    (dir dir' : gmap string (list string)) (now : Z) (name : string) :
  storage.rotateFileIfNeeded secondFile tooLong h dir now = inl (h', dir') ->
  dir' !! name = dir !! name
  \/ (dir' !! name = None /\ storage.isHistoryFile name = true).
Proof.
  intros H. apply rotateFileIfNeeded_inl in H as [[[-> ->] | [-> ->]] _].
  - now left.
  - apply cleanupOldFiles_lookup.
Qed.

Lemma openForAppend_lookup (dir : gmap string (list string))
    (path name : string) :
  storage.openForAppend dir path !! name
  = if decide (name = path) then Some (default [] (dir !! path))
    else dir !! name.
Proof.
  unfold storage.openForAppend. destruct (decide (name = path)) as [->|Hne].
  - destruct (dir !! path) as [c|] eqn:E; [exact E|].
    now rewrite lookup_insert_eq.
  - destruct (dir !! path); [reflexivity|].
    now rewrite lookup_insert_ne by congruence.
Qed.

Lemma appendLine_lookup (dir : gmap string (list string))
    (path line name : string) :
  storage.appendLine dir path line !! name
  = if decide (name = path) then Some (default [] (dir !! path) ++ [line])
    else dir !! name.
Proof.
  unfold storage.appendLine. destruct (decide (name = path)) as [->|Hne].
  - now rewrite lookup_insert_eq.
  - now rewrite lookup_insert_ne by congruence.
Qed.

(** The three ways [AppendMessage] ends. *)
Lemma AppendMessage_inv (h h' : storage.HistoryStorage)
    (dir dir' : gmap string (list string)) (msg : types.LogMessage) (now : Z)
    (err : option string) :
  storage.AppendMessage secondFile tooLong encode h dir msg now
  = (h', dir', err) ->
  (err = Some "failed to rotate file" /\ h' = h /\ dir' = dir)
  \/ exists dir1,
       storage.rotateFileIfNeeded secondFile tooLong h dir now
       = inl (h', dir1)
       /\ forall name,
            dir' !! name
            = if decide (name = storage.filePath h') then
                Some (default [] (dir1 !! name)
                      ++ match encode msg with
                         | Some data => [data]
                         | None => []
                         end)
              else dir1 !! name.
Proof.
  unfold storage.AppendMessage.
  destruct (storage.rotateFileIfNeeded secondFile tooLong h dir now)
    as [[h1 dir1]|e] eqn:Hrot.
  - destruct (encode msg) as [data|]; intros [= <- <- <-]; right;
      exists dir1; (split; [reflexivity|]); intros name.
    + rewrite appendLine_lookup. destruct (decide (name = _)) as [->|];
        rewrite openForAppend_lookup.
      * now rewrite decide_True by reflexivity.
      * now rewrite decide_False by assumption.
    + rewrite openForAppend_lookup. destruct (decide (name = _)) as [->|];
        [now rewrite app_nil_r | reflexivity].
  - intros [= <- <- <-]. now left.
Qed.

End JournalWrite.


(** ** The journal: what a caller sees *)

Lemma lastn_snoc {A : Type} (k : nat) (l : list A) (x : A) :
  Runs.lastn (S k) (l ++ [x]) = Runs.lastn k l ++ [x].
Proof.
  unfold Runs.lastn. rewrite length_app. cbn [length].
  replace (length l + 1 - S k)%nat with (length l - k)%nat by lia.
  apply drop_app_le. lia.
Qed.

Section JournalUse.
Variable dayFile secondFile : Z -> string.
Variable tooLong : string -> bool.
Variable encode : types.LogMessage -> option string.
Variable decode : string -> option types.LogMessage.

Lemma readMessagesFromFile_fits (dir : gmap string (list string))
    (path : string) (limit : Z) (content : list string) :
  dir !! path = Some content ->
  Forall (fun line => tooLong line = false) content ->
  storage.readMessagesFromFile tooLong decode dir path limit
  = inl (storage.newestFirst decode
           (Runs.lastn storage.ringSize content) limit).
Proof.
  intros Hc Hfit. unfold storage.readMessagesFromFile.
  now rewrite Hc, (scan_fits tooLong content Hfit), ringLines_last.
Qed.

Lemma readMessagesFromFile_length (dir : gmap string (list string))
    (path : string) (limit : Z) (messages : list types.LogMessage) :
  storage.readMessagesFromFile tooLong decode dir path limit = inl messages ->
  (0 <= limit -> Z.of_nat (length messages) <= limit)
  /\ (limit <= 0 -> messages = []).
Proof.
  unfold storage.readMessagesFromFile.
  destruct (dir !! path) as [content|]; [|discriminate].
  destruct (storage.scan tooLong content) as [texts failed].
  destruct failed; [discriminate|]. intros [= <-]. split; intros Hl.
  - now apply newestFirst_length.
  - now apply newestFirst_nonpositive.
Qed.

(** [GetRecentMessages] from the messages [cur] of the current file
    ([[]] when there is none). *)
Lemma GetRecentMessages_from (h : storage.HistoryStorage)
    (dir : gmap string (list string)) (limit : Z)
    (cur : list types.LogMessage) :
  (storage.readMessagesFromFile tooLong decode dir (storage.filePath h) limit
   = inl cur
   \/ (storage.readMessagesFromFile tooLong decode dir (storage.filePath h)
         limit = inr storage.NotExist /\ cur = [])) ->
  (0 <= limit ->
   exists l,
     storage.GetRecentMessages tooLong decode h dir limit = storage.Messages l
     /\ cur `prefix_of` l
     /\ Z.of_nat (length l) <= limit
     /\ (Z.of_nat (length cur) = limit -> l = cur))
  /\ (limit < 0 ->
      storage.GetRecentMessages tooLong decode h dir limit = storage.Panic).
Proof.
  intros Hread.
  assert (Hcur : (0 <= limit -> Z.of_nat (length cur) <= limit)
                 /\ (limit <= 0 -> cur = [])).
  { destruct Hread as [H | [_ ->]].
    - now apply readMessagesFromFile_length in H.
    - simpl. split; [lia | reflexivity]. }
  assert (Hget :
    storage.GetRecentMessages tooLong decode h dir limit
    = let messages :=
        if Z.of_nat (length cur) <? limit then
          cur ++ storage.readFromHistoryFiles tooLong decode h dir
                   (limit - Z.of_nat (length cur))
        else cur in
      if limit <? Z.of_nat (length messages) then
        if limit <? 0 then storage.Panic
        else storage.Messages (take (Z.to_nat limit) messages)
      else storage.Messages messages).
  { unfold storage.GetRecentMessages.
    destruct Hread as [-> | [-> ->]]; reflexivity. }
  rewrite Hget. clear Hget Hread. destruct Hcur as [Hle Hnil]. split.
  - intros Hl. specialize (Hle Hl). cbv zeta.
    destruct (Z.of_nat (length cur) <? limit) eqn:Hlt.
    + apply Z.ltb_lt in Hlt.
      set (all := cur ++ storage.readFromHistoryFiles tooLong decode h dir
                          (limit - Z.of_nat (length cur))).
      destruct (limit <? Z.of_nat (length all)) eqn:Hmany.
      * apply Z.ltb_lt in Hmany.
        rewrite (proj2 (Z.ltb_ge limit 0)) by lia.
        eexists. split; [reflexivity|]. split; [|split].
        -- unfold all. rewrite take_app_ge by lia.
           now apply prefix_app_r.
        -- rewrite length_take. lia.
        -- lia.
      * apply Z.ltb_ge in Hmany. eexists. split; [reflexivity|].
        split; [|split]; [now apply prefix_app_r | exact Hmany | lia].
    + apply Z.ltb_ge in Hlt.
      rewrite (proj2 (Z.ltb_ge limit (Z.of_nat (length cur)))) by lia.
      eexists. split; [reflexivity|]. split; [|split]; [reflexivity|lia|auto].
  - intros Hl. rewrite (Hnil ltac:(lia)). cbn [length].
    rewrite (proj2 (Z.ltb_ge (Z.of_nat 0) limit)) by lia. cbv zeta.
    cbn [length]. rewrite (proj2 (Z.ltb_lt limit (Z.of_nat 0))) by lia.
    now rewrite (proj2 (Z.ltb_lt limit 0)) by lia.
Qed.

Lemma readMessagesFromFile_cases (dir : gmap string (list string))
    (path : string) (limit : Z) :
  (exists cur,
     storage.readMessagesFromFile tooLong decode dir path limit = inl cur)
  \/ storage.readMessagesFromFile tooLong decode dir path limit
     = inr storage.NotExist
  \/ (storage.readMessagesFromFile tooLong decode dir path limit
      = inr storage.ScanFailed
      /\ exists content,
           dir !! path = Some content
           /\ Exists (fun line => tooLong line = true) content).
Proof.
  unfold storage.readMessagesFromFile.
  destruct (dir !! path) as [content|]; [|now right; left].
  pose proof (scan_fits tooLong content) as Hfit.
  destruct (storage.scan tooLong content) as [texts failed] eqn:Hscan.
  destruct failed; [|left; eauto]. right; right. split; [reflexivity|].
  exists content. split; [reflexivity|].
  destruct (decide (Forall (fun line => tooLong line = false) content))
    as [Hall|Hnot].
  - specialize (Hfit Hall). discriminate.
  - apply not_Forall_Exists in Hnot; [|intros x; apply _].
    eapply Exists_impl; [exact Hnot|]. intros x Hx. simpl in Hx.
    now destruct (tooLong x).
Qed.

End JournalUse.


Section JournalProperties.
Variable dayFile secondFile : Z -> string.
Variable tooLong : string -> bool.
Variable encode : types.LogMessage -> option string.
Variable decode : string -> option types.LogMessage.

(** X6. A line the scanner cannot hold blocks the journal. If
    [AppendMessage] has written a message whose line is too long for the
    scanner's buffer, then every later [AppendMessage] fails with "failed
    to rotate file", leaving the storage and the files as they are, and
    every [GetRecentMessages] fails with "failed to read current file",
    whatever the limit. *)
Theorem AppendMessage_oversized_line_blocks (h h' : storage.HistoryStorage)
    (dir dir' : gmap string (list string)) (msg : types.LogMessage) (now : Z)
    (data : string) :
  storage.AppendMessage secondFile tooLong encode h dir msg now
  = (h', dir', None) ->
  encode msg = Some data ->
  tooLong data = true ->
  (forall msg2 now2,
     storage.AppendMessage secondFile tooLong encode h' dir' msg2 now2
     = (h', dir', Some "failed to rotate file"))
  /\ (forall limit,
        storage.GetRecentMessages tooLong decode h' dir' limit
        = storage.ReadError "failed to read current file").
Proof.
  intros Happ Henc Hlong.
  apply AppendMessage_inv in Happ as [[[=] _] | (dir1 & _ & Hlook)].
  specialize (Hlook (storage.filePath h')).
  rewrite decide_True, Henc in Hlook by reflexivity.
  assert (Hex : Exists (fun line => tooLong line = true)
                  (default [] (dir1 !! storage.filePath h') ++ [data])).
  { apply Exists_app. right. now constructor. }
  split.
  - intros msg2 now2. now apply (AppendMessage_blocked _ _ _ _ _ _ _ _ Hlook).
  - intros limit. now apply (GetRecentMessages_blocked _ _ _ _ _ _ Hlook).
Qed.

(** X7. [AppendMessage] only ever adds at the end. Whatever it returns, a
    file found afterwards either holds the lines it held before, followed
    by nothing or by the one new line, or it is the current file, made by
    this call, holding just the new line (nothing, if the message could
    not be encoded). Files are removed only among those named
    [history_*.jsonl], and when the rotation fails nothing changes at all.
    When no error is returned, the line of the message is the last line of
    the current file. *)
Theorem AppendMessage_append_only (h : storage.HistoryStorage)
    (dir : gmap string (list string)) (msg : types.LogMessage) (now : Z) :
  let '(h', dir', err) :=
    storage.AppendMessage secondFile tooLong encode h dir msg now in
  let new :=
    match encode msg with Some data => [data] | None => [] end in
  (forall name lines',
     dir' !! name = Some lines' ->
     (exists lines,
        dir !! name = Some lines
        /\ (lines' = lines
            \/ (name = storage.filePath h' /\ lines' = lines ++ new)))
     \/ (name = storage.filePath h' /\ lines' = new))
  /\ (forall name,
        storage.isHistoryFile name = false ->
        is_Some (dir !! name) -> is_Some (dir' !! name))
  /\ (err = Some "failed to rotate file" -> h' = h /\ dir' = dir)
  /\ (err = None ->
      exists old data,
        encode msg = Some data
        /\ dir' !! storage.filePath h' = Some (old ++ [data])).
Proof.
  destruct (storage.AppendMessage secondFile tooLong encode h dir msg now)
    as [[h' dir'] err] eqn:Happ.
  pose proof Happ as Hdata.
  apply AppendMessage_inv in Happ as [(-> & -> & ->) | (dir1 & Hrot & Hlook)].
  - cbv zeta. split; [|split; [|split]]; try easy.
    intros name lines' H. left. eauto.
  - cbv zeta. split; [|split; [|split]].
    + intros name lines'. rewrite Hlook.
      pose proof (rotateFileIfNeeded_lookup _ _ _ _ _ _ _ name Hrot) as Hd.
      destruct (decide (name = storage.filePath h')) as [Hn|Hn].
      * intros [= <-].
        destruct Hd as [-> | [-> _]]; [|right; now split].
        destruct (dir !! name) as [lines|]; [|right; now split].
        left. exists lines. split; [reflexivity|]. right. now split.
      * destruct Hd as [-> | [-> _]]; [|discriminate].
        intros H. left. eauto.
    + intros name Hn Hs. rewrite Hlook.
      destruct (decide (name = storage.filePath h')); [eauto|].
      destruct (rotateFileIfNeeded_lookup _ _ _ _ _ _ _ name Hrot)
        as [-> | [_ Hh]]; [exact Hs | congruence].
    + intros ->. unfold storage.AppendMessage in Hdata. rewrite Hrot in Hdata.
      destruct (encode msg); discriminate.
    + intros ->. specialize (Hlook (storage.filePath h')).
      rewrite decide_True in Hlook by reflexivity.
      unfold storage.AppendMessage in Hdata. rewrite Hrot in Hdata.
      destruct (encode msg) as [data|]; [|discriminate]. eauto.
Qed.

End JournalProperties.


(** X6 at work: a path of 34 bytes for a scanner that holds 16. *)
Lemma AppendMessage_oversized_line_blocks_witness :
  let msg := fixtures.record "GET" "/a/path/longer/than/the/buffer/is" 200 in
  let dir' := <["history_2025-01-01.jsonl" := [types.Path msg]]>
                (∅ : gmap string (list string)) in
  (forall msg2 now2,
     storage.AppendMessage samples.secondFile samples.tooLong samples.encode
       samples.journal dir' msg2 now2
     = (samples.journal, dir', Some "failed to rotate file"))
  /\ (forall limit,
        storage.GetRecentMessages samples.tooLong samples.decode
          samples.journal dir' limit
        = storage.ReadError "failed to read current file").
Proof.
  cbv zeta.
  apply (AppendMessage_oversized_line_blocks samples.secondFile
           samples.tooLong samples.encode samples.decode
           samples.journal samples.journal ∅ _
           (fixtures.record "GET" "/a/path/longer/than/the/buffer/is" 200) 0
           "/a/path/longer/than/the/buffer/is");
    [vm_compute; reflexivity | reflexivity | reflexivity].
Defined.

Section JournalRoundTrip.
Variable dayFile secondFile : Z -> string.
Variable tooLong : string -> bool.
Variable encode : types.LogMessage -> option string.
Variable decode : string -> option types.LogMessage.

(** X8. What is appended is read back first. After an [AppendMessage]
    without error of a message whose line the scanner can hold and which
    decodes to the message again, the current file holding only lines the
    scanner can hold, [GetRecentMessages] with a limit of at least 1
    returns at most [limit] messages, that message first. *)
Theorem AppendMessage_then_GetRecentMessages (h h' : storage.HistoryStorage)
    (dir dir' : gmap string (list string)) (msg : types.LogMessage) (now : Z)
    (data : string) (limit : Z) :
  storage.AppendMessage secondFile tooLong encode h dir msg now
  = (h', dir', None) ->
  encode msg = Some data ->
  tooLong data = false ->
  decode data = Some msg ->
  (forall lines, dir !! storage.filePath h' = Some lines ->
                 Forall (fun line => tooLong line = false) lines) ->
  1 <= limit ->
  exists rest,
    storage.GetRecentMessages tooLong decode h' dir' limit
    = storage.Messages (msg :: rest)
    /\ Z.of_nat (length (msg :: rest)) <= limit.
Proof.
  intros Happ Henc Hfit Hdec Hold Hl.
  apply AppendMessage_inv in Happ as [[[=] _] | (dir1 & Hrot & Hlook)].
  specialize (Hlook (storage.filePath h')).
  rewrite decide_True, Henc in Hlook by reflexivity.
  set (old := default [] (dir1 !! storage.filePath h')) in *.
  assert (Hfits : Forall (fun line => tooLong line = false) (old ++ [data])).
  { apply Forall_app. split; [|now repeat constructor]. unfold old.
    destruct (rotateFileIfNeeded_lookup _ _ _ _ _ _ _
                (storage.filePath h') Hrot) as [-> | [-> _]];
      [|constructor].
    destruct (dir !! storage.filePath h') as [lines|] eqn:E;
      [now apply Hold | constructor]. }
  pose proof (readMessagesFromFile_fits tooLong decode dir'
                (storage.filePath h') limit _ Hlook Hfits) as Hread.
  rewrite newestFirst_lastn, lastn_lastn in Hread by lia.
  assert (Hk : exists k, Nat.min (Z.to_nat limit) storage.ringSize = S k).
  { pose proof ringSize_pos.
    exists (Nat.pred (Nat.min (Z.to_nat limit) storage.ringSize)). lia. }
  destruct Hk as [k Hk]. rewrite Hk, lastn_snoc, rev_app_distr in Hread.
  cbn [rev app] in Hread. csimpl in Hread. rewrite Hdec in Hread.
  csimpl in Hread.
  destruct (GetRecentMessages_from tooLong decode h' dir' limit _
              (or_introl Hread)) as [Hget _].
  destruct (Hget ltac:(lia)) as (l & Heq & [rest ->] & Hlen & _).
  exists (omap decode (rev (Runs.lastn k old)) ++ rest).
  split; [exact Heq | exact Hlen].
Qed.

(** X9. [GetRecentMessages] and its limit. With a limit that is not
    negative it never panics and returns at most [limit] messages; when
    the current file can be read, its messages come first, and they are
    the whole result when there are [limit] of them. With a negative
    limit it returns no messages: it panics on [messages[:limit]], unless
    the current file cannot be scanned, which is reported first. *)
Theorem GetRecentMessages_limit (h : storage.HistoryStorage)
    (dir : gmap string (list string)) (limit : Z) :
  (0 <= limit ->
   storage.GetRecentMessages tooLong decode h dir limit <> storage.Panic
   /\ (forall l,
         storage.GetRecentMessages tooLong decode h dir limit
         = storage.Messages l ->
         Z.of_nat (length l) <= limit)
   /\ (forall cur,
         storage.readMessagesFromFile tooLong decode dir (storage.filePath h)
           limit = inl cur ->
         exists l,
           storage.GetRecentMessages tooLong decode h dir limit
           = storage.Messages l
           /\ cur `prefix_of` l
           /\ (Z.of_nat (length cur) = limit -> l = cur)))
  /\ (limit < 0 ->
      storage.GetRecentMessages tooLong decode h dir limit = storage.Panic
      \/ storage.GetRecentMessages tooLong decode h dir limit
         = storage.ReadError "failed to read current file").
Proof.
  destruct (readMessagesFromFile_cases tooLong decode dir
              (storage.filePath h) limit)
    as [[cur Hcur] | [Hmiss | [_ (content & Hc & Hlong)]]].
  - destruct (GetRecentMessages_from tooLong decode h dir limit cur
                (or_introl Hcur)) as [Hpos Hneg].
    split; [|intros Hl; left; now apply Hneg].
    intros Hl. destruct (Hpos Hl) as (l & Heq & Hpre & Hlen & Hfull).
    rewrite Heq. split; [discriminate|]. split.
    + now intros l' [= <-].
    + intros cur'. rewrite Hcur. intros [= <-]. eauto.
  - destruct (GetRecentMessages_from tooLong decode h dir limit []
                (or_intror (conj Hmiss eq_refl))) as [Hpos Hneg].
    split; [|intros Hl; left; now apply Hneg].
    intros Hl. destruct (Hpos Hl) as (l & Heq & Hpre & Hlen & Hfull).
    rewrite Heq. split; [discriminate|]. split.
    + now intros l' [= <-].
    + intros cur'. rewrite Hmiss. discriminate.
  - rewrite (GetRecentMessages_blocked tooLong decode h dir limit content
               Hc Hlong).
    split; [|now right]. intros _. split; [discriminate|].
    split; [discriminate|]. intros cur.
    unfold storage.readMessagesFromFile. rewrite Hc.
    pose proof (scan_too_long tooLong content Hlong) as H.
    destruct (storage.scan tooLong content) as [texts failed].
    simpl in H. subst failed. discriminate.
Qed.

Lemma ClearHistory_files (h : storage.HistoryStorage)
    (dir : gmap string (list string)) (now : Z) :
  let dir' := snd (storage.ClearHistory dayFile h dir now) in
  (forall name, storage.isHistoryFile name = true -> dir' !! name = None)
  /\ (forall name,
        storage.isHistoryFile name = false -> dir' !! name = dir !! name)
  /\ storage.Glob dir' = [].
Proof.
  cbv zeta. unfold storage.ClearHistory. cbn [snd].
  set (dir' := fold_left (fun d name => delete name d) (storage.Glob dir) dir).
  assert (Hgone : forall name,
            storage.isHistoryFile name = true -> dir' !! name = None).
  { intros name Hn. unfold dir'. rewrite delete_all_lookup.
    case_bool_decide as Hin; [reflexivity|].
    destruct (dir !! name) as [c|] eqn:E; [|reflexivity].
    exfalso. apply Hin. apply elem_of_Glob. eauto. }
  split; [exact Hgone|]. split.
  - intros name Hn. unfold dir'. rewrite delete_all_lookup.
    case_bool_decide as Hin; [|reflexivity].
    apply elem_of_Glob in Hin as [_ Hin]. congruence.
  - apply Glob_nil. intros name [c Hc].
    destruct (storage.isHistoryFile name) eqn:E; [|reflexivity].
    rewrite (Hgone name E) in Hc. discriminate.
Qed.

Lemma GetRecentMessages_no_file (h : storage.HistoryStorage)
    (dir : gmap string (list string)) (limit : Z) :
  dir !! storage.filePath h = None ->
  storage.Glob dir = [] ->
  0 <= limit ->
  storage.GetRecentMessages tooLong decode h dir limit = storage.Messages [].
Proof.
  intros Hnone Hglob Hl.
  unfold storage.GetRecentMessages, storage.readMessagesFromFile.
  rewrite Hnone. cbn [length]. unfold storage.readFromHistoryFiles.
  rewrite Hglob. cbn [rev storage.readOlder].
  destruct (Z.of_nat 0 <? limit); rewrite ?app_nil_r; cbn [length];
    now rewrite (proj2 (Z.ltb_ge limit (Z.of_nat 0))) by lia.
Qed.

(** X10. [ClearHistory] of the journal, the file of the day being named
    [history_*.jsonl]: no file of that form is left and the other files
    are as they were; [GetRecentMessages] then returns no message; and
    the next message appended starts the file of the day, which holds
    its line alone. *)
Theorem ClearHistory_starts_afresh (h : storage.HistoryStorage)
    (dir : gmap string (list string)) (now : Z) :
  storage.isHistoryFile (dayFile now) = true ->
  let '(h', dir') := storage.ClearHistory dayFile h dir now in
  (forall name, storage.isHistoryFile name = true -> dir' !! name = None)
  /\ (forall name,
        storage.isHistoryFile name = false -> dir' !! name = dir !! name)
  /\ (forall limit,
        0 <= limit ->
        storage.GetRecentMessages tooLong decode h' dir' limit
        = storage.Messages [])
  /\ (forall msg data now',
        encode msg = Some data ->
        storage.AppendMessage secondFile tooLong encode h' dir' msg now'
        = (h', <[dayFile now := [data]]> dir', None)).
Proof.
  intros Hday.
  destruct (ClearHistory_files h dir now) as (Hgone & Hkept & Hglob).
  unfold storage.ClearHistory in *. cbn [snd] in Hgone, Hkept, Hglob.
  set (dir' := fold_left (fun d name => delete name d) (storage.Glob dir) dir)
    in *.
  split; [exact Hgone|]. split; [exact Hkept|]. split.
  - intros limit Hl. apply GetRecentMessages_no_file; [|exact Hglob|exact Hl].
    cbn [storage.filePath storage.withFilePath]. now apply Hgone.
  - intros msg data now' Henc.
    unfold storage.AppendMessage, storage.rotateFileIfNeeded,
      storage.countLines.
    cbn [storage.filePath storage.withFilePath]. rewrite (Hgone _ Hday).
    rewrite Henc. unfold storage.appendLine, storage.openForAppend.
    cbn [storage.filePath storage.withFilePath].
    rewrite (Hgone _ Hday), lookup_insert_eq. cbn [default app].
    now rewrite insert_insert_eq.
Qed.

End JournalRoundTrip.

(** X8 at work: the second message of the day. *)
Lemma AppendMessage_then_GetRecentMessages_witness :
  let dir := <["history_2025-01-01.jsonl" := ["/first"]]>
               (∅ : gmap string (list string)) in
  let dir' := <["history_2025-01-01.jsonl" := ["/first"; "/second"]]>
                (∅ : gmap string (list string)) in
  exists rest,
    storage.GetRecentMessages samples.tooLong samples.decode
      samples.journal dir' 5
    = storage.Messages (fixtures.record "GET" "/second" 200 :: rest)
    /\ Z.of_nat (length (fixtures.record "GET" "/second" 200 :: rest)) <= 5.
Proof.
  cbv zeta.
  apply (AppendMessage_then_GetRecentMessages samples.secondFile
           samples.tooLong samples.encode samples.decode
           samples.journal samples.journal
           (<["history_2025-01-01.jsonl" := ["/first"]]> ∅) _
           (fixtures.record "GET" "/second" 200) 7 "/second" 5);
    [vm_compute; reflexivity | reflexivity | reflexivity | reflexivity
    | | lia].
  intros lines Hlines. vm_compute in Hlines.
  injection Hlines as <-. now repeat constructor.
Defined.

(** X10 at work: a journal of two files and a file that is not of it. *)
Lemma ClearHistory_starts_afresh_witness :
  let dir := <["history_2025-01-01.jsonl" := ["/first"]]>
               (<["history_2024-12-31.jsonl" := ["/old"]]>
                  (<["notes.txt" := ["kept"]]>
                     (∅ : gmap string (list string)))) in
  let '(h', dir') :=
    storage.ClearHistory samples.dayFile samples.journal dir 10 in
  (forall name, storage.isHistoryFile name = true -> dir' !! name = None)
  /\ (forall name,
        storage.isHistoryFile name = false -> dir' !! name = dir !! name)
  /\ (forall limit,
        0 <= limit ->
        storage.GetRecentMessages samples.tooLong samples.decode h' dir' limit
        = storage.Messages [])
  /\ (forall msg data now',
        samples.encode msg = Some data ->
        storage.AppendMessage samples.secondFile samples.tooLong
          samples.encode h' dir' msg now'
        = (h', <[samples.dayFile 10 := [data]]> dir', None)).
Proof.
  cbv zeta.
  apply (ClearHistory_starts_afresh samples.dayFile samples.secondFile
           samples.tooLong samples.encode samples.decode samples.journal
           (<["history_2025-01-01.jsonl" := ["/first"]]>
              (<["history_2024-12-31.jsonl" := ["/old"]]>
                 (<["notes.txt" := ["kept"]]> ∅))) 10).
  reflexivity.
Defined.


(** ** The journal: how many files *)

Lemma Glob_NoDup (dir : gmap string (list string)) :
  NoDup (storage.Glob dir).
Proof.
  unfold storage.Glob. rewrite merge_sort_Permutation.
  apply NoDup_ListNoDup, List.NoDup_filter, NoDup_ListNoDup.
  apply (NoDup_fst_map_to_list dir).
Qed.

Lemma Glob_length_le (dir : gmap string (list string)) (names : list string) :
  (forall name, name ∈ storage.Glob dir -> name ∈ names) ->
  (length (storage.Glob dir) <= length names)%nat.
Proof.
  intros H. apply submseteq_length, NoDup_submseteq; [apply Glob_NoDup|exact H].
Qed.

(** After [cleanupOldFiles], for a limit that is not negative, at most
    [maxFiles] journal files are left, and never more than before. *)
Lemma cleanupOldFiles_length (h : storage.HistoryStorage)
    (dir : gmap string (list string)) :
  0 <= storage.maxFiles h ->
  Z.of_nat (length (storage.Glob (storage.cleanupOldFiles h dir)))
  <= Z.min (Z.of_nat (length (storage.Glob dir))) (storage.maxFiles h).
Proof.
  intros Hmax. unfold storage.cleanupOldFiles.
  destruct (storage.maxFiles h <? Z.of_nat (length (storage.Glob dir)))
    eqn:Hlt; [apply Z.ltb_lt in Hlt | apply Z.ltb_ge in Hlt; lia].
  set (k := Z.to_nat (Z.of_nat (length (storage.Glob dir))
                      - storage.maxFiles h)).
  pose proof (Glob_length_le
                (fold_left (fun d name => delete name d)
                   (take k (storage.Glob dir)) dir)
                (drop k (storage.Glob dir))) as Hle.
  rewrite length_drop in Hle.
  assert (Hk : (k <= length (storage.Glob dir))%nat) by (unfold k; lia).
  enough (length (storage.Glob
                    (fold_left (fun d name => delete name d)
                       (take k (storage.Glob dir)) dir))
          <= length (storage.Glob dir) - k)%nat by (unfold k in *; lia).
  apply Hle. intros name Hin. apply elem_of_Glob in Hin as [Hs Hh].
  rewrite delete_all_lookup in Hs. case_bool_decide as Htake;
    [now destruct Hs|].
  assert (Hall : name ∈ storage.Glob dir) by now apply elem_of_Glob.
  rewrite <- (take_drop k (storage.Glob dir)) in Hall.
  apply elem_of_app in Hall as [Hin | Hin]; [contradiction | exact Hin].
Qed.

Section JournalFiles.
Variable secondFile : Z -> string.
Variable tooLong : string -> bool.
Variable encode : types.LogMessage -> option string.

(** X11. The number of journal files, for a [maxFiles] that is not
    negative. [AppendMessage] makes at most one file more than there
    were; and when it turns to another file, the old files are trimmed to
    [maxFiles] before the new one is made, so that at most
    [maxFiles + 1] files named [history_*.jsonl] are left. *)
Theorem AppendMessage_file_count (h : storage.HistoryStorage)
    (dir : gmap string (list string)) (msg : types.LogMessage) (now : Z) :
  0 <= storage.maxFiles h ->
  let '(h', dir', _) :=
    storage.AppendMessage secondFile tooLong encode h dir msg now in
  (length (storage.Glob dir') <= length (storage.Glob dir) + 1)%nat
  /\ (storage.filePath h' <> storage.filePath h ->
      Z.of_nat (length (storage.Glob dir')) <= storage.maxFiles h + 1).
Proof.
  intros Hmax.
  destruct (storage.AppendMessage secondFile tooLong encode h dir msg now)
    as [[h' dir'] err] eqn:Happ.
  apply AppendMessage_inv in Happ as [(-> & -> & ->) | (dir1 & Hrot & Hlook)].
  - split; [lia | congruence].
  - assert (Hone : (length (storage.Glob dir')
                    <= length (storage.Glob dir1) + 1)%nat).
    { pose proof (Glob_length_le dir'
                    (storage.filePath h' :: storage.Glob dir1)) as Hle.
      cbn [length] in Hle. rewrite Nat.add_1_r. apply Hle.
      intros name Hin. apply elem_of_Glob in Hin as [Hs Hh].
      rewrite Hlook in Hs.
      destruct (decide (name = storage.filePath h')) as [->|Hne];
        [left|right]. now apply elem_of_Glob. }
    apply rotateFileIfNeeded_inl in Hrot as [[[-> ->] | [-> ->]] _].
    + split; [exact Hone | congruence].
    + pose proof (cleanupOldFiles_length
                    (storage.withFilePath h (secondFile now)) dir Hmax) as Hc.
      cbn [storage.maxFiles storage.withFilePath] in Hc.
      split; [lia | intros _; lia].
Qed.

End JournalFiles.

(** X11 at work: three files for a limit of one, and the fourth
    message of a file of three lines. *)
Lemma AppendMessage_file_count_witness :
  let h := storage.NewHistoryStorage samples.dayFile 1 3 0 in
  let dir := <["history_2025-01-01.jsonl" := ["/a"; "/b"; "/c"]]>
               (<["history_2024-12-31.jsonl" := ["/old"]]>
                  (<["history_2024-12-30.jsonl" := ["/older"]]>
                     (∅ : gmap string (list string)))) in
  let '(h', dir', _) :=
    storage.AppendMessage samples.secondFile samples.tooLong samples.encode
      h dir (fixtures.record "GET" "/d" 200) 0 in
  (length (storage.Glob dir') <= length (storage.Glob dir) + 1)%nat
  /\ (storage.filePath h' <> storage.filePath h ->
      Z.of_nat (length (storage.Glob dir')) <= storage.maxFiles h + 1).
Proof.
  cbv zeta.
  apply (AppendMessage_file_count samples.secondFile samples.tooLong
           samples.encode
           (storage.NewHistoryStorage samples.dayFile 1 3 0)
           (<["history_2025-01-01.jsonl" := ["/a"; "/b"; "/c"]]>
              (<["history_2024-12-31.jsonl" := ["/old"]]>
                 (<["history_2024-12-30.jsonl" := ["/older"]]> ∅)))
           (fixtures.record "GET" "/d" 200) 0).
  vm_compute. discriminate.
Defined.


(** ** The hub: memory and channel *)

Lemma outputs_snoc (messages : list (types.LogMessage * Z)) :
  forall (h : websocket.Hub) (m : types.LogMessage * Z),
    Runs.outputs h (messages ++ [m])
    = Runs.outputs h messages
      ++ [snd (websocket.Broadcast (websocket.broadcasts h messages)
                 (fst m) (snd m))].
Proof.
  induction messages as [|m0 messages IH]; intros h m.
  - cbn [app Runs.outputs websocket.broadcasts fold_left].
    now destruct (websocket.Broadcast h (fst m) (snd m)).
  - cbn [app Runs.outputs]. unfold websocket.broadcasts. cbn [fold_left].
    destruct (websocket.Broadcast h (fst m0) (snd m0)) as [h1 out] eqn:E.
    cbn [fst]. now rewrite IH.
Qed.

Lemma outputs_length (messages : list (types.LogMessage * Z)) :
  forall h : websocket.Hub,
    length (Runs.outputs h messages) = length messages.
Proof.
  induction messages as [|m messages IH]; intros h; [reflexivity|].
  cbn [Runs.outputs].
  destruct (websocket.Broadcast h (fst m) (snd m)) as [h1 out].
  cbn [length]. now rewrite IH.
Qed.

Lemma broadcasts_sizes (h : websocket.Hub)
    (messages : list (types.LogMessage * Z)) :
  websocket.maxHistory (websocket.broadcasts h messages)
  = websocket.maxHistory h
  /\ websocket.broadcastSize (websocket.broadcasts h messages)
     = websocket.broadcastSize h.
Proof.
  induction messages as [|m messages IH] using rev_ind; [now split|].
  rewrite broadcasts_snoc. exact IH.
Qed.

Lemma addToHistory_lastn (history : list types.LogMessage) (n : nat)
    (message : types.LogMessage) :
  (length history <= n)%nat ->
  websocket.addToHistory history n message
  = Runs.lastn n (history ++ [message]).
Proof.
  intros Hlen. unfold websocket.addToHistory, Runs.lastn.
  rewrite length_app. cbn [length].
  destruct (n <? length history + 1)%nat eqn:E.
  - apply Nat.ltb_lt in E.
    replace (length history + 1 - n)%nat with 1%nat by lia.
    now destruct (history ++ [message]).
  - apply Nat.ltb_ge in E.
    now replace (length history + 1 - n)%nat with 0%nat by lia.
Qed.

Lemma lastn_app_snoc {A : Type} (n : nat) (l : list A) (x : A) :
  Runs.lastn n (Runs.lastn n l ++ [x]) = Runs.lastn n (l ++ [x]).
Proof.
  destruct n as [|k].
  - unfold Runs.lastn. now rewrite !Nat.sub_0_r, !drop_all.
  - rewrite !lastn_snoc, lastn_lastn. do 2 f_equal. lia.
Qed.

Lemma trySend_take (queue sent : list types.LogMessage) (size : nat)
    (message : types.LogMessage) :
  websocket.trySend (queue ++ take (size - length queue) sent) size message
  = queue ++ take (size - length queue) (sent ++ [message]).
Proof.
  unfold websocket.trySend. rewrite length_app, length_take.
  destruct (length queue + Nat.min (size - length queue) (length sent)
            <? size)%nat eqn:E.
  - apply Nat.ltb_lt in E. rewrite <- app_assoc. f_equal.
    rewrite (take_ge sent) by lia. rewrite take_ge; [reflexivity|].
    rewrite length_app. cbn [length]. lia.
  - apply Nat.ltb_ge in E. f_equal.
    destruct (decide (size <= length queue)%nat) as [Hfull|Hroom].
    + replace (size - length queue)%nat with 0%nat by lia. reflexivity.
    + rewrite take_app_le by lia. reflexivity.
Qed.

(** X12. A run of [Broadcast]s on a hub whose memory is within
    [maxHistory], nothing being taken from the channel meanwhile. The
    memory holds the last [maxHistory] messages, the oldest first, each as
    it was sent (with the statistics of its moment); the channel holds
    what it held and then the first messages of the run, as many as it
    had room for: the later ones are dropped from the channel, not from
    the memory. Every message of the run is sent once. *)
Theorem Broadcast_memory_and_channel (h : websocket.Hub)
    (messages : list (types.LogMessage * Z)) :
  (length (websocket.history h) <= websocket.maxHistory h)%nat ->
  let h' := websocket.broadcasts h messages in
  let sent := Runs.outputs h messages in
  websocket.history h'
  = Runs.lastn (websocket.maxHistory h) (websocket.history h ++ sent)
  /\ websocket.broadcast h'
     = websocket.broadcast h
       ++ take (websocket.broadcastSize h - length (websocket.broadcast h))
            sent
  /\ length sent = length messages.
Proof.
  intros Hlen. cbv zeta.
  induction messages as [|m messages IH] using rev_ind.
  - cbn [websocket.broadcasts fold_left Runs.outputs length].
    rewrite !app_nil_r, take_nil, app_nil_r. split; [|now split].
    unfold Runs.lastn.
    now replace (length (websocket.history h) - websocket.maxHistory h)%nat
      with 0%nat by lia.
  - destruct IH as (Hmem & Hchan & Hsent).
    destruct (broadcasts_sizes h messages) as [Hmax Hsize].
    rewrite outputs_snoc, broadcasts_snoc, length_app, outputs_length.
    unfold websocket.Broadcast at 1 3. cbn [fst snd websocket.history
      websocket.broadcast]. rewrite Hmax, Hsize, Hchan.
    split; [|split; [apply trySend_take | now rewrite length_app]].
    rewrite addToHistory_lastn.
    + unfold websocket.Broadcast. cbn [snd].
      now rewrite Hmem, lastn_app_snoc, app_assoc.
    + rewrite Hmem, lastn_length. lia.
Qed.

(** X12 at work: twenty-five messages through a new hub with a channel
    of three. *)
Lemma Broadcast_memory_and_channel_witness :
  let messages :=
    map (fun i => (fixtures.record "GET" "/v1/messages" 200, Z.of_nat i))
      (seq 0 25) in
  let h := websocket.NewHub 3 0 in
  length (websocket.history (websocket.broadcasts h messages)) = 20%nat
  /\ length (websocket.broadcast (websocket.broadcasts h messages)) = 3%nat
  /\ length (Runs.outputs h messages) = 25%nat.
Proof.
  cbv zeta.
  destruct (Broadcast_memory_and_channel (websocket.NewHub 3 0)
              (map (fun i => (fixtures.record "GET" "/v1/messages" 200,
                              Z.of_nat i)) (seq 0 25)))
    as (Hmem & Hchan & Hsent); [cbn; lia|].
  rewrite Hmem, Hchan, Hsent. cbn [websocket.NewHub websocket.history
    websocket.broadcast websocket.maxHistory websocket.broadcastSize app].
  rewrite lastn_length, length_take, outputs_length, length_map, length_seq.
  repeat split.
Defined.


(** ** The hub and its journal, and the history handlers *)

Section HubJournal.
Variable dayFile secondFile : Z -> string.
Variable tooLong : string -> bool.
Variable encode : types.LogMessage -> option string.
Variable decode : string -> option types.LogMessage.
Variable Atoi : string -> option Z.
Variable encodeAll : list types.LogMessage -> option string.

Lemma historyLimit_range (limitStr : string) :
  1 <= web.historyLimit Atoi limitStr <= 100.
Proof.
  unfold web.historyLimit. destruct (String.eqb limitStr ""); [lia|].
  destruct (Atoi limitStr) as [parsed|]; [|lia].
  destruct (0 <? parsed) eqn:Hpos; [|lia]. apply Z.ltb_lt in Hpos.
  destruct (100 <? parsed) eqn:Hbig; [lia|]. apply Z.ltb_ge in Hbig. lia.
Qed.

Lemma AppendMessage_succeeds (h : storage.HistoryStorage)
    (dir : gmap string (list string)) (msg : types.LogMessage) (now : Z)
    (data : string) :
  (forall content, dir !! storage.filePath h = Some content ->
                   Forall (fun line => tooLong line = false) content) ->
  encode msg = Some data ->
  exists h' dir',
    storage.AppendMessage secondFile tooLong encode h dir msg now
    = (h', dir', None).
Proof.
  intros Hfit Henc. unfold storage.AppendMessage.
  destruct (storage.rotateFileIfNeeded secondFile tooLong h dir now)
    as [[h1 dir1]|e] eqn:Hrot.
  - rewrite Henc. eauto.
  - exfalso. unfold storage.rotateFileIfNeeded, storage.countLines in Hrot.
    destruct (dir !! storage.filePath h) as [content|] eqn:Hc;
      [|discriminate].
    rewrite (scan_fits tooLong content (Hfit content eq_refl)) in Hrot.
    destruct (Z.of_nat (length content) <? storage.maxLines h); discriminate.
Qed.

(** A hub whose journal has a line too long in its current file: the
    broadcasts go to the memory and the channel alone. *)
Lemma broadcasts_blocked (st : storage.HistoryStorage)
    (dir : gmap string (list string)) (content : list string)
    (later : list (types.LogMessage * Z * Z)) :
  dir !! storage.filePath st = Some content ->
  Exists (fun line => tooLong line = true) content ->
  forall memory : websocket.Hub,
    hub.broadcasts secondFile tooLong encode
      {| hub.memory := memory; hub.historyStorage := Some st;
         hub.dataDir := dir |} later
    = {| hub.memory := websocket.broadcasts memory (map fst later);
         hub.historyStorage := Some st; hub.dataDir := dir |}.
Proof.
  intros Hc Hlong. induction later as [|m later IH]; intros memory;
    [reflexivity|].
  unfold hub.broadcasts, websocket.broadcasts. cbn [fold_left map].
  unfold hub.Broadcast at 2.
  cbn [hub.memory hub.historyStorage hub.dataDir].
  destruct (websocket.Broadcast memory (fst (fst m)) (snd (fst m)))
    as [memory' out] eqn:Hb.
  rewrite (AppendMessage_blocked secondFile tooLong encode st dir out (snd m)
             content Hc Hlong).
  cbn [fst]. apply IH.
Qed.

(** X13. [GET /api/history] never asks for fewer than 1 or more than 100
    messages, whatever the [limit] of the query is, and so never panics.
    With a journal, a reply of messages holds at most that many; without
    one it holds the whole memory, newest first, and the limit is not
    looked at. Any other method is answered 405. *)
Theorem handleHistory_limit (s : hub.Journaled) (method limitStr : string) :
  1 <= web.historyLimit Atoi limitStr <= 100
  /\ web.handleHistory tooLong decode Atoi encodeAll s method limitStr
     <> web.Panicked
  /\ (forall st body,
        hub.historyStorage s = Some st ->
        web.handleHistory tooLong decode Atoi encodeAll s method limitStr
        = web.Json body ->
        exists history,
          encodeAll history = Some body
          /\ storage.GetRecentMessages tooLong decode st (hub.dataDir s)
               (web.historyLimit Atoi limitStr)
             = storage.Messages history
          /\ Z.of_nat (length history) <= web.historyLimit Atoi limitStr)
  /\ (hub.historyStorage s = None ->
      web.handleHistory tooLong decode Atoi encodeAll s "GET" limitStr
      = match encodeAll (rev (websocket.history (hub.memory s))) with
        | Some body => web.Json body
        | None => web.Status 500 "Internal Server Error"
        end)
  /\ (method <> "GET" ->
      web.handleHistory tooLong decode Atoi encodeAll s method limitStr
      = web.Status 405 "Method Not Allowed").
Proof.
  pose proof (historyLimit_range limitStr) as Hrange.
  split; [exact Hrange|]. unfold web.handleHistory, hub.GetHistory.
  split; [|split; [|split]].
  - destruct (String.eqb method "GET"); [|discriminate]. cbn [negb].
    destruct (hub.historyStorage s) as [st|].
    + pose proof (GetRecentMessages_from tooLong decode st (hub.dataDir s)
                    (web.historyLimit Atoi limitStr)) as Hfrom.
      destruct (readMessagesFromFile_cases tooLong decode (hub.dataDir s)
                  (storage.filePath st) (web.historyLimit Atoi limitStr))
        as [[cur Hcur] | [Hmiss | [_ (content & Hc & Hlong)]]].
      * destruct (Hfrom cur (or_introl Hcur)) as [Hpos _].
        destruct (Hpos ltac:(lia)) as (l & -> & _).
        destruct (encodeAll l); discriminate.
      * destruct (Hfrom [] (or_intror (conj Hmiss eq_refl))) as [Hpos _].
        destruct (Hpos ltac:(lia)) as (l & -> & _).
        destruct (encodeAll l); discriminate.
      * rewrite (GetRecentMessages_blocked tooLong decode st _ _ content
                   Hc Hlong). discriminate.
    + destruct (encodeAll _); discriminate.
  - intros st body ->. destruct (String.eqb method "GET"); [|discriminate].
    cbn [negb].
    destruct (storage.GetRecentMessages tooLong decode st (hub.dataDir s)
                (web.historyLimit Atoi limitStr)) as [history|e|] eqn:Hget;
      try discriminate.
    destruct (encodeAll history) as [b|] eqn:Henc; [|discriminate].
    intros [= <-]. exists history. split; [exact Henc|].
    split; [reflexivity|].
    pose proof (GetRecentMessages_from tooLong decode st (hub.dataDir s)
                  (web.historyLimit Atoi limitStr)) as Hfrom.
    destruct (readMessagesFromFile_cases tooLong decode (hub.dataDir s)
                (storage.filePath st) (web.historyLimit Atoi limitStr))
      as [[cur Hcur] | [Hmiss | [_ (content & Hc & Hlong)]]].
    + destruct (Hfrom cur (or_introl Hcur)) as [Hpos _].
      destruct (Hpos ltac:(lia)) as (l & Heq & _ & Hlen & _).
      rewrite Hget in Heq. now injection Heq as ->.
    + destruct (Hfrom [] (or_intror (conj Hmiss eq_refl))) as [Hpos _].
      destruct (Hpos ltac:(lia)) as (l & Heq & _ & Hlen & _).
      rewrite Hget in Heq. now injection Heq as ->.
    + rewrite (GetRecentMessages_blocked tooLong decode st _ _ content
                 Hc Hlong) in Hget. discriminate.
  - now intros ->.
  - intros Hm. apply String.eqb_neq in Hm. now rewrite Hm.
Qed.

(** X14. One message too long for the scanner stops the journal of the
    hub. Let the hub have a journal whose current file the scanner can
    read, and let a message be broadcast whose line, statistics
    attached, is too long for the scanner. That message is journalled;
    from then on, whatever is broadcast, the files stay as they are while
    the memory and the channel go on as usual, and [GET /api/history] is
    answered 500 "Failed to get history". *)
Theorem oversized_message_stops_history (s : hub.Journaled)
    (st : storage.HistoryStorage) (message : types.LogMessage)
    (now nowFile : Z) (data : string) :
  hub.historyStorage s = Some st ->
  (forall content, hub.dataDir s !! storage.filePath st = Some content ->
                   Forall (fun line => tooLong line = false) content) ->
  encode (snd (websocket.Broadcast (hub.memory s) message now)) = Some data ->
  tooLong data = true ->
  let s1 := fst (hub.Broadcast secondFile tooLong encode s message now
                   nowFile) in
  (exists st1 old,
     hub.historyStorage s1 = Some st1
     /\ hub.dataDir s1 !! storage.filePath st1 = Some (old ++ [data]))
  /\ forall later,
       let s2 := hub.broadcasts secondFile tooLong encode s1 later in
       hub.dataDir s2 = hub.dataDir s1
       /\ hub.historyStorage s2 = hub.historyStorage s1
       /\ hub.memory s2
          = websocket.broadcasts (hub.memory s1) (map fst later)
       /\ forall limitStr,
            web.handleHistory tooLong decode Atoi encodeAll s2 "GET" limitStr
            = web.Status 500 "Failed to get history".
Proof.
  intros Hst Hfit Henc Hlong. cbv zeta. unfold hub.Broadcast. rewrite Hst.
  destruct (websocket.Broadcast (hub.memory s) message now)
    as [memory1 out] eqn:Hb. cbn [snd] in Henc.
  destruct (AppendMessage_succeeds st (hub.dataDir s) out nowFile data
              Hfit Henc) as (st1 & dir1 & Happ).
  rewrite Happ. cbn [fst hub.historyStorage hub.dataDir hub.memory].
  apply AppendMessage_inv in Happ as [[[=] _] | (dir0 & _ & Hlook)].
  specialize (Hlook (storage.filePath st1)).
  rewrite decide_True, Henc in Hlook by reflexivity.
  assert (Hex : Exists (fun line => tooLong line = true)
                  (default [] (dir0 !! storage.filePath st1) ++ [data])).
  { apply Exists_app. right. now constructor. }
  split; [eauto|]. intros later.
  rewrite (broadcasts_blocked st1 dir1 _ later Hlook Hex).
  cbn [hub.historyStorage hub.dataDir hub.memory].
  repeat split. intros limitStr.
  unfold web.handleHistory, hub.GetHistory.
  cbn [String.eqb Ascii.eqb Bool.eqb negb hub.historyStorage hub.dataDir].
  now rewrite (GetRecentMessages_blocked tooLong decode st1 dir1 _ _
                 Hlook Hex).
Qed.

End HubJournal.


(** X14 at work: a new hub, a path of 34 bytes for a scanner that
    holds 16, and two messages after it. *)
Lemma oversized_message_stops_history_witness :
  let s := hub.NewHub samples.dayFile 3 ∅ 0 in
  let s1 :=
    fst (hub.Broadcast samples.secondFile samples.tooLong samples.encode s
           (fixtures.record "GET" "/a/path/longer/than/the/buffer/is" 200)
           1 1) in
  let s2 :=
    hub.broadcasts samples.secondFile samples.tooLong samples.encode s1
      [(fixtures.record "GET" "/b" 200, 2, 2);
       (fixtures.record "GET" "/c" 200, 3, 3)] in
  hub.dataDir s2 = hub.dataDir s1
  /\ length (websocket.history (hub.memory s2)) = 3%nat
  /\ web.handleHistory samples.tooLong samples.decode samples.Atoi
       samples.encodeAll s2 "GET" "5"
     = web.Status 500 "Failed to get history".
Proof.
  cbv zeta.
  destruct (oversized_message_stops_history samples.secondFile
              samples.tooLong samples.encode samples.decode samples.Atoi
              samples.encodeAll
              (hub.NewHub samples.dayFile 3 ∅ 0)
              (storage.NewHistoryStorage samples.dayFile 10 10000 0)
              (fixtures.record "GET" "/a/path/longer/than/the/buffer/is" 200)
              1 1 "/a/path/longer/than/the/buffer/is") as [_ H].
  - reflexivity.
  - intros content Hc. vm_compute in Hc. discriminate.
  - reflexivity.
  - reflexivity.
  - destruct (H [(fixtures.record "GET" "/b" 200, 2, 2);
                 (fixtures.record "GET" "/c" 200, 3, 3)])
      as (Hdir & _ & Hmem & H500).
    split; [exact Hdir|]. split; [rewrite Hmem; vm_compute; reflexivity|].
    apply H500.
Defined.


(** ** Frames *)

Lemma bigEndian_PutUint16 (n : Z) :
  0 <= n < 65536 ->
  RFC6455.bigEndian (frame.PutUint16 (frame.uint16 n)) = n.
Proof.
  intros Hn. unfold RFC6455.bigEndian, frame.PutUint16, frame.uint16,
    frame.byte. cbn [fold_left]. rewrite Z.shiftr_div_pow2 by lia.
  change (2 ^ 8) with 256. rewrite (Z.mod_small n 65536) by lia.
  rewrite (Z.mod_small (n / 256) 256)
    by (split; [apply Z.div_pos; lia | apply Z.div_lt_upper_bound; lia]).
  pose proof (Z.div_mod n 256). lia.
Qed.

Lemma bigEndian_PutUint64 (n : Z) :
  0 <= n < 9223372036854775808 ->
  RFC6455.bigEndian (frame.PutUint64 (frame.uint64 n)) = n.
Proof.
  intros Hn. unfold RFC6455.bigEndian, frame.PutUint64, frame.uint64,
    frame.byte. cbn [fold_left].
  rewrite (Z.mod_small n 18446744073709551616) by lia.
  rewrite !Z.shiftr_div_pow2 by lia.
  change (2 ^ 56) with (256 * 2 ^ 48). change (2 ^ 48) with (256 * 2 ^ 40).
  change (2 ^ 40) with (256 * 2 ^ 32). change (2 ^ 32) with (256 * 2 ^ 24).
  change (2 ^ 24) with (256 * 2 ^ 16). change (2 ^ 16) with (256 * 2 ^ 8).
  change (2 ^ 8) with 256.
  rewrite <- !Z.div_div by lia.
  set (q1 := n / 256). set (q2 := q1 / 256). set (q3 := q2 / 256).
  set (q4 := q3 / 256). set (q5 := q4 / 256). set (q6 := q5 / 256).
  set (q7 := q6 / 256).
  pose proof (Z.div_mod n 256). pose proof (Z.div_mod q1 256).
  pose proof (Z.div_mod q2 256). pose proof (Z.div_mod q3 256).
  pose proof (Z.div_mod q4 256). pose proof (Z.div_mod q5 256).
  pose proof (Z.div_mod q6 256).
  assert (0 <= q7 < 256).
  { unfold q7, q6, q5, q4, q3, q2, q1. rewrite !Z.div_div by lia.
    split; [apply Z.div_pos; lia | apply Z.div_lt_upper_bound; lia]. }
  rewrite (Z.mod_small q7 256) by lia.
  fold q1 in H. fold q2 in H0. fold q3 in H1. fold q4 in H2. fold q5 in H3.
  fold q6 in H4. fold q7 in H5. lia.
Qed.

(** X15. The frame [createTextFrame] makes for a payload of bytes is,
    read after RFC 6455, one whole frame: final, with no reserved bit,
    of opcode 1 (text), not masked, its length in the shortest form, and
    its payload the bytes given; what follows it on the connection is
    left as it is. The length of a Go slice is below 2^63. *)
Theorem createTextFrame_parses (payload rest : list Z) :
  Z.of_nat (length payload) < 9223372036854775808 ->
  RFC6455.parse (frame.createTextFrame payload ++ rest)
  = Some ({| RFC6455.fin := true; RFC6455.rsv := 0; RFC6455.opcode := 1;
             RFC6455.masked := false; RFC6455.payload := payload |},
          rest).
Proof.
  intros Hlen. unfold frame.createTextFrame. cbv zeta.
  set (n := Z.of_nat (length payload)) in *.
  assert (Htake : take (Z.to_nat n) (payload ++ rest) = payload).
  { unfold n. rewrite Nat2Z.id. now rewrite take_app_length. }
  assert (Hdrop : drop (Z.to_nat n) (payload ++ rest) = rest).
  { unfold n. rewrite Nat2Z.id. now rewrite drop_app_length. }
  assert (Hall : (Z.of_nat (length (payload ++ rest)) <? n) = false).
  { apply Z.ltb_ge. rewrite length_app. unfold n. lia. }
  destruct (n <? 126) eqn:Hsmall; [|destruct (n <? 65536) eqn:Hmid].
  - apply Z.ltb_lt in Hsmall. cbn [app]. unfold RFC6455.parse.
    assert (Hb : frame.byte n = n)
      by (unfold frame.byte; apply Z.mod_small; lia).
    rewrite Hb.
    assert (Hland : Z.land n 127 = n).
    { change 127 with (Z.ones 7). rewrite Z.land_ones by lia.
      apply Z.mod_small. change (2 ^ 7) with 128. lia. }
    assert (Hbit : Z.testbit n 7 = false).
    { destruct (Z.eq_dec n 0) as [->|Hz]; [reflexivity|].
      apply Z.bits_above_log2; [lia|].
      apply Z.log2_lt_pow2; [lia|]. change (2 ^ 7) with 128. lia. }
    rewrite Hland, Hbit.
    rewrite (proj2 (Z.eqb_neq n 126)) by lia.
    rewrite (proj2 (Z.eqb_neq n 127)) by lia.
    rewrite (proj2 (Z.ltb_lt n 126)) by lia.
    cbn [Nat.ltb Nat.leb negb length]. rewrite !drop_0.
    rewrite Hall, Htake, Hdrop. reflexivity.
  - apply Z.ltb_ge in Hsmall. apply Z.ltb_lt in Hmid.
    pose proof (bigEndian_PutUint16 n ltac:(unfold n; lia)) as Hbe.
    unfold frame.PutUint16 in *. cbn [app]. unfold RFC6455.parse.
    change (Z.land 126 127) with 126. change (Z.testbit 126 7) with false.
    change (126 =? 126) with true. change (126 <? 126) with false.
    cbn [Nat.ltb Nat.leb length negb].
    rewrite ?firstn_cons, ?skipn_cons, ?take_0, ?drop_0, Hbe.
    rewrite (proj2 (Z.leb_le 126 n)) by lia.
    cbn [negb Nat.ltb Nat.leb length]. rewrite Hall, Htake, Hdrop. reflexivity.
  - apply Z.ltb_ge in Hsmall. apply Z.ltb_ge in Hmid.
    pose proof (bigEndian_PutUint64 n ltac:(unfold n; lia)) as Hbe.
    unfold frame.PutUint64 in *. cbn [app]. unfold RFC6455.parse.
    change (Z.land 127 127) with 127. change (Z.testbit 127 7) with false.
    change (127 =? 126) with false. change (127 =? 127) with true.
    change (127 <? 126) with false.
    cbn [Nat.ltb Nat.leb length negb].
    rewrite ?firstn_cons, ?skipn_cons, ?take_0, ?drop_0, Hbe.
    rewrite (proj2 (Z.leb_le 65536 n)) by lia.
    rewrite (proj2 (Z.ltb_lt n 9223372036854775808)) by lia.
    cbn [andb negb Nat.ltb Nat.leb length]. rewrite Hall, Htake, Hdrop.
    reflexivity.
Qed.

(** X15 at work: a payload of 300 bytes, followed by another frame. *)
Lemma createTextFrame_parses_witness :
  RFC6455.parse (frame.createTextFrame (repeat 120 300) ++ [129; 0])
  = Some ({| RFC6455.fin := true; RFC6455.rsv := 0; RFC6455.opcode := 1;
             RFC6455.masked := false; RFC6455.payload := repeat 120 300 |},
          [129; 0]).
Proof.
  apply (createTextFrame_parses (repeat 120 300) [129; 0]).
  rewrite repeat_length. lia.
Defined.


(** ** Relaying a body *)

Section Relay.
Variable writeFails : streaming.Writer -> list Z -> option string.

Lemma streamLoop_prefix (writeError readError : string)
    (body : list streaming.Read) :
  forall w : streaming.Writer,
    exists k,
      (k <= length (streaming.delivered body))%nat
      /\ streaming.written
           (fst (streaming.streamLoop writeFails writeError readError body w))
         = streaming.written w
           ++ streaming.bytesOf (take k (streaming.delivered body)).
Proof.
  induction body as [|r rest IH]; intros w.
  - exists 0%nat. cbn. now rewrite app_nil_r.
  - destruct r as [d e].
    cbn [streaming.streamLoop streaming.delivered streaming.data
         streaming.err].
    destruct d as [|b d]; cbn [length Nat.ltb Nat.leb].
    + destruct e as [[|msg]|].
      * exists 1%nat. cbn. rewrite !app_nil_r. split; [lia | reflexivity].
      * exists 1%nat. cbn. rewrite !app_nil_r. split; [lia | reflexivity].
      * destruct (IH w) as (k & Hk & Hw).
        exists (S k). cbn [length]. split; [lia|]. rewrite Hw.
        unfold streaming.bytesOf. now cbn [take map concat streaming.data app].
    + destruct (writeFails w (b :: d)) as [msg|].
      * exists 0%nat. cbn. split; [lia | now rewrite app_nil_r].
      * destruct e as [[|msg]|].
        -- exists 1%nat. cbn. split; [lia | now rewrite app_nil_r].
        -- exists 1%nat. cbn. split; [lia | now rewrite app_nil_r].
        -- destruct (IH {| streaming.written := streaming.written w ++ b :: d;
                           streaming.flushes := S (streaming.flushes w) |})
             as (k & Hk & Hw).
           exists (S k). cbn [length]. split; [lia|]. rewrite Hw.
           cbn [streaming.written take]. unfold streaming.bytesOf.
           cbn [map concat streaming.data]. now rewrite <- app_assoc.
Qed.

Lemma streamLoop_relays (writeError readError : string)
    (body : list streaming.Read) :
  (forall w chunk, writeFails w chunk = None) ->
  forall w : streaming.Writer,
    streaming.streamLoop writeFails writeError readError body w
    = ({| streaming.written :=
            streaming.written w
            ++ streaming.bytesOf (streaming.delivered body);
          streaming.flushes :=
            streaming.flushes w
            + length (List.filter
                        (fun r => (0 <? length (streaming.data r))%nat)
                        (streaming.delivered body)) |},
       option_map (fun msg => readError +:+ ": " +:+ msg)
         (streaming.failure body)).
Proof.
  intros Hw. induction body as [|r rest IH]; intros w.
  - cbn. rewrite app_nil_r, Nat.add_0_r. now destruct w.
  - assert (Hfail : streaming.err r = None ->
                    streaming.failure (r :: rest) = streaming.failure rest).
    { intros He. unfold streaming.failure. cbn [streaming.delivered].
      rewrite He. cbn [List.last].
      destruct (streaming.delivered rest); [|reflexivity].
      cbn [List.last]. destruct r as [d e]. cbn in He. now subst e. }
    destruct r as [d e].
    cbn [streaming.streamLoop streaming.delivered streaming.data
         streaming.err]. rewrite Hw.
    destruct e as [[|msg]|].
    + unfold streaming.failure, streaming.bytesOf.
      cbn [streaming.delivered streaming.err List.last map concat
           List.filter streaming.data option_map]. rewrite app_nil_r.
      destruct d as [|b d]; cbn [length Nat.ltb Nat.leb].
      * rewrite app_nil_r, Nat.add_0_r. now destruct w.
      * now rewrite Nat.add_1_r.
    + unfold streaming.failure, streaming.bytesOf.
      cbn [streaming.delivered streaming.err List.last map concat
           List.filter streaming.data option_map]. rewrite app_nil_r.
      destruct d as [|b d]; cbn [length Nat.ltb Nat.leb].
      * rewrite app_nil_r, Nat.add_0_r. now destruct w.
      * now rewrite Nat.add_1_r.
    + rewrite (Hfail eq_refl). unfold streaming.bytesOf.
      cbn [map concat List.filter streaming.data].
      destruct d as [|b d]; cbn [length Nat.ltb Nat.leb]; rewrite IH.
      * reflexivity.
      * cbn [streaming.written streaming.flushes length].
        unfold streaming.bytesOf. rewrite <- app_assoc.
        f_equal. f_equal. now rewrite Nat.add_succ_r.
Qed.

End Relay.

Section RelayResponse.
Variable writeFails : streaming.Writer -> list Z -> option string.
Variable ioCopy :
  list streaming.Read -> streaming.Writer -> streaming.Writer * option string.

Lemma streamResponse_all (contentType : string)
    (body : Z -> list streaming.Read) (w : streaming.Writer) :
  (forall w0 chunk, writeFails w0 chunk = None) ->
  let sse := GoStrings.Contains contentType "text/event-stream" in
  let reads := streaming.delivered (body (if sse then 1024 else 64)) in
  streaming.streamResponse writeFails ioCopy true contentType body w
  = ({| streaming.written := streaming.written w ++ streaming.bytesOf reads;
        streaming.flushes :=
          streaming.flushes w
          + length (List.filter
                      (fun r => (0 <? length (streaming.data r))%nat)
                      reads) |},
     option_map
       (fun msg =>
          (if sse then "failed to read SSE response"
           else "failed to read from response body") +:+ ": " +:+ msg)
       (streaming.failure (body (if sse then 1024 else 64)))).
Proof.
  intros Hw. cbv zeta. unfold streaming.streamResponse. cbn [negb].
  destruct (GoStrings.Contains contentType "text/event-stream").
  - unfold streaming.streamSSEResponse. now apply streamLoop_relays.
  - unfold streaming.streamBytesResponse. now apply streamLoop_relays.
Qed.

(** X16. [streamResponse] to a writer that can flush relays the bytes
    of the body as they are and in their order, whatever the content
    type. What it has written when it returns is what was written before
    followed by the bytes of the first reads of the body, up to some
    read, never past the first read with an error. If no write fails,
    these are all the reads up to the first error, the bytes that came
    with that error among them, with one flush for each read that gave
    bytes; and the error returned is none at the end of the body, the
    error of the read behind its prefix otherwise. The content type
    chooses the buffer (1024 bytes for [text/event-stream], 64
    otherwise) and the prefix of the error. *)
Theorem streamResponse_relays (contentType : string)
    (body : Z -> list streaming.Read) (w : streaming.Writer) :
  let sse := GoStrings.Contains contentType "text/event-stream" in
  let size := if sse then 1024 else 64 in
  let reads := streaming.delivered (body size) in
  let '(w', e) :=
    streaming.streamResponse writeFails ioCopy true contentType body w in
  (exists k,
     (k <= length reads)%nat
     /\ streaming.written w'
        = streaming.written w ++ streaming.bytesOf (take k reads))
  /\ ((forall w0 chunk, writeFails w0 chunk = None) ->
      streaming.written w' = streaming.written w ++ streaming.bytesOf reads
      /\ streaming.flushes w'
         = (streaming.flushes w
            + length (List.filter
                        (fun r => (0 <? length (streaming.data r))%nat)
                        reads))%nat
      /\ e = option_map
               (fun msg =>
                  (if sse then "failed to read SSE response"
                   else "failed to read from response body")
                  +:+ ": " +:+ msg)
               (streaming.failure (body size))).
Proof.
  cbv zeta. pose proof (streamResponse_all contentType body w) as Hall.
  cbv zeta in Hall.
  set (size := if GoStrings.Contains contentType "text/event-stream"
               then 1024 else 64) in *.
  assert (Hpre : exists k,
            (k <= length (streaming.delivered (body size)))%nat
            /\ streaming.written
                 (fst (streaming.streamResponse writeFails ioCopy true
                         contentType body w))
               = streaming.written w
                 ++ streaming.bytesOf
                      (take k (streaming.delivered (body size)))).
  { unfold streaming.streamResponse, size. cbn [negb].
    destruct (GoStrings.Contains contentType "text/event-stream").
    - apply streamLoop_prefix.
    - apply streamLoop_prefix. }
  destruct (streaming.streamResponse writeFails ioCopy true contentType
              body w) as [w' e].
  split; [exact Hpre|]. intros Hw. specialize (Hall Hw).
  injection Hall as -> ->. now repeat split.
Qed.

End RelayResponse.


(** ** The configuration *)

Lemma orString_idem (s d : string) :
  settings.orString (settings.orString s d) d = settings.orString s d.
Proof.
  unfold settings.orString. destruct (String.eqb s "") eqn:E; [|now rewrite E].
  now destruct (String.eqb d "") eqn:E'.
Qed.

Lemma orInt_idem (n d : Z) :
  settings.orInt (settings.orInt n d) d = settings.orInt n d.
Proof.
  unfold settings.orInt. destruct (n =? 0) eqn:E; [|now rewrite E].
  now destruct (d =? 0) eqn:E'.
Qed.

Lemma orInt_nonzero (n d : Z) : d <> 0 -> settings.orInt n d <> 0.
Proof.
  unfold settings.orInt. intros Hd. destruct (n =? 0) eqn:E; [exact Hd|].
  now apply Z.eqb_neq.
Qed.

Lemma orInt_kept (n d : Z) : n <> 0 -> settings.orInt n d = n.
Proof.
  unfold settings.orInt. intros Hn. apply Z.eqb_neq in Hn. now rewrite Hn.
Qed.

(** X17. [setDefaults] fills in what the file left at the zero value and
    nothing else. Applying it twice is applying it once; afterwards no
    timeout, size, delay or retry count is 0 and the web interface is
    enabled, whatever the file says; a number given that is not 0 is
    kept, a negative one too. So [max_retries: 0] cannot be asked for:
    it is read as 3. *)
Theorem setDefaults_fills_zero_values (c : settings.Config) :
  let c' := settings.setDefaults c in
  settings.setDefaults c' = c'
  /\ settings.Web_Enabled (settings.web c') = true
  /\ (settings.Proxy_MaxRetries (settings.proxy c') <> 0
      /\ settings.Proxy_RetryDelay (settings.proxy c') <> 0
      /\ settings.Proxy_Timeout (settings.proxy c') <> 0
      /\ settings.Web_MaxLogs (settings.web c') <> 0
      /\ settings.BufferSize (settings.websocket c') <> 0
      /\ settings.BroadcastSize (settings.websocket c') <> 0)
  /\ (settings.Proxy_MaxRetries (settings.proxy c) = 0 ->
      settings.Proxy_MaxRetries (settings.proxy c') = 3)
  /\ (settings.Proxy_MaxRetries (settings.proxy c) <> 0 ->
      settings.Proxy_MaxRetries (settings.proxy c')
      = settings.Proxy_MaxRetries (settings.proxy c))
  /\ settings.Proxy_Targets (settings.proxy c')
     = settings.Proxy_Targets (settings.proxy c).
Proof.
  cbv zeta. split; [|split; [|split; [|split; [|split]]]].
  - unfold settings.setDefaults.
    cbn [settings.server settings.web settings.proxy settings.logging
         settings.websocket settings.Server_Port settings.Server_Host
         settings.Server_Timeouts settings.Read settings.Write settings.Idle
         settings.Shutdown settings.Web_Port settings.Web_Enabled
         settings.Web_MaxLogs settings.Proxy_Targets settings.Proxy_Timeout
         settings.Proxy_MaxRetries settings.Proxy_RetryDelay
         settings.Proxy_HTTPProxy settings.Logging_Level
         settings.Logging_File settings.BufferSize settings.BroadcastSize].
    rewrite !orString_idem, !orInt_idem.
    now destruct (settings.Web_Enabled (settings.web c)).
  - cbn. now destruct (settings.Web_Enabled (settings.web c)).
  - cbn [settings.setDefaults settings.proxy settings.web settings.websocket
         settings.Proxy_MaxRetries settings.Proxy_RetryDelay
         settings.Proxy_Timeout settings.Web_MaxLogs settings.BufferSize
         settings.BroadcastSize].
    repeat split; apply orInt_nonzero; lia.
  - cbn [settings.setDefaults settings.proxy settings.Proxy_MaxRetries].
    now intros ->.
  - cbn [settings.setDefaults settings.proxy settings.Proxy_MaxRetries].
    apply orInt_kept.
  - reflexivity.
Qed.

Section NoAttempt.
Variable upperUnicode : string -> string.
Variable url_Parse : string -> result url.URL.
Variable URL_String : url.URL -> string.
Variable upstream : list string -> string -> option string.

(** X18. A negative [max_retries] in the file is kept by [LoadConfig],
    and then the proxy forwards nothing: the loop of
    [forwardRequestWithRetry] is not entered, so no request reaches an
    upstream and none is answered from one; a request that has a route
    and a URL that parses is answered 502. *)
Theorem negative_max_retries_forwards_nothing (parsed : settings.Config)
    (hm : proxy.HealthMap) (r : proxy.Request) :
  settings.Proxy_MaxRetries (settings.proxy parsed) < 0 ->
  let cfg := settings.proxyConfig (settings.LoadConfig parsed) in
  config.MaxRetries cfg = settings.Proxy_MaxRetries (settings.proxy parsed)
  /\ proxy.attempted
       (proxy.ServeHTTP upperUnicode url_Parse URL_String upstream cfg hm r)
     = []
  /\ (exists code msg,
        proxy.response
          (proxy.ServeHTTP upperUnicode url_Parse URL_String upstream cfg hm r)
        = proxy.HttpError msg code)
  /\ (forall target targetURL,
        proxy.findTarget upperUnicode (config.Targets cfg)
          (url.Path (proxy.RequestURL r)) (proxy.Method r) = Some target ->
        proxy.selectFastestURL hm target <> "" ->
        proxy.buildTargetURL url_Parse URL_String (proxy.RequestURL r)
          (config.withTargetURL target (proxy.selectFastestURL hm target))
        = Ok targetURL ->
        proxy.response
          (proxy.ServeHTTP upperUnicode url_Parse URL_String upstream cfg hm r)
        = proxy.HttpError "Bad Gateway" 502).
Proof.
  intros Hneg. cbv zeta.
  set (cfg := settings.proxyConfig (settings.LoadConfig parsed)).
  assert (Hmax : config.MaxRetries cfg
                 = settings.Proxy_MaxRetries (settings.proxy parsed)).
  { unfold cfg. cbn. apply orInt_kept. lia. }
  assert (Hloop : Z.to_nat (config.MaxRetries cfg + 1) = 0%nat)
    by (rewrite Hmax; lia).
  split; [exact Hmax|]. unfold proxy.ServeHTTP.
  destruct (proxy.findTarget upperUnicode (config.Targets cfg)
              (url.Path (proxy.RequestURL r)) (proxy.Method r))
    as [target|] eqn:Hfind.
  - destruct (String.eqb (proxy.selectFastestURL hm target) "") eqn:Hsel.
    + cbn. repeat split; eauto. intros t u [= <-] Hne.
      apply String.eqb_eq in Hsel. contradiction.
    + destruct (proxy.buildTargetURL url_Parse URL_String (proxy.RequestURL r)
                  (config.withTargetURL target
                     (proxy.selectFastestURL hm target)))
        as [targetURL|e] eqn:Hbuild.
      * unfold proxy.forwardRequestWithRetry. rewrite Hbuild, Hloop.
        cbn. repeat split; eauto.
      * cbn. repeat split; eauto.
  - cbn. repeat split; eauto. discriminate.
Qed.

End NoAttempt.

(** X18 at work: [max_retries: -1] and one route, written with its
    [target_url] alone. A request for that route has a route, a URL and
    a target URL that builds; no attempt is made and it is answered 502,
    although the upstream would answer. *)
Lemma negative_max_retries_forwards_nothing_witness :
  let parsed :=
    {| settings.server :=
         {| settings.Server_Port := ""; settings.Server_Host := "";
            settings.Server_Timeouts :=
              {| settings.Read := 0; settings.Write := 0;
                 settings.Idle := 0; settings.Shutdown := 0 |} |};
       settings.web :=
         {| settings.Web_Port := ""; settings.Web_Enabled := false;
            settings.Web_MaxLogs := 0 |};
       settings.proxy :=
         {| settings.Proxy_Targets := [fixtures.route "/x" "http://a" []];
            settings.Proxy_Timeout := 0; settings.Proxy_MaxRetries := -1;
            settings.Proxy_RetryDelay := 0; settings.Proxy_HTTPProxy := "" |};
       settings.logging :=
         {| settings.Logging_Level := ""; settings.Logging_File := "" |};
       settings.websocket :=
         {| settings.BufferSize := 0; settings.BroadcastSize := 0 |} |} in
  let cfg := settings.proxyConfig (settings.LoadConfig parsed) in
  let served :=
    proxy.ServeHTTP fixtures.upperUnicode fixtures.url_Parse
      fixtures.URL_String fixtures.upstream_ok cfg ∅ (fixtures.GET "/x" "") in
  config.MaxRetries cfg = -1
  /\ (config.TargetURLs <$>
        proxy.findTarget fixtures.upperUnicode (config.Targets cfg) "/x" "GET")
     = Some ["http://a"]
  /\ proxy.attempted served = []
  /\ proxy.response served = proxy.HttpError "Bad Gateway" 502.
Proof.
  cbv zeta.
  match goal with
  | |- config.MaxRetries (settings.proxyConfig (settings.LoadConfig ?c)) = _
       /\ _ =>
      destruct (negative_max_retries_forwards_nothing fixtures.upperUnicode
                  fixtures.url_Parse fixtures.URL_String fixtures.upstream_ok
                  c ∅ (fixtures.GET "/x" ""))
        as (Hmax & Hatt & _ & H502)
  end.
  - cbn. lia.
  - split; [exact Hmax|]. split; [vm_compute; reflexivity|].
    split; [exact Hatt|].
    eapply H502.
    + vm_compute. reflexivity.
    + vm_compute. discriminate.
    + vm_compute. reflexivity.
Defined.


Section HubClear.
Variable dayFile : Z -> string.
Variable tooLong : string -> bool.
Variable decode : string -> option types.LogMessage.
Variable Atoi : string -> option Z.
Variable encodeAll : list types.LogMessage -> option string.

Lemma hub_ClearHistory_cleared (s : hub.Journaled) (now : Z) :
  storage.isHistoryFile (dayFile now) = true ->
  let s' := hub.ClearHistory dayFile s now in
  websocket.history (hub.memory s') = []
  /\ websocket.stats (hub.memory s') = websocket.stats (hub.memory s)
  /\ websocket.broadcast (hub.memory s')
     = websocket.broadcast (hub.memory s)
  /\ (forall name,
        storage.isHistoryFile name = false ->
        hub.dataDir s' !! name = hub.dataDir s !! name)
  /\ (forall name,
        is_Some (hub.historyStorage s) ->
        storage.isHistoryFile name = true -> hub.dataDir s' !! name = None)
  /\ forall limitStr,
       web.handleHistory tooLong decode Atoi encodeAll s' "GET" limitStr
       = match encodeAll [] with
         | Some body => web.Json body
         | None => web.Status 500 "Internal Server Error"
         end.
Proof.
  intros Hday. cbv zeta. unfold hub.ClearHistory.
  destruct (hub.historyStorage s) as [st|] eqn:Hst.
  - destruct (ClearHistory_files dayFile st (hub.dataDir s) now)
      as (Hgone & Hkept & Hglob).
    unfold storage.ClearHistory in *. cbn [snd] in Hgone, Hkept, Hglob.
    cbn [hub.memory hub.dataDir hub.historyStorage hub.withHistory
         websocket.history websocket.stats websocket.broadcast].
    split; [reflexivity|]. split; [reflexivity|]. split; [reflexivity|].
    split; [exact Hkept|]. split; [intros name _; apply Hgone|].
    intros limitStr. unfold web.handleHistory, hub.GetHistory.
    cbn [String.eqb Ascii.eqb Bool.eqb negb hub.historyStorage hub.dataDir].
    rewrite (GetRecentMessages_no_file tooLong decode); [reflexivity | | |].
    + cbn [storage.filePath storage.withFilePath]. now apply Hgone.
    + exact Hglob.
    + pose proof (historyLimit_range Atoi limitStr). lia.
  - cbn [hub.memory hub.dataDir hub.historyStorage hub.withHistory
         websocket.history websocket.stats websocket.broadcast].
    split; [reflexivity|]. split; [reflexivity|]. split; [reflexivity|].
    split; [reflexivity|]. split; [intros name [x Hx]; discriminate|].
    intros limitStr. unfold web.handleHistory, hub.GetHistory.
    cbn [String.eqb Ascii.eqb Bool.eqb negb hub.historyStorage
         hub.memory websocket.history rev]. reflexivity.
Qed.

(** X19. Clearing the history through the web server, the file of the
    day being named [history_*.jsonl]. A [POST] or [DELETE] empties the
    memory of the hub and removes the journal files, leaving the other
    files, the statistics and the channel as they are; a [GET] of the
    history then shows no message, with or without a journal. Any other
    method is answered 405 and changes nothing. *)
Theorem handleClearHistory_clears (s : hub.Journaled) (method : string)
    (now : Z) :
  storage.isHistoryFile (dayFile now) = true ->
  let '(s', reply) := web.handleClearHistory dayFile s method now in
  (method = "POST" \/ method = "DELETE" ->
   websocket.history (hub.memory s') = []
   /\ websocket.stats (hub.memory s') = websocket.stats (hub.memory s)
   /\ websocket.broadcast (hub.memory s')
      = websocket.broadcast (hub.memory s)
   /\ (forall name,
         storage.isHistoryFile name = false ->
         hub.dataDir s' !! name = hub.dataDir s !! name)
   /\ (forall name,
         is_Some (hub.historyStorage s) ->
         storage.isHistoryFile name = true -> hub.dataDir s' !! name = None)
   /\ forall limitStr,
        web.handleHistory tooLong decode Atoi encodeAll s' "GET" limitStr
        = match encodeAll [] with
          | Some body => web.Json body
          | None => web.Status 500 "Internal Server Error"
          end)
  /\ (method <> "POST" -> method <> "DELETE" ->
      s' = s /\ reply = web.Status 405 "Method Not Allowed").
Proof.
  intros Hday. pose proof (hub_ClearHistory_cleared s now Hday) as Hclear.
  unfold web.handleClearHistory.
  destruct (String.eqb method "POST") eqn:Hpost.
  - cbn [negb andb]. apply String.eqb_eq in Hpost.
    split; [intros _; exact Hclear | intros H; contradiction].
  - destruct (String.eqb method "DELETE") eqn:Hdel; cbn [negb andb].
    + apply String.eqb_eq in Hdel.
      split; [intros _; exact Hclear | intros _ H; contradiction].
    + apply String.eqb_neq in Hpost, Hdel.
      split; [intros [H | H]; contradiction | now split].
Qed.

End HubClear.

(** X19 at work: a hub that has journalled two messages. *)
Lemma handleClearHistory_clears_witness :
  let s :=
    hub.broadcasts samples.secondFile samples.tooLong samples.encode
      (hub.NewHub samples.dayFile 3 ∅ 0)
      [(fixtures.record "GET" "/a" 200, 1, 1);
       (fixtures.record "GET" "/b" 500, 2, 2)] in
  let '(s', reply) := web.handleClearHistory samples.dayFile s "POST" 3 in
  websocket.history (hub.memory s') = []
  /\ types.TotalRequests (websocket.stats (hub.memory s')) = 2
  /\ web.handleHistory samples.tooLong samples.decode samples.Atoi
       samples.encodeAll s "GET" "5"
     = web.Json "/b;/a;"
  /\ web.handleHistory samples.tooLong samples.decode samples.Atoi
       samples.encodeAll s' "GET" "5"
     = web.Json "".
Proof.
  cbv zeta.
  pose proof (handleClearHistory_clears samples.dayFile samples.tooLong
                samples.decode samples.Atoi samples.encodeAll
                (hub.broadcasts samples.secondFile samples.tooLong
                   samples.encode (hub.NewHub samples.dayFile 3 ∅ 0)
                   [(fixtures.record "GET" "/a" 200, 1, 1);
                    (fixtures.record "GET" "/b" 500, 2, 2)])
                "POST" 3 eq_refl) as H.
  destruct (web.handleClearHistory samples.dayFile _ "POST" 3) as [s' reply].
  destruct H as [H _].
  destruct (H (or_introl eq_refl)) as (Hmem & Hstats & _ & _ & _ & Hget).
  split; [exact Hmem|]. split; [rewrite Hstats; vm_compute; reflexivity|].
  split; [vm_compute; reflexivity | apply Hget].
Defined.


(** ** What the client is sent, attempt after attempt *)

Lemma attemptsMade_S (outcomes : nat -> relay.Attempt) (n : nat) :
  relay.attemptsMade outcomes (S n)
  = relay.attemptsMade outcomes n ++ [outcomes n].
Proof. unfold relay.attemptsMade. now rewrite seq_S, map_app. Qed.

Lemma head_app_l {A : Type} (l k : list A) :
  head (l ++ k) = match head l with Some x => Some x | None => head k end.
Proof. now destruct l. Qed.

Lemma last_snoc_default {A : Type} (l : list A) (x d : A) :
  List.last (l ++ [x]) d = x.
Proof. apply List.last_last. Qed.

Section RelayAttempts.
Variable upperUnicode : string -> string.
Variable url_Parse : string -> result url.URL.
Variable URL_String : url.URL -> string.
Variable writeFails : streaming.Writer -> list Z -> option string.
Variable ioCopy :
  list streaming.Read -> streaming.Writer -> streaming.Writer * option string.
Hypothesis Hwrite : forall w chunk, writeFails w chunk = None.

(** One attempt with a streamed response, to a writer that flushes. *)
Lemma forwardOnce_streamed (w : relay.ResponseWriter) (resp : relay.Resp) :
  relay.isStreaming resp = true ->
  let sse := GoStrings.Contains (relay.ContentType resp) "text/event-stream" in
  let size := if sse then 1024 else 64 in
  exists flushes,
    relay.forwardOnce writeFails ioCopy true w (relay.Responded resp)
    = ({| relay.sent := match relay.sent w with
                        | Some c => Some c
                        | None => Some (relay.StatusCode resp)
                        end;
          relay.statusCode := relay.StatusCode resp;
          relay.out :=
            {| streaming.written :=
                 streaming.written (relay.out w)
                 ++ relay.relayedBy (relay.Responded resp);
               streaming.flushes := flushes |} |},
       option_map
         (fun msg =>
            "failed to copy response body: "
            +:+ (if sse then "failed to read SSE response"
                 else "failed to read from response body") +:+ ": " +:+ msg)
         (streaming.failure (relay.Body resp size))).
Proof.
  intros Hs. cbv zeta. unfold relay.forwardOnce. rewrite Hs.
  pose proof (streamResponse_all writeFails ioCopy (relay.ContentType resp)
                (relay.Body resp) (relay.out (relay.WriteHeader w
                                                (relay.StatusCode resp)))
                Hwrite) as Hall.
  cbv zeta in Hall. rewrite Hall. eexists.
  cbn [relay.WriteHeader relay.sent relay.statusCode relay.out
       relay.relayedBy].
  f_equal. now destruct (streaming.failure _).
Qed.

(** The writer after [n] attempts, each of which failed before a
    response or had a streamed one. *)
Lemma writerAfter_streamed (outcomes : nat -> relay.Attempt)
    (w : relay.ResponseWriter) (n : nat) :
  (forall i resp, outcomes i = relay.Responded resp ->
                  relay.isStreaming resp = true) ->
  let made := relay.attemptsMade outcomes n in
  let statuses := concat (map relay.statusOf made) in
  let w' := relay.writerAfter writeFails ioCopy true outcomes w n in
  streaming.written (relay.out w')
  = streaming.written (relay.out w) ++ concat (map relay.relayedBy made)
  /\ relay.sent w'
     = match relay.sent w with Some c => Some c | None => head statuses end
  /\ relay.statusCode w' = List.last statuses (relay.statusCode w).
Proof.
  intros Hs. cbv zeta. induction n as [|n IH].
  - cbn. rewrite app_nil_r. repeat split. now destruct (relay.sent w).
  - destruct IH as (Hout & Hsent & Hcode).
    rewrite attemptsMade_S, !map_app, !concat_app.
    cbn [relay.writerAfter map concat]. rewrite !app_nil_r.
    destruct (outcomes n) as [err|resp] eqn:Ho.
    + cbn [relay.forwardOnce fst relay.relayedBy relay.statusOf].
      rewrite !app_nil_r. auto.
    + destruct (forwardOnce_streamed
                  (relay.writerAfter writeFails ioCopy true outcomes w n)
                  resp (Hs n resp Ho)) as [fl ->].
      cbn [fst relay.out relay.sent relay.statusCode streaming.written
           relay.statusOf].
      rewrite Hout, Hsent, <- app_assoc, last_snoc_default, head_app_l.
      split; [reflexivity|]. split; [|reflexivity].
      destruct (relay.sent w); [reflexivity|].
      now destruct (head (concat (map relay.statusOf
                                    (relay.attemptsMade outcomes n)))).
Qed.

(** X20. What the client has been sent when [ServeHTTP] returns, every
    response being a streamed one, the writer flushing and no write
    failing. The body is what each attempt relayed, one after the other,
    up to the read that failed it, followed by the text of the error
    status if the request ends in one; the status sent is that of the
    first response, whatever comes later, and the status kept for the
    log is that of the last response, or the error status. So a request
    that is retried after part of a response was relayed sends the
    client both responses under the status of the first. *)
Theorem ServeHTTP_relays_every_attempt (cfg : config.Config)
    (hm : proxy.HealthMap) (r : proxy.Request)
    (outcomes : nat -> relay.Attempt) :
  (forall i resp, outcomes i = relay.Responded resp ->
                  relay.isStreaming resp = true) ->
  let '(served, w) :=
    relay.ServeHTTP upperUnicode url_Parse URL_String writeFails ioCopy true
      cfg hm r outcomes relay.fresh in
  let made :=
    relay.attemptsMade outcomes (length (proxy.attempted served)) in
  let statuses := concat (map relay.statusOf made) in
  match proxy.response served with
  | proxy.Relayed =>
      streaming.written (relay.out w) = concat (map relay.relayedBy made)
      /\ relay.sent w = head statuses
      /\ relay.statusCode w = List.last statuses 200
  | proxy.HttpError msg code =>
      streaming.written (relay.out w)
      = concat (map relay.relayedBy made) ++ relay.bytesOfString msg ++ [10]
      /\ relay.sent w = Some (default code (head statuses))
      /\ relay.statusCode w = code
  end.
Proof.
  intros Hs. unfold relay.ServeHTTP. cbv zeta.
  set (served := proxy.ServeHTTP upperUnicode url_Parse URL_String _ cfg hm r).
  destruct (writerAfter_streamed outcomes relay.fresh
              (length (proxy.attempted served)) Hs) as (Hout & Hsent & Hcode).
  cbn [relay.fresh relay.out relay.sent relay.statusCode streaming.written
       app] in Hout, Hsent, Hcode.
  destruct (proxy.response served) as [msg code|].
  - unfold relay.httpError. rewrite Hwrite.
    cbn [relay.WriteHeader relay.out relay.sent relay.statusCode
         streaming.written]. rewrite Hout, Hsent.
    repeat split. now destruct (head _).
  - auto.
Qed.

(** X21. A retry after a broken stream. The first attempt has a
    streamed response whose body breaks with an error the proxy retries
    on; the second has a streamed response that reaches its end; at
    least one retry is allowed. Then [ServeHTTP] returns without an
    error status, having made two attempts, and the client has been sent
    the status of the first response, followed by the part of the first
    body that was read and then the whole second body; the log keeps the
    status of the second. *)
Theorem retry_after_broken_stream (cfg : config.Config)
    (hm : proxy.HealthMap) (r : proxy.Request) (target : config.ProxyTarget)
    (targetURL : string) (outcomes : nat -> relay.Attempt)
    (resp0 resp1 : relay.Resp) (msg : string) :
  proxy.findTarget upperUnicode (config.Targets cfg)
    (url.Path (proxy.RequestURL r)) (proxy.Method r) = Some target ->
  proxy.selectFastestURL hm target <> "" ->
  proxy.buildTargetURL url_Parse URL_String (proxy.RequestURL r)
    (config.withTargetURL target (proxy.selectFastestURL hm target))
  = Ok targetURL ->
  1 <= config.MaxRetries cfg ->
  outcomes 0%nat = relay.Responded resp0 ->
  relay.isStreaming resp0 = true ->
  streaming.failure
    (relay.Body resp0
       (if GoStrings.Contains (relay.ContentType resp0) "text/event-stream"
        then 1024 else 64)) = Some msg ->
  proxy.isRetryableError
    ("failed to copy response body: "
     +:+ (if GoStrings.Contains (relay.ContentType resp0) "text/event-stream"
          then "failed to read SSE response"
          else "failed to read from response body") +:+ ": " +:+ msg)
  = true ->
  outcomes 1%nat = relay.Responded resp1 ->
  relay.isStreaming resp1 = true ->
  streaming.failure
    (relay.Body resp1
       (if GoStrings.Contains (relay.ContentType resp1) "text/event-stream"
        then 1024 else 64)) = None ->
  let '(served, w) :=
    relay.ServeHTTP upperUnicode url_Parse URL_String writeFails ioCopy true
      cfg hm r outcomes relay.fresh in
  proxy.response served = proxy.Relayed
  /\ proxy.attempted served = [targetURL; targetURL]
  /\ relay.sent w = Some (relay.StatusCode resp0)
  /\ relay.statusCode w = relay.StatusCode resp1
  /\ streaming.written (relay.out w)
     = relay.relayedBy (relay.Responded resp0)
       ++ relay.relayedBy (relay.Responded resp1).
Proof.
  intros Hfind Hne Hbuild Hmax Ho0 Hs0 Hf0 Hretry Ho1 Hs1 Hf1.
  unfold relay.ServeHTTP. cbv zeta.
  set (up := relay.upstream writeFails ioCopy true outcomes relay.fresh).
  assert (Hfirst : up [] targetURL
                   = Some ("failed to copy response body: "
                           +:+ (if GoStrings.Contains (relay.ContentType resp0)
                                     "text/event-stream"
                                then "failed to read SSE response"
                                else "failed to read from response body")
                           +:+ ": " +:+ msg)).
  { unfold up, relay.upstream. cbn [length relay.writerAfter]. rewrite Ho0.
    destruct (forwardOnce_streamed relay.fresh resp0 Hs0) as [fl ->].
    cbn [snd]. now rewrite Hf0. }
  assert (Hsecond : up [targetURL] targetURL = None).
  { unfold up, relay.upstream. cbn [length relay.writerAfter]. rewrite Ho0, Ho1.
    destruct (forwardOnce_streamed
                (fst (relay.forwardOnce writeFails ioCopy true relay.fresh
                        (relay.Responded resp0))) resp1 Hs1) as [fl ->].
    cbn [snd]. now rewrite Hf1. }
  assert (Hserved :
    proxy.ServeHTTP upperUnicode url_Parse URL_String up cfg hm r
    = {| proxy.response := proxy.Relayed;
         proxy.loggedTarget := Some targetURL;
         proxy.attempted := [targetURL; targetURL] |}).
  { unfold proxy.ServeHTTP. rewrite Hfind.
    apply String.eqb_neq in Hne. rewrite Hne, Hbuild.
    unfold proxy.forwardRequestWithRetry. rewrite Hbuild.
    change (@nil string) with (repeat targetURL 0).
    rewrite (retryLoop_stops url_Parse URL_String up r _ targetURL Hbuild
               1%nat _ 0%nat None).
    - unfold Runs.outcome. cbn [repeat Nat.add]. now rewrite Hsecond.
    - lia.
    - intros i Hi. assert (i = 0%nat) as -> by lia.
      unfold Runs.stops, Runs.outcome. cbn [repeat Nat.add].
      now rewrite Hfirst, Hretry.
    - unfold Runs.stops, Runs.outcome. cbn [repeat Nat.add].
      now rewrite Hsecond. }
  rewrite Hserved. cbn [proxy.response proxy.attempted length].
  split; [reflexivity|]. split; [reflexivity|].
  cbn [relay.writerAfter]. rewrite Ho0, Ho1.
  destruct (forwardOnce_streamed relay.fresh resp0 Hs0) as [fl0 ->].
  cbn [fst].
  match goal with
  | |- context [relay.forwardOnce _ _ _ ?w0 (relay.Responded resp1)] =>
      destruct (forwardOnce_streamed w0 resp1 Hs1) as [fl1 ->]
  end.
  cbn [fst relay.sent relay.statusCode relay.out relay.fresh
       streaming.written app]. repeat split.
Qed.

End RelayAttempts.


(** X20 at work: the broken stream, then the whole one. *)
Lemma ServeHTTP_relays_every_attempt_witness :
  let '(served, w) :=
    relay.ServeHTTP fixtures.upperUnicode fixtures.url_Parse
      fixtures.URL_String scenario.writeFails scenario.ioCopy true scenario.cfg ∅
      (fixtures.GET "/x" "") scenario.outcomes relay.fresh in
  proxy.response served = proxy.Relayed
  /\ length (proxy.attempted served) = 2%nat
  /\ streaming.written (relay.out w)
     = concat (map relay.relayedBy
                 (relay.attemptsMade scenario.outcomes 2))
  /\ relay.sent w = Some 200
  /\ relay.statusCode w = 206.
Proof.
  pose proof (ServeHTTP_relays_every_attempt fixtures.upperUnicode
                fixtures.url_Parse fixtures.URL_String scenario.writeFails
                scenario.ioCopy (fun _ _ => eq_refl) scenario.cfg ∅
                (fixtures.GET "/x" "") scenario.outcomes) as H.
  destruct (relay.ServeHTTP fixtures.upperUnicode fixtures.url_Parse
              fixtures.URL_String scenario.writeFails scenario.ioCopy true
              scenario.cfg ∅ (fixtures.GET "/x" "") scenario.outcomes
              relay.fresh)
    as [served w] eqn:E.
  assert (Hserved : proxy.response served = proxy.Relayed
                    /\ length (proxy.attempted served) = 2%nat).
  { apply (f_equal fst) in E. cbn [fst] in E. subst served.
    vm_compute. split; reflexivity. }
  destruct Hserved as [Hresp Hlen]. cbv zeta in H.
  rewrite Hresp, Hlen in H.
  destruct H as (Hout & Hsent & Hcode).
  - intros [|i] resp [= <-]; reflexivity.
  - split; [exact Hresp|]. split; [exact Hlen|]. split; [exact Hout|].
    split; [rewrite Hsent | rewrite Hcode]; reflexivity.
Defined.

(** X21 at work: the client is sent the first two events, then all
    three, under the status 200 of the broken response. *)
Lemma retry_after_broken_stream_witness :
  let '(served, w) :=
    relay.ServeHTTP fixtures.upperUnicode fixtures.url_Parse
      fixtures.URL_String scenario.writeFails scenario.ioCopy true scenario.cfg ∅
      (fixtures.GET "/x" "") scenario.outcomes relay.fresh in
  proxy.response served = proxy.Relayed
  /\ proxy.attempted served = ["http://a"; "http://a"]
  /\ relay.sent w = Some 200
  /\ relay.statusCode w = 206
  /\ streaming.written (relay.out w)
     = relay.relayedBy (relay.Responded scenario.brokenStream)
       ++ relay.relayedBy (relay.Responded scenario.wholeStream).
Proof.
  apply (retry_after_broken_stream fixtures.upperUnicode fixtures.url_Parse
           fixtures.URL_String scenario.writeFails scenario.ioCopy
           (fun _ _ => eq_refl) scenario.cfg ∅ (fixtures.GET "/x" "")
           (fixtures.route "/x" "http://a" ["http://a"]) "http://a"
           scenario.outcomes scenario.brokenStream scenario.wholeStream
           "read tcp 10.0.0.1:443: connection reset by peer").
  - reflexivity.
  - discriminate.
  - reflexivity.
  - cbn. lia.
  - reflexivity.
  - reflexivity.
  - reflexivity.
  - vm_compute. reflexivity.
  - reflexivity.
  - reflexivity.
  - reflexivity.
Defined.


(** ** Headers of the outbound request *)

Section CopyHeaders.
Variable canon : string -> string.

Lemma addValues_lookup (key : string) (values : list string) :
  forall (req : gmap string (list string)) (k : string),
    fold_left (fun req value => headers.Add canon req key value) values req
    !! k
    = if decide (k = canon key) then
        match values with
        | [] => req !! k
        | _ => Some (default [] (req !! k) ++ values)
        end
      else req !! k.
Proof.
  induction values as [|v values IH]; intros req k; cbn [fold_left].
  - now destruct (decide (k = canon key)).
  - rewrite IH. unfold headers.Add. cbv zeta.
    destruct (decide (k = canon key)) as [->|Hne].
    + rewrite lookup_insert_eq. cbn [default].
      destruct values; [reflexivity|]. unfold id.
      now rewrite <- app_assoc.
    + now rewrite lookup_insert_ne by congruence.
Qed.

(** The first loop, on entries whose keys are canonical and differ. *)
Lemma copyOne_lookup (entries : list (string * list string)) :
  NoDup entries.*1 ->
  (forall key values, (key, values) ∈ entries -> canon key = key) ->
  forall (req : gmap string (list string)) (k : string),
    fold_left (headers.copyOne canon) entries req !! k
    = match list_find (fun entry => fst entry = k) entries with
      | Some (_, (_, v :: values)) =>
          if String.eqb k "Host" then req !! k
          else Some (default [] (req !! k) ++ v :: values)
      | _ => req !! k
      end.
Proof.
  induction entries as [|[key values] entries IH]; intros Hnd Hcanon req k;
    [reflexivity|].
  apply NoDup_cons in Hnd as [Hfresh Hnd]. cbn [fold_left].
  rewrite IH;
    [|exact Hnd|intros k0 vs0 Hin0; apply (Hcanon k0 vs0); now right].
  assert (Hkey : canon key = key) by (apply (Hcanon key values); left).
  assert (Hstep : forall k',
            headers.copyOne canon req (key, values) !! k'
            = if decide (k' = key) then
                if String.eqb key "Host" then req !! k'
                else match values with
                     | [] => req !! k'
                     | _ => Some (default [] (req !! k') ++ values)
                     end
              else req !! k').
  { intros k'. unfold headers.copyOne.
    destruct (String.eqb key "Host"); [now destruct (decide (k' = key))|].
    rewrite addValues_lookup, Hkey. reflexivity. }
  cbn [list_find]. cbn [fst]. destruct (decide (key = k)) as [->|Hne].
  - cbn [fmap option_fmap option_map].
    assert (Hnone : list_find (fun entry : string * list string =>
                                 fst entry = k) entries = None).
    { apply list_find_None. apply Forall_forall. intros [k' vs] Hin Heq.
      cbn in Heq. subst k'. apply Hfresh.
      apply list_elem_of_fmap. now exists (k, vs). }
    rewrite Hnone, Hstep, decide_True by reflexivity.
    destruct values; destruct (String.eqb k "Host"); reflexivity.
  - rewrite Hstep, decide_False by congruence.
    destruct (list_find (fun entry : string * list string => fst entry = k)
                entries) as [[i [k' vs]]|]; reflexivity.
Qed.

(** The second loop. *)
Lemma setAll_lookup (entries : list (string * string)) :
  forall (req : gmap string (list string)) (k : string),
    (Forall (fun entry => canon (fst entry) <> k) entries ->
     fold_left (fun req entry =>
                  headers.Set_ canon req (fst entry) (snd entry))
       entries req !! k = req !! k)
    /\ (forall key v,
          (key, v) ∈ entries ->
          canon key = k ->
          (forall key' v', (key', v') ∈ entries -> canon key' = k ->
                           key' = key /\ v' = v) ->
          fold_left (fun req entry =>
                       headers.Set_ canon req (fst entry) (snd entry))
            entries req !! k = Some [v]).
Proof.
  induction entries as [|[key0 v0] entries IH]; intros req k.
  - split; [reflexivity|]. intros key v Hin. now apply elem_of_nil in Hin.
  - cbn [fold_left fst snd]. split.
    + intros Hall. apply Forall_cons in Hall as [Hne Hall]. cbn in Hne.
      rewrite (proj1 (IH _ k) Hall). unfold headers.Set_.
      now rewrite lookup_insert_ne by exact Hne.
    + intros key v Hin Hk Huniq.
      destruct (decide (Forall (fun entry : string * string =>
                                  canon (fst entry) <> k) entries))
        as [Hrest|Hrest].
      * rewrite (proj1 (IH _ k) Hrest).
        apply elem_of_cons in Hin as [[= -> ->] | Hin].
        -- unfold headers.Set_. rewrite Hk. apply lookup_insert_eq.
        -- exfalso. rewrite Forall_forall in Hrest.
           now apply (Hrest (key, v) Hin).
      * apply not_Forall_Exists in Hrest; [|intros x; apply _].
        apply Exists_exists in Hrest as ([key1 v1] & Hin1 & Hk1).
        cbn in Hk1. apply dec_stable in Hk1.
        destruct (Huniq key1 v1 ltac:(now right) Hk1) as [-> ->].
        apply (proj2 (IH _ k) key v Hin1 Hk).
        intros key' v' Hin'. apply Huniq. now right.
Qed.

Variable rangeValues :
  gmap string (list string) -> list (string * list string).
Variable rangeValue : gmap string string -> list (string * string).

(** X22. The headers of the outbound request, made from none by
    [copyHeaders], in whatever order Go goes through the two maps, the
    keys of the incoming request being canonical. A header the route
    sets under exactly one spelling of its key has the value of the
    route alone, whatever the client sent. Any other header is as the
    client sent it, with all its values in their order, except [Host],
    which is not copied, and a key without values, which is left out. *)
Theorem copyHeaders_forwarded (original : gmap string (list string))
    (targetHeaders : gmap string string) (k : string) :
  rangeValues original ≡ₚ map_to_list original ->
  rangeValue targetHeaders ≡ₚ map_to_list targetHeaders ->
  (forall key values, original !! key = Some values -> canon key = key) ->
  let req :=
    headers.copyHeaders canon rangeValues rangeValue ∅ original
      targetHeaders in
  (forall key v,
     targetHeaders !! key = Some v ->
     canon key = k ->
     (forall key' v', targetHeaders !! key' = Some v' -> canon key' = k ->
                      key' = key) ->
     req !! k = Some [v])
  /\ ((forall key v, targetHeaders !! key = Some v -> canon key <> k) ->
      req !! k
      = if String.eqb k "Host" then None
        else match original !! k with
             | Some (v :: values) => Some (v :: values)
             | _ => None
             end).
Proof.
  intros Hperm1 Hperm2 Hcanon. cbv zeta. unfold headers.copyHeaders.
  set (req1 := fold_left (headers.copyOne canon) (rangeValues original) ∅).
  destruct (setAll_lookup (rangeValue targetHeaders) req1 k) as [Hnone Hone].
  assert (Hin2 : forall key v,
            (key, v) ∈ rangeValue targetHeaders
            <-> targetHeaders !! key = Some v).
  { intros key v. rewrite Hperm2. apply elem_of_map_to_list. }
  split.
  - intros key v Hkv Hk Huniq. apply (Hone key v); [now apply Hin2|exact Hk|].
    intros key' v' Hin' Hk'. apply Hin2 in Hin'.
    pose proof (Huniq key' v' Hin' Hk') as ->. split; [reflexivity|].
    congruence.
  - intros Hno. rewrite Hnone.
    2:{ apply Forall_forall. intros [key v] Hin. cbn.
        apply (Hno key v). now apply Hin2. }
    unfold req1. rewrite copyOne_lookup.
    + rewrite lookup_empty. cbn [default app].
      destruct (list_find (fun entry : string * list string => fst entry = k)
                  (rangeValues original)) as [[i [k' vs]]|] eqn:Hfind.
      * apply list_find_Some in Hfind as (Hi & Hk' & _). cbn in Hk'. subst k'.
        apply list_elem_of_lookup_2 in Hi. rewrite Hperm1 in Hi.
        apply elem_of_map_to_list in Hi. rewrite Hi.
        destruct vs; destruct (String.eqb k "Host"); reflexivity.
      * rewrite list_find_None, Forall_forall in Hfind.
        destruct (original !! k) as [vs|] eqn:Ho;
          [|now destruct (String.eqb k "Host")].
        exfalso. apply (Hfind (k, vs)); [|reflexivity].
        rewrite Hperm1. now apply elem_of_map_to_list.
    + rewrite Hperm1. apply NoDup_fst_map_to_list.
    + intros key values Hin. rewrite Hperm1 in Hin.
      apply elem_of_map_to_list in Hin. now apply (Hcanon key values).
Qed.

End CopyHeaders.


(** X22 at work: the key of the route replaces the key of the client,
    and the other headers go through, [Host] apart. *)
Lemma copyHeaders_forwarded_witness :
  let req :=
    headers.copyHeaders requests.canon map_to_list map_to_list ∅
      requests.incoming requests.ofTheRoute in
  req !! "X-Api-Key" = Some ["of-the-route"]
  /\ req !! "Accept" = Some ["text/event-stream"; "application/json"]
  /\ req !! "Host" = None.
Proof.
  cbv zeta.
  assert (Hcanon : forall key values,
            requests.incoming !! key = Some values ->
            requests.canon key = key).
  { intros key values Hk. unfold requests.canon.
    destruct (String.eqb key "x-api-key") eqn:E; [|reflexivity].
    apply String.eqb_eq in E. subst key. vm_compute in Hk. discriminate. }
  assert (Hroute : forall key v,
            requests.ofTheRoute !! key = Some v ->
            key = "x-api-key" /\ v = "of-the-route").
  { intros key v. unfold requests.ofTheRoute.
    destruct (decide (key = "x-api-key")) as [->|Hne].
    - rewrite lookup_insert_eq. now intros [= <-].
    - rewrite lookup_insert_ne by congruence. now rewrite lookup_empty. }
  split; [|split].
  - apply (copyHeaders_forwarded requests.canon map_to_list map_to_list
             requests.incoming requests.ofTheRoute "X-Api-Key"
             (reflexivity _) (reflexivity _) Hcanon)
      with (key := "x-api-key"); [reflexivity | reflexivity |].
    intros key' v' Hk' _. now apply Hroute in Hk' as [-> _].
  - apply (copyHeaders_forwarded requests.canon map_to_list map_to_list
             requests.incoming requests.ofTheRoute "Accept"
             (reflexivity _) (reflexivity _) Hcanon).
    intros key v Hk. apply Hroute in Hk as [-> _]. discriminate.
  - apply (copyHeaders_forwarded requests.canon map_to_list map_to_list
             requests.incoming requests.ofTheRoute "Host"
             (reflexivity _) (reflexivity _) Hcanon).
    intros key v Hk. apply Hroute in Hk as [-> _]. discriminate.
Defined.


(** ** Headers of the response *)

Section CopyResponseHeaders.
Variable canon : string -> string.
Variable rangeValues :
  gmap string (list string) -> list (string * list string).

Lemma addEntry_lookup (entries : list (string * list string)) :
  NoDup entries.*1 ->
  (forall key values, (key, values) ∈ entries -> canon key = key) ->
  forall (w : gmap string (list string)) (k : string),
    fold_left (headers.addEntry canon) entries w !! k
    = match list_find (fun entry => fst entry = k) entries with
      | Some (_, (_, v :: values)) =>
          Some (default [] (w !! k) ++ v :: values)
      | _ => w !! k
      end.
Proof.
  induction entries as [|[key values] entries IH]; intros Hnd Hcanon w k;
    [reflexivity|].
  apply NoDup_cons in Hnd as [Hfresh Hnd]. cbn [fold_left].
  rewrite IH;
    [|exact Hnd|intros k0 vs0 Hin0; apply (Hcanon k0 vs0); now right].
  assert (Hkey : canon key = key) by (apply (Hcanon key values); left).
  assert (Hstep : forall k',
            headers.addEntry canon w (key, values) !! k'
            = if decide (k' = key) then
                match values with
                | [] => w !! k'
                | _ => Some (default [] (w !! k') ++ values)
                end
              else w !! k').
  { intros k'. unfold headers.addEntry. cbn [fst snd].
    rewrite addValues_lookup, Hkey. reflexivity. }
  cbn [list_find]. cbn [fst]. destruct (decide (key = k)) as [->|Hne].
  - cbn [fmap option_fmap option_map].
    assert (Hnone : list_find (fun entry : string * list string =>
                                 fst entry = k) entries = None).
    { apply list_find_None. apply Forall_forall. intros [k' vs] Hin Heq.
      cbn in Heq. subst k'. apply Hfresh.
      apply list_elem_of_fmap. now exists (k, vs). }
    rewrite Hnone, Hstep, decide_True by reflexivity.
    destruct values; reflexivity.
  - rewrite Hstep, decide_False by congruence.
    destruct (list_find (fun entry : string * list string => fst entry = k)
                entries) as [[i [k' vs]]|]; reflexivity.
Qed.

(** The headers after the loop: the values of the response after those
    the writer had. *)
Lemma addEntry_merged (w resp : gmap string (list string)) (k : string) :
  rangeValues resp ≡ₚ map_to_list resp ->
  (forall key values, resp !! key = Some values -> canon key = key) ->
  fold_left (headers.addEntry canon) (rangeValues resp) w !! k
  = match resp !! k with
    | Some (v :: values) => Some (default [] (w !! k) ++ v :: values)
    | _ => w !! k
    end.
Proof.
  intros Hperm Hcanon. rewrite addEntry_lookup.
  - destruct (list_find (fun entry : string * list string => fst entry = k)
                (rangeValues resp)) as [[i [k' vs]]|] eqn:Hfind.
    + apply list_find_Some in Hfind as (Hi & Hk' & _). cbn in Hk'. subst k'.
      apply list_elem_of_lookup_2 in Hi. rewrite Hperm in Hi.
      apply elem_of_map_to_list in Hi. now rewrite Hi.
    + rewrite list_find_None, Forall_forall in Hfind.
      destruct (resp !! k) as [vs|] eqn:Ho; [|reflexivity].
      exfalso. apply (Hfind (k, vs)); [|reflexivity].
      rewrite Hperm. now apply elem_of_map_to_list.
  - rewrite Hperm. apply NoDup_fst_map_to_list.
  - intros key values Hin. rewrite Hperm in Hin.
    apply elem_of_map_to_list in Hin. now apply (Hcanon key values).
Qed.

(** X23. The headers of the response after [copyResponseHeaders], in
    whatever order Go goes through the map, the keys of the upstream
    response being canonical. Every header of the upstream response is
    added after the values the writer already had under that key (so a
    second pass, on a retry, doubles them). For a response whose
    [Content-Type] contains [text/event-stream], [Cache-Control] is then
    [no-cache] alone and [Connection] is [keep-alive] alone, whatever
    the upstream sent, and [Access-Control-Allow-Origin] is kept when
    its first value is not empty and is [*] otherwise; for any other
    response nothing else is done. *)
Theorem copyResponseHeaders_sse (w resp : gmap string (list string)) :
  rangeValues resp ≡ₚ map_to_list resp ->
  (forall key values, resp !! key = Some values -> canon key = key) ->
  Forall (fun key => canon key = key)
    ["Content-Type"; "Cache-Control"; "Connection";
     "Access-Control-Allow-Origin"] ->
  let merged k :=
    match resp !! k with
    | Some (v :: values) => Some (default [] (w !! k) ++ v :: values)
    | _ => w !! k
    end in
  let after := headers.copyResponseHeaders canon rangeValues w resp in
  if GoStrings.Contains (headers.Get canon resp "Content-Type")
       "text/event-stream"
  then
    after !! "Cache-Control" = Some ["no-cache"]
    /\ after !! "Connection" = Some ["keep-alive"]
    /\ after !! "Access-Control-Allow-Origin"
       = match merged "Access-Control-Allow-Origin" with
         | Some (v :: values) =>
             if String.eqb v "" then Some ["*"] else Some (v :: values)
         | _ => Some ["*"]
         end
    /\ forall k,
         k <> "Cache-Control" -> k <> "Connection" ->
         k <> "Access-Control-Allow-Origin" ->
         after !! k = merged k
  else forall k, after !! k = merged k.
Proof.
  intros Hperm Hcanon Hkeys. cbv zeta.
  apply Forall_cons in Hkeys as [_ Hkeys].
  apply Forall_cons in Hkeys as [Hcc Hkeys].
  apply Forall_cons in Hkeys as [Hconn Hkeys].
  apply Forall_cons in Hkeys as [Hacao _].
  unfold headers.copyResponseHeaders. cbv zeta.
  pose proof (fun k => addEntry_merged w resp k Hperm Hcanon) as Hmerged.
  set (w1 := fold_left (headers.addEntry canon) (rangeValues resp) w) in *.
  destruct (GoStrings.Contains (headers.Get canon resp "Content-Type")
              "text/event-stream"); [|exact Hmerged].
  unfold headers.Set_. rewrite Hcc, Hconn, Hacao.
  set (w3 := <["Connection" := ["keep-alive"]]>
               (<["Cache-Control" := ["no-cache"]]> w1)).
  assert (H3 : forall k, k <> "Cache-Control" -> k <> "Connection" ->
                         w3 !! k = w1 !! k).
  { intros k H1 H2. unfold w3. now rewrite !lookup_insert_ne by congruence. }
  assert (Hcache : w3 !! "Cache-Control" = Some ["no-cache"]).
  { unfold w3. rewrite lookup_insert_ne by discriminate.
    apply lookup_insert_eq. }
  assert (Hconnection : w3 !! "Connection" = Some ["keep-alive"])
    by apply lookup_insert_eq.
  assert (Horigin : w3 !! "Access-Control-Allow-Origin"
                    = w1 !! "Access-Control-Allow-Origin")
    by (apply H3; discriminate).
  unfold headers.Get. rewrite Hacao, Horigin, <- Hmerged.
  destruct (w1 !! "Access-Control-Allow-Origin") as [[|v values]|] eqn:Hm.
  - cbn [String.eqb]. rewrite lookup_insert_eq.
    rewrite !lookup_insert_ne by discriminate.
    repeat split; try assumption. intros k H1 H2 H4.
    rewrite lookup_insert_ne by congruence. rewrite H3 by assumption.
    apply Hmerged.
  - destruct (String.eqb v "") eqn:Hv.
    + rewrite lookup_insert_eq. rewrite !lookup_insert_ne by discriminate.
      repeat split; try assumption. intros k H1 H2 H4.
      rewrite lookup_insert_ne by congruence. rewrite H3 by assumption.
      apply Hmerged.
    + rewrite Horigin. repeat split; try assumption.
      intros k H1 H2 H4. rewrite H3 by assumption. apply Hmerged.
  - cbn [String.eqb]. rewrite lookup_insert_eq.
    rewrite !lookup_insert_ne by discriminate.
    repeat split; try assumption. intros k H1 H2 H4.
    rewrite lookup_insert_ne by congruence. rewrite H3 by assumption.
    apply Hmerged.
Qed.

End CopyResponseHeaders.


(** X23 at work: a stream of events that says it may be cached. *)
Lemma copyResponseHeaders_sse_witness :
  let after :=
    headers.copyResponseHeaders requests.canon map_to_list ∅
      requests.ofTheUpstream in
  after !! "Cache-Control" = Some ["no-cache"]
  /\ after !! "Connection" = Some ["keep-alive"]
  /\ after !! "Access-Control-Allow-Origin" = Some ["*"]
  /\ after !! "Content-Type" = Some ["text/event-stream; charset=utf-8"].
Proof.
  cbv zeta.
  pose proof (copyResponseHeaders_sse requests.canon map_to_list ∅
                requests.ofTheUpstream (reflexivity _)) as H.
  assert (Hsse : GoStrings.Contains
                   (headers.Get requests.canon requests.ofTheUpstream
                      "Content-Type") "text/event-stream" = true)
    by (vm_compute; reflexivity).
  cbv zeta in H. rewrite Hsse in H.
  destruct H as (Hcache & Hconn & Horigin & Hrest).
  - intros key values Hk. unfold requests.canon.
    destruct (String.eqb key "x-api-key") eqn:E; [|reflexivity].
    apply String.eqb_eq in E. subst key. vm_compute in Hk. discriminate.
  - repeat constructor.
  - split; [exact Hcache|]. split; [exact Hconn|].
    split; [rewrite Horigin; vm_compute; reflexivity|].
    rewrite Hrest by discriminate. vm_compute. reflexivity.
Defined.
